(** * A shallow embedding of the RAG chat backend

    The development follows the repository's layout:

    - [str], [Unicode], [PyStr]: Python text and the string built-ins the
      code calls ([str.upper], [str.lower], [in], [str.split],
      [str.endswith], [str.strip]);
    - [PyDict]: an insertion-ordered dictionary, as built by a dict
      comprehension, and [sorted] with a key and [reverse=True];
    - [Workflow]: [src/workflows/agent_workflow.py], the nodes of the
      graph, the graph run and [AgentWorkFlow.stream];
    - [KnowledgeBase]: [src/services/knowledge_base_service.py] and the
      upload route of [src/routes/knowledge_base.py].

    Python text is a sequence of Unicode code points.  The case mappings
    are the full mappings of the Unicode character database, with the
    final-sigma rule of [str.lower], and white space is what
    [str.isspace] accepts. *)

From Stdlib Require Import List Bool Arith NArith Lia.
From Stdlib.Strings Require Import Byte.
From Stdlib Require Import QArith Permutation Sorted.
Import ListNotations.

Local Close Scope Q_scope.
Local Open Scope list_scope.
Local Open Scope nat_scope.

(* ===================================================================== *)
(** ** Python text *)
(* ===================================================================== *)

(** A [str] is a sequence of Unicode code points. *)
Inductive str : Set :=
| EmptyStr
| Str (c : N) (s : str).

(** [s + t]. *)
Fixpoint append (s t : str) : str :=
  match s with
  | EmptyStr => t
  | Str c s' => Str c (append s' t)
  end.

(** String literals are read as UTF-8, so that ["é"] is the one code point
    233. *)
Module Utf8.

Definition low6 (b : N) : N := N.land b 63.

Fixpoint decode (bytes : list N) : list N :=
  match bytes with
  | [] => []
  | b :: r =>
      if (b <? 128)%N then b :: decode r
      else if (b <? 224)%N then
        match r with
        | b1 :: r1 => (N.shiftl (N.land b 31) 6 + low6 b1)%N :: decode r1
        | _ => [b]
        end
      else if (b <? 240)%N then
        match r with
        | b1 :: b2 :: r2 =>
            (N.shiftl (N.land b 15) 12 + N.shiftl (low6 b1) 6 + low6 b2)%N
            :: decode r2
        | _ => [b]
        end
      else
        match r with
        | b1 :: b2 :: b3 :: r3 =>
            (N.shiftl (N.land b 7) 18 + N.shiftl (low6 b1) 12
             + N.shiftl (low6 b2) 6 + low6 b3)%N :: decode r3
        | _ => [b]
        end
  end.

Definition encode (c : N) : list N :=
  if (c <? 128)%N then [c]
  else if (c <? 2048)%N then
    [(192 + N.shiftr c 6)%N; (128 + low6 c)%N]
  else if (c <? 65536)%N then
    [(224 + N.shiftr c 12)%N; (128 + low6 (N.shiftr c 6))%N; (128 + low6 c)%N]
  else
    [(240 + N.shiftr c 18)%N; (128 + low6 (N.shiftr c 12))%N;
     (128 + low6 (N.shiftr c 6))%N; (128 + low6 c)%N].

Fixpoint of_list (l : list N) : str :=
  match l with
  | [] => EmptyStr
  | c :: l' => Str c (of_list l')
  end.

Fixpoint to_list (s : str) : list N :=
  match s with
  | EmptyStr => []
  | Str c s' => c :: to_list s'
  end.

Definition byte_of_N (n : N) : byte :=
  match Byte.of_N n with Some b => b | None => x00 end.

Definition parse (bytes : list byte) : str :=
  of_list (decode (map Byte.to_N bytes)).

Definition print (s : str) : list byte :=
  map byte_of_N (flat_map encode (to_list s)).

Definition parse_char (bytes : list byte) : option N :=
  match decode (map Byte.to_N bytes) with
  | [c] => Some c
  | _ => None
  end.

Definition print_char (c : N) : list byte := map byte_of_N (encode c).

End Utf8.

Declare Scope str_scope.
Delimit Scope str_scope with str.
Bind Scope str_scope with str.
String Notation str Utf8.parse Utf8.print : str_scope.
Infix "++" := append (right associativity, at level 60) : str_scope.

(** A code point written as the character it is. *)
Declare Scope chr_scope.
Delimit Scope chr_scope with chr.
String Notation N Utf8.parse_char Utf8.print_char : chr_scope.
Arguments Str c%_chr s%_str.

Local Open Scope str_scope.
Local Open Scope nat_scope.

(* ===================================================================== *)
(** ** The Unicode character database

    The tables behind [str.upper], [str.lower] and [str.strip], as
    Python 3.11 ships them (Unicode 14.0): [chr(c).upper()],
    [chr(c).lower()] and [chr(c).isspace()] for every code point [c]. *)
(* ===================================================================== *)

Module Unicode.

(** A run of a simple case mapping: the code points [run_lo],
    [run_lo + run_step], ... up to [run_hi] go to [run_to],
    [run_to + run_step], ... in this order. *)
Record Run := mkRun { run_lo : N; run_hi : N; run_step : N; run_to : N }.

Local Open Scope N_scope.

(** The upper-case mappings of one code point to one code point. *)
Definition upper_runs : list Run :=
  [mkRun 97 122 1 65; mkRun 181 181 1 924; mkRun 224 246 1 192; mkRun 248 254 1 216;
   mkRun 255 255 1 376; mkRun 257 303 2 256; mkRun 305 305 1 73; mkRun 307 311 2 306;
   mkRun 314 328 2 313; mkRun 331 375 2 330; mkRun 378 382 2 377; mkRun 383 383 1 83;
   mkRun 384 384 1 579; mkRun 387 389 2 386; mkRun 392 392 1 391; mkRun 396 396 1 395;
   mkRun 402 402 1 401; mkRun 405 405 1 502; mkRun 409 409 1 408; mkRun 410 410 1 573;
   mkRun 414 414 1 544; mkRun 417 421 2 416; mkRun 424 424 1 423; mkRun 429 429 1 428;
   mkRun 432 432 1 431; mkRun 436 438 2 435; mkRun 441 441 1 440; mkRun 445 445 1 444;
   mkRun 447 447 1 503; mkRun 453 453 1 452; mkRun 454 454 1 452; mkRun 456 456 1 455;
   mkRun 457 457 1 455; mkRun 459 459 1 458; mkRun 460 460 1 458; mkRun 462 476 2 461;
   mkRun 477 477 1 398; mkRun 479 495 2 478; mkRun 498 498 1 497; mkRun 499 499 1 497;
   mkRun 501 501 1 500; mkRun 505 543 2 504; mkRun 547 563 2 546; mkRun 572 572 1 571;
   mkRun 575 576 1 11390; mkRun 578 578 1 577; mkRun 583 591 2 582; mkRun 592 592 1 11375;
   mkRun 593 593 1 11373; mkRun 594 594 1 11376; mkRun 595 595 1 385; mkRun 596 596 1 390;
   mkRun 598 599 1 393; mkRun 601 601 1 399; mkRun 603 603 1 400; mkRun 604 604 1 42923;
   mkRun 608 608 1 403; mkRun 609 609 1 42924; mkRun 611 611 1 404; mkRun 613 613 1 42893;
   mkRun 614 614 1 42922; mkRun 616 616 1 407; mkRun 617 617 1 406; mkRun 618 618 1 42926;
   mkRun 619 619 1 11362; mkRun 620 620 1 42925; mkRun 623 623 1 412; mkRun 625 625 1 11374;
   mkRun 626 626 1 413; mkRun 629 629 1 415; mkRun 637 637 1 11364; mkRun 640 640 1 422;
   mkRun 642 642 1 42949; mkRun 643 643 1 425; mkRun 647 647 1 42929; mkRun 648 648 1 430;
   mkRun 649 649 1 580; mkRun 650 651 1 433; mkRun 652 652 1 581; mkRun 658 658 1 439;
   mkRun 669 669 1 42930; mkRun 670 670 1 42928; mkRun 837 837 1 921; mkRun 881 883 2 880;
   mkRun 887 887 1 886; mkRun 891 893 1 1021; mkRun 940 940 1 902; mkRun 941 943 1 904;
   mkRun 945 961 1 913; mkRun 962 962 1 931; mkRun 963 971 1 931; mkRun 972 972 1 908;
   mkRun 973 974 1 910; mkRun 976 976 1 914; mkRun 977 977 1 920; mkRun 981 981 1 934;
   mkRun 982 982 1 928; mkRun 983 983 1 975; mkRun 985 1007 2 984; mkRun 1008 1008 1 922;
   mkRun 1009 1009 1 929; mkRun 1010 1010 1 1017; mkRun 1011 1011 1 895; mkRun 1013 1013 1 917;
   mkRun 1016 1016 1 1015; mkRun 1019 1019 1 1018; mkRun 1072 1103 1 1040; mkRun 1104 1119 1 1024;
   mkRun 1121 1153 2 1120; mkRun 1163 1215 2 1162; mkRun 1218 1230 2 1217; mkRun 1231 1231 1 1216;
   mkRun 1233 1327 2 1232; mkRun 1377 1414 1 1329; mkRun 4304 4346 1 7312; mkRun 4349 4351 1 7357;
   mkRun 5112 5117 1 5104; mkRun 7296 7296 1 1042; mkRun 7297 7297 1 1044; mkRun 7298 7298 1 1054;
   mkRun 7299 7300 1 1057; mkRun 7301 7301 1 1058; mkRun 7302 7302 1 1066; mkRun 7303 7303 1 1122;
   mkRun 7304 7304 1 42570; mkRun 7545 7545 1 42877; mkRun 7549 7549 1 11363; mkRun 7566 7566 1 42950;
   mkRun 7681 7829 2 7680; mkRun 7835 7835 1 7776; mkRun 7841 7935 2 7840; mkRun 7936 7943 1 7944;
   mkRun 7952 7957 1 7960; mkRun 7968 7975 1 7976; mkRun 7984 7991 1 7992; mkRun 8000 8005 1 8008;
   mkRun 8017 8023 2 8025; mkRun 8032 8039 1 8040; mkRun 8048 8049 1 8122; mkRun 8050 8053 1 8136;
   mkRun 8054 8055 1 8154; mkRun 8056 8057 1 8184; mkRun 8058 8059 1 8170; mkRun 8060 8061 1 8186;
   mkRun 8112 8113 1 8120; mkRun 8126 8126 1 921; mkRun 8144 8145 1 8152; mkRun 8160 8161 1 8168;
   mkRun 8165 8165 1 8172; mkRun 8526 8526 1 8498; mkRun 8560 8575 1 8544; mkRun 8580 8580 1 8579;
   mkRun 9424 9449 1 9398; mkRun 11312 11359 1 11264; mkRun 11361 11361 1 11360; mkRun 11365 11365 1 570;
   mkRun 11366 11366 1 574; mkRun 11368 11372 2 11367; mkRun 11379 11379 1 11378; mkRun 11382 11382 1 11381;
   mkRun 11393 11491 2 11392; mkRun 11500 11502 2 11499; mkRun 11507 11507 1 11506; mkRun 11520 11557 1 4256;
   mkRun 11559 11559 1 4295; mkRun 11565 11565 1 4301; mkRun 42561 42605 2 42560; mkRun 42625 42651 2 42624;
   mkRun 42787 42799 2 42786; mkRun 42803 42863 2 42802; mkRun 42874 42876 2 42873; mkRun 42879 42887 2 42878;
   mkRun 42892 42892 1 42891; mkRun 42897 42899 2 42896; mkRun 42900 42900 1 42948; mkRun 42903 42921 2 42902;
   mkRun 42933 42947 2 42932; mkRun 42952 42954 2 42951; mkRun 42961 42961 1 42960; mkRun 42967 42969 2 42966;
   mkRun 42998 42998 1 42997; mkRun 43859 43859 1 42931; mkRun 43888 43967 1 5024; mkRun 65345 65370 1 65313;
   mkRun 66600 66639 1 66560; mkRun 66776 66811 1 66736; mkRun 66967 67003 2 66928; mkRun 66968 66977 1 66929;
   mkRun 66980 66993 1 66941; mkRun 66996 67001 1 66957; mkRun 67004 67004 1 66965; mkRun 68800 68850 1 68736;
   mkRun 71872 71903 1 71840; mkRun 93792 93823 1 93760; mkRun 125218 125251 1 125184].

(** The upper-case mappings to several code points: the sharp s to [SS],
    the ligatures, the letters with marks that have no capital of their
    own. *)
Definition upper_special : list (N * list N) :=
  [(223, [83; 83]); (329, [700; 78]); (496, [74; 780]); (912, [921; 776; 769]);
   (944, [933; 776; 769]); (1415, [1333; 1362]); (7830, [72; 817]); (7831, [84; 776]);
   (7832, [87; 778]); (7833, [89; 778]); (7834, [65; 702]); (8016, [933; 787]);
   (8018, [933; 787; 768]); (8020, [933; 787; 769]); (8022, [933; 787; 834]); (8064, [7944; 921]);
   (8065, [7945; 921]); (8066, [7946; 921]); (8067, [7947; 921]); (8068, [7948; 921]);
   (8069, [7949; 921]); (8070, [7950; 921]); (8071, [7951; 921]); (8072, [7944; 921]);
   (8073, [7945; 921]); (8074, [7946; 921]); (8075, [7947; 921]); (8076, [7948; 921]);
   (8077, [7949; 921]); (8078, [7950; 921]); (8079, [7951; 921]); (8080, [7976; 921]);
   (8081, [7977; 921]); (8082, [7978; 921]); (8083, [7979; 921]); (8084, [7980; 921]);
   (8085, [7981; 921]); (8086, [7982; 921]); (8087, [7983; 921]); (8088, [7976; 921]);
   (8089, [7977; 921]); (8090, [7978; 921]); (8091, [7979; 921]); (8092, [7980; 921]);
   (8093, [7981; 921]); (8094, [7982; 921]); (8095, [7983; 921]); (8096, [8040; 921]);
   (8097, [8041; 921]); (8098, [8042; 921]); (8099, [8043; 921]); (8100, [8044; 921]);
   (8101, [8045; 921]); (8102, [8046; 921]); (8103, [8047; 921]); (8104, [8040; 921]);
   (8105, [8041; 921]); (8106, [8042; 921]); (8107, [8043; 921]); (8108, [8044; 921]);
   (8109, [8045; 921]); (8110, [8046; 921]); (8111, [8047; 921]); (8114, [8122; 921]);
   (8115, [913; 921]); (8116, [902; 921]); (8118, [913; 834]); (8119, [913; 834; 921]);
   (8124, [913; 921]); (8130, [8138; 921]); (8131, [919; 921]); (8132, [905; 921]);
   (8134, [919; 834]); (8135, [919; 834; 921]); (8140, [919; 921]); (8146, [921; 776; 768]);
   (8147, [921; 776; 769]); (8150, [921; 834]); (8151, [921; 776; 834]); (8162, [933; 776; 768]);
   (8163, [933; 776; 769]); (8164, [929; 787]); (8166, [933; 834]); (8167, [933; 776; 834]);
   (8178, [8186; 921]); (8179, [937; 921]); (8180, [911; 921]); (8182, [937; 834]);
   (8183, [937; 834; 921]); (8188, [937; 921]); (64256, [70; 70]); (64257, [70; 73]);
   (64258, [70; 76]); (64259, [70; 70; 73]); (64260, [70; 70; 76]); (64261, [83; 84]);
   (64262, [83; 84]); (64275, [1348; 1350]); (64276, [1348; 1333]); (64277, [1348; 1339]);
   (64278, [1358; 1350]); (64279, [1348; 1341])].

(** The lower-case mappings of one code point to one code point. *)
Definition lower_runs : list Run :=
  [mkRun 65 90 1 97; mkRun 192 214 1 224; mkRun 216 222 1 248; mkRun 256 302 2 257;
   mkRun 306 310 2 307; mkRun 313 327 2 314; mkRun 330 374 2 331; mkRun 376 376 1 255;
   mkRun 377 381 2 378; mkRun 385 385 1 595; mkRun 386 388 2 387; mkRun 390 390 1 596;
   mkRun 391 391 1 392; mkRun 393 394 1 598; mkRun 395 395 1 396; mkRun 398 398 1 477;
   mkRun 399 399 1 601; mkRun 400 400 1 603; mkRun 401 401 1 402; mkRun 403 403 1 608;
   mkRun 404 404 1 611; mkRun 406 406 1 617; mkRun 407 407 1 616; mkRun 408 408 1 409;
   mkRun 412 412 1 623; mkRun 413 413 1 626; mkRun 415 415 1 629; mkRun 416 420 2 417;
   mkRun 422 422 1 640; mkRun 423 423 1 424; mkRun 425 425 1 643; mkRun 428 428 1 429;
   mkRun 430 430 1 648; mkRun 431 431 1 432; mkRun 433 434 1 650; mkRun 435 437 2 436;
   mkRun 439 439 1 658; mkRun 440 440 1 441; mkRun 444 444 1 445; mkRun 452 452 1 454;
   mkRun 453 453 1 454; mkRun 455 455 1 457; mkRun 456 456 1 457; mkRun 458 458 1 460;
   mkRun 459 475 2 460; mkRun 478 494 2 479; mkRun 497 497 1 499; mkRun 498 500 2 499;
   mkRun 502 502 1 405; mkRun 503 503 1 447; mkRun 504 542 2 505; mkRun 544 544 1 414;
   mkRun 546 562 2 547; mkRun 570 570 1 11365; mkRun 571 571 1 572; mkRun 573 573 1 410;
   mkRun 574 574 1 11366; mkRun 577 577 1 578; mkRun 579 579 1 384; mkRun 580 580 1 649;
   mkRun 581 581 1 652; mkRun 582 590 2 583; mkRun 880 882 2 881; mkRun 886 886 1 887;
   mkRun 895 895 1 1011; mkRun 902 902 1 940; mkRun 904 906 1 941; mkRun 908 908 1 972;
   mkRun 910 911 1 973; mkRun 913 929 1 945; mkRun 931 939 1 963; mkRun 975 975 1 983;
   mkRun 984 1006 2 985; mkRun 1012 1012 1 952; mkRun 1015 1015 1 1016; mkRun 1017 1017 1 1010;
   mkRun 1018 1018 1 1019; mkRun 1021 1023 1 891; mkRun 1024 1039 1 1104; mkRun 1040 1071 1 1072;
   mkRun 1120 1152 2 1121; mkRun 1162 1214 2 1163; mkRun 1216 1216 1 1231; mkRun 1217 1229 2 1218;
   mkRun 1232 1326 2 1233; mkRun 1329 1366 1 1377; mkRun 4256 4293 1 11520; mkRun 4295 4295 1 11559;
   mkRun 4301 4301 1 11565; mkRun 5024 5103 1 43888; mkRun 5104 5109 1 5112; mkRun 7312 7354 1 4304;
   mkRun 7357 7359 1 4349; mkRun 7680 7828 2 7681; mkRun 7838 7838 1 223; mkRun 7840 7934 2 7841;
   mkRun 7944 7951 1 7936; mkRun 7960 7965 1 7952; mkRun 7976 7983 1 7968; mkRun 7992 7999 1 7984;
   mkRun 8008 8013 1 8000; mkRun 8025 8031 2 8017; mkRun 8040 8047 1 8032; mkRun 8072 8079 1 8064;
   mkRun 8088 8095 1 8080; mkRun 8104 8111 1 8096; mkRun 8120 8121 1 8112; mkRun 8122 8123 1 8048;
   mkRun 8124 8124 1 8115; mkRun 8136 8139 1 8050; mkRun 8140 8140 1 8131; mkRun 8152 8153 1 8144;
   mkRun 8154 8155 1 8054; mkRun 8168 8169 1 8160; mkRun 8170 8171 1 8058; mkRun 8172 8172 1 8165;
   mkRun 8184 8185 1 8056; mkRun 8186 8187 1 8060; mkRun 8188 8188 1 8179; mkRun 8486 8486 1 969;
   mkRun 8490 8490 1 107; mkRun 8491 8491 1 229; mkRun 8498 8498 1 8526; mkRun 8544 8559 1 8560;
   mkRun 8579 8579 1 8580; mkRun 9398 9423 1 9424; mkRun 11264 11311 1 11312; mkRun 11360 11360 1 11361;
   mkRun 11362 11362 1 619; mkRun 11363 11363 1 7549; mkRun 11364 11364 1 637; mkRun 11367 11371 2 11368;
   mkRun 11373 11373 1 593; mkRun 11374 11374 1 625; mkRun 11375 11375 1 592; mkRun 11376 11376 1 594;
   mkRun 11378 11378 1 11379; mkRun 11381 11381 1 11382; mkRun 11390 11391 1 575; mkRun 11392 11490 2 11393;
   mkRun 11499 11501 2 11500; mkRun 11506 11506 1 11507; mkRun 42560 42604 2 42561; mkRun 42624 42650 2 42625;
   mkRun 42786 42798 2 42787; mkRun 42802 42862 2 42803; mkRun 42873 42875 2 42874; mkRun 42877 42877 1 7545;
   mkRun 42878 42886 2 42879; mkRun 42891 42891 1 42892; mkRun 42893 42893 1 613; mkRun 42896 42898 2 42897;
   mkRun 42902 42920 2 42903; mkRun 42922 42922 1 614; mkRun 42923 42923 1 604; mkRun 42924 42924 1 609;
   mkRun 42925 42925 1 620; mkRun 42926 42926 1 618; mkRun 42928 42928 1 670; mkRun 42929 42929 1 647;
   mkRun 42930 42930 1 669; mkRun 42931 42931 1 43859; mkRun 42932 42946 2 42933; mkRun 42948 42948 1 42900;
   mkRun 42949 42949 1 642; mkRun 42950 42950 1 7566; mkRun 42951 42953 2 42952; mkRun 42960 42960 1 42961;
   mkRun 42966 42968 2 42967; mkRun 42997 42997 1 42998; mkRun 65313 65338 1 65345; mkRun 66560 66599 1 66600;
   mkRun 66736 66771 1 66776; mkRun 66928 66964 2 66967; mkRun 66929 66938 1 66968; mkRun 66941 66954 1 66980;
   mkRun 66957 66962 1 66996; mkRun 66965 66965 1 67004; mkRun 68736 68786 1 68800; mkRun 71840 71871 1 71872;
   mkRun 93760 93791 1 93792; mkRun 125184 125217 1 125218].

(** The one lower-case mapping to several code points: the capital I with
    dot above, to [i] and a combining dot. *)
Definition lower_special : list (N * list N) :=
  [(304, [105; 775])].

(** The case-ignorable code points, as ranges: what the final-sigma rule
    of [str.lower] skips. *)
Definition case_ignorable : list (N * N) :=
  [(39, 39); (46, 46); (58, 58); (94, 94); (96, 96); (168, 168);
   (173, 173); (175, 175); (180, 180); (183, 184); (688, 879); (884, 885);
   (890, 890); (900, 901); (903, 903); (1155, 1161); (1369, 1369); (1375, 1375);
   (1425, 1469); (1471, 1471); (1473, 1474); (1476, 1477); (1479, 1479); (1524, 1524);
   (1536, 1541); (1552, 1562); (1564, 1564); (1600, 1600); (1611, 1631); (1648, 1648);
   (1750, 1757); (1759, 1768); (1770, 1773); (1807, 1807); (1809, 1809); (1840, 1866);
   (1958, 1968); (2027, 2037); (2042, 2042); (2045, 2045); (2070, 2093); (2137, 2139);
   (2184, 2184); (2192, 2193); (2200, 2207); (2249, 2306); (2362, 2362); (2364, 2364);
   (2369, 2376); (2381, 2381); (2385, 2391); (2402, 2403); (2417, 2417); (2433, 2433);
   (2492, 2492); (2497, 2500); (2509, 2509); (2530, 2531); (2558, 2558); (2561, 2562);
   (2620, 2620); (2625, 2626); (2631, 2632); (2635, 2637); (2641, 2641); (2672, 2673);
   (2677, 2677); (2689, 2690); (2748, 2748); (2753, 2757); (2759, 2760); (2765, 2765);
   (2786, 2787); (2810, 2815); (2817, 2817); (2876, 2876); (2879, 2879); (2881, 2884);
   (2893, 2893); (2901, 2902); (2914, 2915); (2946, 2946); (3008, 3008); (3021, 3021);
   (3072, 3072); (3076, 3076); (3132, 3132); (3134, 3136); (3142, 3144); (3146, 3149);
   (3157, 3158); (3170, 3171); (3201, 3201); (3260, 3260); (3263, 3263); (3270, 3270);
   (3276, 3277); (3298, 3299); (3328, 3329); (3387, 3388); (3393, 3396); (3405, 3405);
   (3426, 3427); (3457, 3457); (3530, 3530); (3538, 3540); (3542, 3542); (3633, 3633);
   (3636, 3642); (3654, 3662); (3761, 3761); (3764, 3772); (3782, 3782); (3784, 3789);
   (3864, 3865); (3893, 3893); (3895, 3895); (3897, 3897); (3953, 3966); (3968, 3972);
   (3974, 3975); (3981, 3991); (3993, 4028); (4038, 4038); (4141, 4144); (4146, 4151);
   (4153, 4154); (4157, 4158); (4184, 4185); (4190, 4192); (4209, 4212); (4226, 4226);
   (4229, 4230); (4237, 4237); (4253, 4253); (4348, 4348); (4957, 4959); (5906, 5908);
   (5938, 5939); (5970, 5971); (6002, 6003); (6068, 6069); (6071, 6077); (6086, 6086);
   (6089, 6099); (6103, 6103); (6109, 6109); (6155, 6159); (6211, 6211); (6277, 6278);
   (6313, 6313); (6432, 6434); (6439, 6440); (6450, 6450); (6457, 6459); (6679, 6680);
   (6683, 6683); (6742, 6742); (6744, 6750); (6752, 6752); (6754, 6754); (6757, 6764);
   (6771, 6780); (6783, 6783); (6823, 6823); (6832, 6862); (6912, 6915); (6964, 6964);
   (6966, 6970); (6972, 6972); (6978, 6978); (7019, 7027); (7040, 7041); (7074, 7077);
   (7080, 7081); (7083, 7085); (7142, 7142); (7144, 7145); (7149, 7149); (7151, 7153);
   (7212, 7219); (7222, 7223); (7288, 7293); (7376, 7378); (7380, 7392); (7394, 7400);
   (7405, 7405); (7412, 7412); (7416, 7417); (7468, 7530); (7544, 7544); (7579, 7679);
   (8125, 8125); (8127, 8129); (8141, 8143); (8157, 8159); (8173, 8175); (8189, 8190);
   (8203, 8207); (8216, 8217); (8228, 8228); (8231, 8231); (8234, 8238); (8288, 8292);
   (8294, 8303); (8305, 8305); (8319, 8319); (8336, 8348); (8400, 8432); (11388, 11389);
   (11503, 11505); (11631, 11631); (11647, 11647); (11744, 11775); (11823, 11823); (12293, 12293);
   (12330, 12333); (12337, 12341); (12347, 12347); (12441, 12446); (12540, 12542); (40981, 40981);
   (42232, 42237); (42508, 42508); (42607, 42610); (42612, 42621); (42623, 42623); (42652, 42655);
   (42736, 42737); (42752, 42785); (42864, 42864); (42888, 42890); (42994, 42996); (43000, 43001);
   (43010, 43010); (43014, 43014); (43019, 43019); (43045, 43046); (43052, 43052); (43204, 43205);
   (43232, 43249); (43263, 43263); (43302, 43309); (43335, 43345); (43392, 43394); (43443, 43443);
   (43446, 43449); (43452, 43453); (43471, 43471); (43493, 43494); (43561, 43566); (43569, 43570);
   (43573, 43574); (43587, 43587); (43596, 43596); (43632, 43632); (43644, 43644); (43696, 43696);
   (43698, 43700); (43703, 43704); (43710, 43711); (43713, 43713); (43741, 43741); (43756, 43757);
   (43763, 43764); (43766, 43766); (43867, 43871); (43881, 43883); (44005, 44005); (44008, 44008);
   (44013, 44013); (64286, 64286); (64434, 64450); (65024, 65039); (65043, 65043); (65056, 65071);
   (65106, 65106); (65109, 65109); (65279, 65279); (65287, 65287); (65294, 65294); (65306, 65306);
   (65342, 65342); (65344, 65344); (65392, 65392); (65438, 65439); (65507, 65507); (65529, 65531);
   (66045, 66045); (66272, 66272); (66422, 66426); (67456, 67461); (67463, 67504); (67506, 67514);
   (68097, 68099); (68101, 68102); (68108, 68111); (68152, 68154); (68159, 68159); (68325, 68326);
   (68900, 68903); (69291, 69292); (69446, 69456); (69506, 69509); (69633, 69633); (69688, 69702);
   (69744, 69744); (69747, 69748); (69759, 69761); (69811, 69814); (69817, 69818); (69821, 69821);
   (69826, 69826); (69837, 69837); (69888, 69890); (69927, 69931); (69933, 69940); (70003, 70003);
   (70016, 70017); (70070, 70078); (70089, 70092); (70095, 70095); (70191, 70193); (70196, 70196);
   (70198, 70199); (70206, 70206); (70367, 70367); (70371, 70378); (70400, 70401); (70459, 70460);
   (70464, 70464); (70502, 70508); (70512, 70516); (70712, 70719); (70722, 70724); (70726, 70726);
   (70750, 70750); (70835, 70840); (70842, 70842); (70847, 70848); (70850, 70851); (71090, 71093);
   (71100, 71101); (71103, 71104); (71132, 71133); (71219, 71226); (71229, 71229); (71231, 71232);
   (71339, 71339); (71341, 71341); (71344, 71349); (71351, 71351); (71453, 71455); (71458, 71461);
   (71463, 71467); (71727, 71735); (71737, 71738); (71995, 71996); (71998, 71998); (72003, 72003);
   (72148, 72151); (72154, 72155); (72160, 72160); (72193, 72202); (72243, 72248); (72251, 72254);
   (72263, 72263); (72273, 72278); (72281, 72283); (72330, 72342); (72344, 72345); (72752, 72758);
   (72760, 72765); (72767, 72767); (72850, 72871); (72874, 72880); (72882, 72883); (72885, 72886);
   (73009, 73014); (73018, 73018); (73020, 73021); (73023, 73029); (73031, 73031); (73104, 73105);
   (73109, 73109); (73111, 73111); (73459, 73460); (78896, 78904); (92912, 92916); (92976, 92982);
   (92992, 92995); (94031, 94031); (94095, 94111); (94176, 94177); (94179, 94180); (110576, 110579);
   (110581, 110587); (110589, 110590); (113821, 113822); (113824, 113827); (118528, 118573); (118576, 118598);
   (119143, 119145); (119155, 119170); (119173, 119179); (119210, 119213); (119362, 119364); (121344, 121398);
   (121403, 121452); (121461, 121461); (121476, 121476); (121499, 121503); (121505, 121519); (122880, 122886);
   (122888, 122904); (122907, 122913); (122915, 122916); (122918, 122922); (123184, 123197); (123566, 123566);
   (123628, 123631); (125136, 125142); (125252, 125259); (127995, 127999); (917505, 917505); (917536, 917631);
   (917760, 917999)].

(** The cased code points, as ranges: lower-case, upper-case and
    title-case letters. *)
Definition cased : list (N * N) :=
  [(65, 90); (97, 122); (170, 170); (181, 181); (186, 186); (192, 214);
   (216, 246); (248, 442); (444, 447); (452, 659); (661, 696); (704, 705);
   (736, 740); (837, 837); (880, 883); (886, 887); (890, 893); (895, 895);
   (902, 902); (904, 906); (908, 908); (910, 929); (931, 1013); (1015, 1153);
   (1162, 1327); (1329, 1366); (1376, 1416); (4256, 4293); (4295, 4295); (4301, 4301);
   (4304, 4346); (4349, 4351); (5024, 5109); (5112, 5117); (7296, 7304); (7312, 7354);
   (7357, 7359); (7424, 7615); (7680, 7957); (7960, 7965); (7968, 8005); (8008, 8013);
   (8016, 8023); (8025, 8025); (8027, 8027); (8029, 8029); (8031, 8061); (8064, 8116);
   (8118, 8124); (8126, 8126); (8130, 8132); (8134, 8140); (8144, 8147); (8150, 8155);
   (8160, 8172); (8178, 8180); (8182, 8188); (8305, 8305); (8319, 8319); (8336, 8348);
   (8450, 8450); (8455, 8455); (8458, 8467); (8469, 8469); (8473, 8477); (8484, 8484);
   (8486, 8486); (8488, 8488); (8490, 8493); (8495, 8500); (8505, 8505); (8508, 8511);
   (8517, 8521); (8526, 8526); (8544, 8575); (8579, 8580); (9398, 9449); (11264, 11492);
   (11499, 11502); (11506, 11507); (11520, 11557); (11559, 11559); (11565, 11565); (42560, 42605);
   (42624, 42653); (42786, 42887); (42891, 42894); (42896, 42954); (42960, 42961); (42963, 42963);
   (42965, 42969); (42997, 42998); (43000, 43002); (43824, 43866); (43868, 43880); (43888, 43967);
   (64256, 64262); (64275, 64279); (65313, 65338); (65345, 65370); (66560, 66639); (66736, 66771);
   (66776, 66811); (66928, 66938); (66940, 66954); (66956, 66962); (66964, 66965); (66967, 66977);
   (66979, 66993); (66995, 67001); (67003, 67004); (67456, 67456); (67459, 67461); (67463, 67504);
   (67506, 67514); (68736, 68786); (68800, 68850); (71840, 71903); (93760, 93823); (119808, 119892);
   (119894, 119964); (119966, 119967); (119970, 119970); (119973, 119974); (119977, 119980); (119982, 119993);
   (119995, 119995); (119997, 120003); (120005, 120069); (120071, 120074); (120077, 120084); (120086, 120092);
   (120094, 120121); (120123, 120126); (120128, 120132); (120134, 120134); (120138, 120144); (120146, 120485);
   (120488, 120512); (120514, 120538); (120540, 120570); (120572, 120596); (120598, 120628); (120630, 120654);
   (120656, 120686); (120688, 120712); (120714, 120744); (120746, 120770); (120772, 120779); (122624, 122633);
   (122635, 122654); (125184, 125251); (127280, 127305); (127312, 127337); (127344, 127369)].

(** The code points [str.isspace] accepts, as ranges. *)
Definition white_space : list (N * N) :=
  [(9, 13); (28, 32); (133, 133); (160, 160); (5760, 5760); (8192, 8202);
   (8232, 8233); (8239, 8239); (8287, 8287); (12288, 12288)].

End Unicode.

(* ===================================================================== *)
(** ** Python string built-ins *)
(* ===================================================================== *)

Module PyStr.
Import Unicode.

(** [len(s)]. *)
Fixpoint len (s : str) : nat :=
  match s with
  | EmptyStr => 0
  | Str _ s' => S (len s')
  end.

(** [s == t]. *)
Fixpoint eqb (s t : str) : bool :=
  match s, t with
  | EmptyStr, EmptyStr => true
  | Str a s', Str b t' => N.eqb a b && eqb s' t'
  | _, _ => false
  end.

Definition str_dec (s t : str) : {s = t} + {s <> t}.
Proof. decide equality. apply N.eq_dec. Defined.

(** [s[n : n + m]]. *)
Fixpoint substring (n m : nat) (s : str) : str :=
  match n, m, s with
  | O, O, _ => EmptyStr
  | O, S m', EmptyStr => s
  | O, S m', Str c s' => Str c (substring 0 m' s')
  | S n', _, EmptyStr => s
  | S n', _, Str c s' => substring n' m s'
  end.

(** The code points [l] in front of [s]. *)
Fixpoint prepend (l : list N) (s : str) : str :=
  match l with
  | [] => s
  | c :: l' => Str c (prepend l' s)
  end.

(** *** Case mappings *)

Definition in_run (c : N) (r : Run) : bool :=
  ((run_lo r <=? c) && (c <=? run_hi r)
   && ((c - run_lo r) mod run_step r =? 0))%N.

Fixpoint apply_runs (runs : list Run) (c : N) : option N :=
  match runs with
  | [] => None
  | r :: runs' =>
      if in_run c r then Some (run_to r + (c - run_lo r))%N
      else apply_runs runs' c
  end.

Fixpoint assoc (c : N) (table : list (N * list N)) : option (list N) :=
  match table with
  | [] => None
  | (k, l) :: table' => if N.eqb k c then Some l else assoc c table'
  end.

(** A full case mapping: the special table first, then the runs; a code
    point in neither is left alone. *)
Definition map_char (runs : list Run) (special : list (N * list N)) (c : N)
  : list N :=
  match assoc c special with
  | Some l => l
  | None =>
      match apply_runs runs c with
      | Some d => [d]
      | None => [c]
      end
  end.

(** [c.upper()] and [c.lower()] for one character on its own. *)
Definition upper_char (c : N) : list N := map_char upper_runs upper_special c.
Definition lower_char (c : N) : list N := map_char lower_runs lower_special c.

(** [s.upper()]: every character by the full upper-case mapping. *)
Fixpoint upper (s : str) : str :=
  match s with
  | EmptyStr => EmptyStr
  | Str c s' => prepend (upper_char c) (upper s')
  end.

Definition in_ranges (c : N) (ranges : list (N * N)) : bool :=
  existsb (fun r => (fst r <=? c) && (c <=? snd r))%N ranges.

Definition is_case_ignorable (c : N) : bool := in_ranges c case_ignorable.
Definition is_cased (c : N) : bool := in_ranges c cased.

(** The first character that is not case-ignorable, if any: backwards in
    the text before a position ([before] has the nearest character
    first), and forwards in the text after it. *)
Fixpoint nearest_before (before : list N) : option N :=
  match before with
  | [] => None
  | c :: before' =>
      if is_case_ignorable c then nearest_before before' else Some c
  end.

Fixpoint nearest_after (after : str) : option N :=
  match after with
  | EmptyStr => None
  | Str c after' =>
      if is_case_ignorable c then nearest_after after' else Some c
  end.

(** The capital sigma is final when a cased letter comes before it and no
    cased letter comes after it, case-ignorable characters aside. *)
Definition final_sigma (before : list N) (after : str) : bool :=
  match nearest_before before with
  | Some c => is_cased c
  | None => false
  end
  && match nearest_after after with
     | Some c => negb (is_cased c)
     | None => true
     end.

(** The lower case of the character [c] between [before] and [after]:
    the full lower-case mapping, but for the capital sigma, which becomes
    the final or the medial small sigma. *)
Definition lower_at (before : list N) (c : N) (after : str) : list N :=
  if N.eqb c "Σ"%chr then [if final_sigma before after then "ς"%chr else "σ"%chr]
  else lower_char c.

Fixpoint lower_from (before : list N) (s : str) : str :=
  match s with
  | EmptyStr => EmptyStr
  | Str c s' => prepend (lower_at before c s') (lower_from (c :: before) s')
  end.

(** [s.lower()]. *)
Definition lower (s : str) : str := lower_from [] s.

(** *** Searching and splitting *)

(** [s.startswith(p)]. *)
Fixpoint startswith (s p : str) {struct p} : bool :=
  match p with
  | EmptyStr => true
  | Str a p' =>
      match s with
      | EmptyStr => false
      | Str b s' => N.eqb a b && startswith s' p'
      end
  end.

(** [needle in s]: [needle] starts at some offset of [s]. *)
Fixpoint contains (needle s : str) : bool :=
  if startswith s needle then true
  else match s with
       | EmptyStr => false
       | Str _ s' => contains needle s'
       end.

(** [c in s] for a character. *)
Fixpoint occurs (c : N) (s : str) : bool :=
  match s with
  | EmptyStr => false
  | Str a s' => N.eqb a c || occurs c s'
  end.

(** [s.split(sep)] for a one-character separator: the pieces between the
    separators, never an empty list. *)
Fixpoint split (sep : N) (s : str) : list str :=
  match s with
  | EmptyStr => [EmptyStr]
  | Str c s' =>
      if N.eqb c sep then EmptyStr :: split sep s'
      else match split sep s' with
           | piece :: pieces => Str c piece :: pieces
           | [] => [Str c EmptyStr]
           end
  end.

(** [l[-1]] on a list of strings; [split] never returns the empty list,
    on which Python raises [IndexError]. *)
Definition last_piece (l : list str) : str := List.last l EmptyStr.

(** [s.endswith(suffix)]. *)
Definition endswith (s suffix : str) : bool :=
  (len suffix <=? len s) &&
  eqb (substring (len s - len suffix) (len suffix) s) suffix.

(** [s.endswith((suf1, suf2, ...))]. *)
Definition endswith_any (s : str) (suffixes : list str) : bool :=
  existsb (endswith s) suffixes.

(** *** White space *)

(** [c.isspace()], the characters [str.strip] removes: tab to carriage
    return, the separators 28..31, the space, and the Unicode white space
    U+0085, U+00A0, U+1680, U+2000..U+200A, U+2028, U+2029, U+202F,
    U+205F and U+3000. *)
Definition isspace (c : N) : bool := in_ranges c white_space.

Fixpoint lstrip (s : str) : str :=
  match s with
  | EmptyStr => EmptyStr
  | Str c s' => if isspace c then lstrip s' else s
  end.

Fixpoint rstrip (s : str) : str :=
  match s with
  | EmptyStr => EmptyStr
  | Str c s' =>
      match rstrip s' with
      | EmptyStr => if isspace c then EmptyStr else Str c EmptyStr
      | r => Str c r
      end
  end.

(** [s.strip()]. *)
Definition strip (s : str) : str := rstrip (lstrip s).

(** Truthiness of a string: [bool(s)]. *)
Definition truthy (s : str) : bool :=
  match s with EmptyStr => false | _ => true end.

Fixpoint all_chars (p : N -> bool) (s : str) : bool :=
  match s with
  | EmptyStr => true
  | Str c s' => p c && all_chars p s'
  end.

(** [sep.join(l)]. *)
Fixpoint join (sep : str) (l : list str) : str :=
  match l with
  | [] => EmptyStr
  | [x] => x
  | x :: rest => x ++ sep ++ join sep rest
  end.

(** Concatenation of a list of fragments, [''.join(l)]. *)
Definition concat_all (l : list str) : str :=
  fold_right append EmptyStr l.

(** *** Reading the case tables *)

Definition mem (c : N) (l : list N) : bool := existsb (N.eqb c) l.

(** The test that every character whose mapping by [runs] and [special]
    contains the code point [x] is one of [sources]. *)
Definition sources_checked (runs : list Run) (special : list (N * list N))
    (x : N) (sources : list N) : bool :=
  mem x sources
  && forallb (fun e => implb (mem x (snd e)) (mem (fst e) sources)) special
  && forallb (fun r =>
                implb ((run_to r <=? x) && (x <=? run_to r + (run_hi r - run_lo r)))%N
                      (mem (run_lo r + (x - run_to r))%N sources)) runs.

Arguments occurs c%_chr s%_str.
Arguments split sep%_chr s%_str.

End PyStr.

(* ===================================================================== *)
(** ** Insertion-ordered dictionaries and [sorted] *)
(* ===================================================================== *)

Module PyDict.

Section Dict.
Context {K V : Type} (key_eqb : K -> K -> bool).

(** A [dict] keeps its keys in the order of their first insertion. *)
Definition dict := list (K * V).

(** [d[k] = v]: an existing key keeps its place and takes the new value, a
    new key goes to the end. *)
Fixpoint set (d : dict) (k : K) (v : V) : dict :=
  match d with
  | [] => [(k, v)]
  | (k', v') :: d' =>
      if key_eqb k' k then (k', v) :: d' else (k', v') :: set d' k v
  end.

(** [{key(x): val(x) for x in l}]: the items are inserted from left to
    right. *)
Definition comprehension {A : Type} (key : A -> K) (val : A -> V)
    (l : list A) : dict :=
  fold_left (fun d x => set d (key x) (val x)) l [].

(** [d.get(k)]. *)
Fixpoint get (d : dict) (k : K) : option V :=
  match d with
  | [] => None
  | (k', v') :: d' => if key_eqb k' k then Some v' else get d' k
  end.

(** The last item of [l] whose key is [k], if any. *)
Fixpoint last_with {A : Type} (key : A -> K) (k : K) (l : list A)
  : option A :=
  match l with
  | [] => None
  | x :: l' =>
      match last_with key k l' with
      | Some y => Some y
      | None => if key_eqb (key x) k then Some x else None
      end
  end.


(** [d.values()], in the order of the dictionary. *)
Definition values (d : dict) : list V := map snd d.

Definition keys (d : dict) : list K := map fst d.

End Dict.

Section Sorted.
Context {A : Type} (key : A -> Q).

(** Where [x], which came before every element of the sorted [l] in the
    input, goes: in front of the first element whose key is not greater,
    hence in front of the elements with an equal key. *)
Fixpoint insert_desc (x : A) (l : list A) : list A :=
  match l with
  | [] => [x]
  | y :: l' =>
      if Qle_bool (key y) (key x) then x :: y :: l'
      else y :: insert_desc x l'
  end.

(** [sorted(l, key=key, reverse=True)]: greatest key first, elements with
    equal keys in their input order (Python's sort is stable, also with
    [reverse=True]). *)
Definition sorted_reverse (l : list A) : list A :=
  fold_right insert_desc [] l.



End Sorted.

End PyDict.

(* ===================================================================== *)
(** ** Exceptions and logged computations *)
(* ===================================================================== *)

Module Eff.

(** The exceptions the code raises itself, and those of its collaborators
    (model client, indexes, reranker, readers), which carry a message. *)
Inductive exn :=
| KeyError (key : str)
| IndexError
| ValueError (msg : str)
| ExternalError (msg : str).

(** A computation returns or raises, and leaves the events it caused, in
    order. *)
Definition M (Ev A : Type) : Type := (exn + A) * list Ev.

Definition ret {Ev A} (a : A) : M Ev A := (inr a, []).
Definition raise {Ev A} (e : exn) : M Ev A := (inl e, []).
Definition tell {Ev} (ev : Ev) : M Ev unit := (inr tt, [ev]).
Definition lift {Ev A} (r : exn + A) : M Ev A := (r, []).

Definition bind {Ev A B} (m : M Ev A) (f : A -> M Ev B) : M Ev B :=
  match m with
  | (inl e, t) => (inl e, t)
  | (inr a, t) => let '(r, t') := f a in (r, (t ++ t')%list)
  end.

(** [try: m except Exception as e: handler(e)]. *)
Definition catch {Ev A} (m : M Ev A) (handler : exn -> M Ev A) : M Ev A :=
  match m with
  | (inl e, t) => let '(r, t') := handler e in (r, (t ++ t')%list)
  | (inr a, t) => (inr a, t)
  end.

Declare Scope eff_scope.
Delimit Scope eff_scope with eff.
Notation "x <- m ;; k" := (bind m (fun x => k))
  (at level 61, m at next level, right associativity) : eff_scope.
Notation "m ;;; k" := (bind m (fun _ => k))
  (at level 61, right associativity) : eff_scope.

End Eff.

(* ===================================================================== *)
(** ** The workflow: [src/workflows/agent_workflow.py] *)
(* ===================================================================== *)

Module Workflow.
Import PyStr PyDict Eff.
Local Open Scope eff_scope.

(** *** Data *)

(** A hit of an index search: [{"_id", "_score", "fields": {"chunk_text"}}].
    Scores are floating-point numbers in the source; they are only compared,
    and are modelled by rationals. *)
Record Hit := mkHit {
  hit_id : str;
  hit_score : Q;
  hit_chunk_text : str
}.

(** What the merge hands to the reranker: [{"_id", "chunk_text"}]. *)
Record Candidate := mkCandidate {
  _id : str;
  chunk_text : str
}.

(** An item of the reranker's [result.data]. *)
Record RankedDoc := mkRankedDoc {
  document : Candidate;
  score : Q
}.

(** [GraphState].  The run starts from [{"prompt": prompt}]: every other
    key is absent until a node writes it. *)
Record GraphState := mkState {
  prompt : str;
  answer : option str;
  has_context : option bool;
  has_documents : option bool;
  documents : option (list RankedDoc)
}.

(** The dictionary a node returns: the keys it writes. *)
Record Update := mkUpdate {
  upd_answer : option str;
  upd_has_context : option bool;
  upd_has_documents : option bool;
  upd_documents : option (list RankedDoc)
}.

Definition overwrite {A : Type} (old new : option A) : option A :=
  match new with Some _ => new | None => old end.

(** How the graph folds a node's result into the state. *)
Definition apply_update (s : GraphState) (u : Update) : GraphState :=
  mkState (prompt s)
          (overwrite (answer s) (upd_answer u))
          (overwrite (has_context s) (upd_has_context u))
          (overwrite (has_documents s) (upd_has_documents u))
          (overwrite (documents s) (upd_documents u)).

Definition initial_state (p : str) : GraphState :=
  mkState p None None None None.

Record Message := mkMessage { role : str; msg_content : str }.

Record Usage := mkUsage { input_tokens : nat; output_tokens : nat }.

(** The reply of [client.invoke]: content blocks, of which the code reads
    the text of the first, and the token counts. *)
Record AIMessage := mkAIMessage {
  response_content : list str;
  response_usage_metadata : Usage
}.

(** A chunk of [client.astream]: content blocks (possibly none) and token
    counts (possibly none). *)
Record AIMessageChunk := mkChunk {
  chunk_content : list str;
  chunk_usage_metadata : option Usage
}.

Record UsageMetadata := mkUsageMetadata {
  um_input_tokens : nat;
  um_output_tokens : nat;
  um_total_tokens : nat
}.

(** The metadata [__usage_metadata] attaches to the current run (the
    constant invocation parameters other than the model are left out). *)
Record Metadata := mkMetadata {
  ls_model_name : str;
  ls_model_type : str;
  ls_provider : str;
  ls_run_depth : nat;
  ls_temperature : Q;
  md_usage_metadata : UsageMetadata;
  invocation_model : str;
  options_streaming : bool
}.

(** *** The collaborators

    [self.__client], [self.__model_id], [self.__pinecone] and the tracing
    context, as functions that answer or raise. *)
Record Env := mkEnv {
  model_id : str;
  client_invoke : list Message -> exn + AIMessage;
  (** a finite stream of chunks, which may break off with an exception *)
  client_astream : list Message -> list AIMessageChunk * option exn;
  (** [pinecone.Index(name).search(namespace, query={top_k, inputs})] *)
  index_search : str -> str -> nat -> str -> exn + list Hit;
  (** [pinecone.inference.rerank(query, documents, top_n, ...)] *)
  inference_rerank : str -> list Candidate -> nat -> exn + list RankedDoc;
  (** whether [get_current_run_tree()] gives a run *)
  get_current_run_tree : bool;
  run_add_metadata : Metadata -> exn + unit
}.

(** *** Effects *)

Inductive ExternalCall :=
| CallInvoke (messages : list Message)
| CallAStream (messages : list Message)
| CallSearch (index namespace : str) (top_k : nat) (query : str)
| CallRerank (query : str) (docs : list Candidate) (top_n : nat)
| CallAddMetadata (md : Metadata).

Inductive StreamMode :=
| values | updates | custom | messages | checkpoints | tasks.

Inductive Node := check_context | retrieve_rag | generate_answer | cannot_answer.

(** The payload of a stream event. *)
Inductive StreamChunk :=
| ChunkState (s : GraphState)            (* "values": the whole state *)
| ChunkUpdate (n : Node) (u : Update)    (* "updates": {node: result} *)
| ChunkCustom (answer_text : str).    (* "custom": {"answer": text} *)

Inductive Event :=
| Call (c : ExternalCall)
| Emit (mode : StreamMode) (chunk : StreamChunk).

(** Computations of the workflow leave events of type [Event]. *)
Definition M (A : Type) : Type := Eff.M Event A.

(** An external call: logged, then answered by the collaborator. *)
Definition call {A} (c : ExternalCall) (r : exn + A) : M A :=
  (r, [Call c]).

(** *** Telemetry *)

(** [__usage_metadata]: attach the token counts to the current run, when
    there is one.  The call is not guarded by any handler. *)
Definition usage_metadata (env : Env) (input_tokens output_tokens : nat)
  : M unit :=
  if get_current_run_tree env then
    let md :=
      mkMetadata (model_id env) "llm" "google_genai" 0 (7 # 10)
                 (mkUsageMetadata input_tokens output_tokens
                                  (input_tokens + output_tokens))
                 (model_id env) true in
    call (CallAddMetadata md) (run_add_metadata env md)
  else ret tt.

(** *** Context check *)

Definition check_context_system : str :=
  "Does the following input contain a clear question or topic with enough context to answer? Answer ONLY with exactly one token:YES or NO.No punctuation, no explanation, no extra text.If unsure, answer NO.".

Definition check_context_messages (p : str) : list Message :=
  [mkMessage "system" check_context_system; mkMessage "user" p].

(** [content[0]["text"]]. *)
Definition first_text (blocks : list str) : M str :=
  match blocks with
  | [] => raise IndexError
  | t :: _ => ret t
  end.

(** ["YES" in text.upper()]. *)
Definition verdict (text : str) : bool := contains "YES" (upper text).

Definition check_context_node (env : Env) (state : GraphState) : M Update :=
  let msgs := check_context_messages (prompt state) in
  response <- call (CallInvoke msgs) (client_invoke env msgs) ;;
  let input_tokens := input_tokens (response_usage_metadata response) in
  let output_tokens := output_tokens (response_usage_metadata response) in
  usage_metadata env input_tokens output_tokens ;;;
  text <- first_text (response_content response) ;;
  ret (mkUpdate None (Some (verdict text)) None None).

(** *** Retrieval *)

(** The dictionary [{hit["_id"]: hit for hit in h1 + h2}], as its values. *)
Definition deduped_hits (h1 h2 : list Hit) : list Hit :=
  PyDict.values
    (comprehension PyStr.eqb hit_id (fun hit => hit) (h1 ++ h2)%list).

Definition sorted_hits (h1 h2 : list Hit) : list Hit :=
  sorted_reverse hit_score (deduped_hits h1 h2).

Definition to_candidate (hit : Hit) : Candidate :=
  mkCandidate (hit_id hit) (hit_chunk_text hit).

(** [__merge_chunks]. *)
Definition merge_chunks (h1 h2 : list Hit) : list Candidate :=
  map to_candidate (sorted_hits h1 h2).

Definition dense_index_name : str := "dense-for-hybrid-knowledge-base-index".
Definition sparse_index_name : str := "sparse-for-hybrid-knowledge-base-index".
Definition namespace : str := "rag-namespace".

(** [bool(l)] for a list. *)
Definition nonempty {A} (l : list A) : bool :=
  match l with [] => false | _ => true end.

Definition retrieve_rag_node (env : Env) (state : GraphState) : M Update :=
  let query := lower (prompt state) in
  dense_results <-
    call (CallSearch dense_index_name namespace 40 query)
         (index_search env dense_index_name namespace 40 query) ;;
  sparse_results <-
    call (CallSearch sparse_index_name namespace 40 query)
         (index_search env sparse_index_name namespace 40 query) ;;
  if (length dense_results =? 0) && (length sparse_results =? 0) then
    ret (mkUpdate None None (Some false) None)
  else
    let merged_results := merge_chunks sparse_results dense_results in
    docs <-
      call (CallRerank query merged_results 10)
           (inference_rerank env query merged_results 10) ;;
    ret (mkUpdate None None (Some (nonempty docs)) (Some docs)).

(** *** Generation *)

Definition nl : str := Str 10%N EmptyStr.

Definition rag_system : str :=
  "You are a strict virtual assistant. Use ONLY the content contained within the <context> tags to answer." ++ nl ++
  "If the answer cannot be found in the context, respond exactly: 'I’m sorry, but I don’t have enough information in the documents to answer that.'" ++ nl ++
  "Do not use any knowledge beyond what has been provided.".

(** The human turn of [rag_prompt], with [{context}] and [{question}]
    filled in. *)
Definition rag_human (context question : str) : str :=
  "Here is the context for reference:" ++ nl ++
  "<context>" ++ nl ++ context ++ nl ++ "</context>" ++ nl ++ nl ++
  "Based on the context above, answer: " ++ question.

Definition rag_messages (context question : str) : list Message :=
  [mkMessage "system" rag_system; mkMessage "human" (rag_human context question)].

(** The loop variables of [generate_answer_node]. *)
Record Acc := mkAcc {
  response_text : str;
  acc_input_tokens : nat;
  acc_output_tokens : nat
}.

(** One turn of the [async for] loop: a chunk with content appends the
    text of its first block and hands it to the stream writer; a chunk
    with token counts adds them. *)
Definition consume_chunk (acc : Acc) (chunk : AIMessageChunk) : M Acc :=
  acc1 <-
    (match chunk_content chunk with
     | [] => ret acc
     | text :: _ =>
         tell (Emit custom (ChunkCustom text)) ;;;
         ret (mkAcc (response_text acc ++ text)
                    (acc_input_tokens acc) (acc_output_tokens acc))
     end) ;;
  match chunk_usage_metadata chunk with
  | None => ret acc1
  | Some u =>
      ret (mkAcc (response_text acc1)
                 (acc_input_tokens acc1 + input_tokens u)
                 (acc_output_tokens acc1 + output_tokens u))
  end.

Fixpoint consume (acc : Acc) (chunks : list AIMessageChunk) : M Acc :=
  match chunks with
  | [] => ret acc
  | chunk :: rest => acc' <- consume_chunk acc chunk ;; consume acc' rest
  end.

(** [state["documents"]]. *)
Definition state_documents (state : GraphState) : M (list RankedDoc) :=
  match documents state with
  | None => raise (KeyError "documents")
  | Some docs => ret docs
  end.

Definition generate_answer_node (env : Env) (state : GraphState) : M Update :=
  docs <- state_documents state ;;
  let context_text :=
    join nl (map (fun doc => chunk_text (document doc)) docs) in
  let msgs := rag_messages context_text (prompt state) in
  let '(chunks, failure) := client_astream env msgs in
  tell (Call (CallAStream msgs)) ;;;
  acc <- consume (mkAcc "" 0 0) chunks ;;
  match failure with Some e => raise e | None => ret tt end ;;;
  usage_metadata env (acc_input_tokens acc) (acc_output_tokens acc) ;;;
  ret (mkUpdate (Some (response_text acc)) None None None).

(** *** Refusal *)

Definition refusal : str :=
  "I'm sorry, but I cannot provide an answer based on the given input.".

Definition cannot_answer_node (_ : GraphState) : M Update :=
  ret (mkUpdate (Some refusal) None None None).

(** *** Conditions *)

Definition check_context_condition (state : GraphState) : exn + str :=
  match has_context state with
  | None => inl (KeyError "has_context")
  | Some b => inr (if b then "has_context" else "no_context")
  end.

Definition retrieve_rag_condition (state : GraphState) : exn + str :=
  match has_documents state with
  | None => inl (KeyError "has_documents")
  | Some b => inr (if b then "has_documents" else "no_documents")
  end.

(** *** The graph *)

Definition node_fn (env : Env) (n : Node) (state : GraphState) : M Update :=
  match n with
  | check_context => check_context_node env state
  | retrieve_rag => retrieve_rag_node env state
  | generate_answer => generate_answer_node env state
  | cannot_answer => cannot_answer_node state
  end.

Fixpoint path_map (table : list (str * Node)) (label : str)
  : exn + option Node :=
  match table with
  | [] => inl (KeyError label)
  | (l, n) :: rest =>
      if PyStr.eqb l label then inr (Some n) else path_map rest label
  end.

(** The edges of [__build_graph]: two conditional edges, the edge from
    [generate_answer] to [END], and no edge out of [cannot_answer], after
    which nothing is left to run.  [None] is the end of the run. *)
Definition build_graph (n : Node) (state : GraphState) : exn + option Node :=
  match n with
  | check_context =>
      match check_context_condition state with
      | inl e => inl e
      | inr label =>
          path_map [("has_context", retrieve_rag);
                    ("no_context", cannot_answer)] label
      end
  | retrieve_rag =>
      match retrieve_rag_condition state with
      | inl e => inl e
      | inr label =>
          path_map [("has_documents", generate_answer);
                    ("no_documents", cannot_answer)] label
      end
  | generate_answer => inr None
  | cannot_answer => inr None
  end.

(** The graph library's bound on the number of steps of a run. *)
Definition recursion_limit : nat := 25.

(** A run from node [n]: the node's result is folded into the state, the
    step is reported in the "updates" and then the "values" mode, and the
    edges choose the next node.  A run that uses up its steps raises. *)
Fixpoint run_from (steps : nat) (env : Env) (n : Node) (state : GraphState)
  : M GraphState :=
  match steps with
  | 0 => raise (ExternalError "GraphRecursionError")
  | S steps' =>
      u <- node_fn env n state ;;
      let state' := apply_update state u in
      tell (Emit updates (ChunkUpdate n u)) ;;;
      tell (Emit values (ChunkState state')) ;;;
      next <- lift (build_graph n state') ;;
      match next with
      | None => ret state'
      | Some n' => run_from steps' env n' state'
      end
  end.

(** [self.__app.astream(input={"prompt": prompt}, stream_mode=[...])]: the
    input state is reported first, then the run from the entry point.
    Events of the modes "messages", "checkpoints" and "tasks" carry no
    state and are dropped by [stream] on their mode alone; they are not
    generated here. *)
Definition app_astream (env : Env) (p : str) : M GraphState :=
  let s0 := initial_state p in
  tell (Emit values (ChunkState s0)) ;;;
  run_from recursion_limit env check_context s0.

(** *** [AgentWorkFlow.stream] *)

Definition mode_eqb (a b : StreamMode) : bool :=
  match a, b with
  | values, values | updates, updates | custom, custom
  | messages, messages | checkpoints, checkpoints | tasks, tasks => true
  | _, _ => false
  end.

(** [chunk.get("answer")]. *)
Definition chunk_get_answer (chunk : StreamChunk) : option str :=
  match chunk with
  | ChunkState s => answer s
  | ChunkCustom text => Some text
  | ChunkUpdate _ _ => None
  end.

(** What one event of the run makes [stream] yield. *)
Definition yielded (ev : Event) : list str :=
  match ev with
  | Call _ => []
  | Emit mode chunk =>
      if existsb (mode_eqb mode) [custom; values] then
        match chunk_get_answer chunk with
        | Some a => if truthy a then [a] else []
        | None => []
        end
      else []
  end.

(** The fragments [stream] yields, and the exception that ends it if the
    run raises. *)
Definition stream (env : Env) (p : str) : list str * option exn :=
  let '(r, evs) := app_astream env p in
  (flat_map yielded evs,
   match r with inl e => Some e | inr _ => None end).

(** The external calls of a run, in order. *)
Definition calls_of (evs : list Event) : list ExternalCall :=
  flat_map (fun ev => match ev with Call c => [c] | Emit _ _ => [] end) evs.

Definition is_retrieval (c : ExternalCall) : bool :=
  match c with CallSearch _ _ _ _ => true | CallRerank _ _ _ => true | _ => false end.

Definition is_rerank (c : ExternalCall) : bool :=
  match c with CallRerank _ _ _ => true | _ => false end.

Definition is_generation (c : ExternalCall) : bool :=
  match c with CallAStream _ => true | _ => false end.

End Workflow.

(* ===================================================================== *)
(** ** Ingestion: [src/services/knowledge_base_service.py] and the route *)
(* ===================================================================== *)

Module KnowledgeBase.
Import PyStr Eff.
Local Open Scope eff_scope.

(** A record of the indexes: [{"_id", "chunk_text", "filename"}]. *)
Record IndexRecord := mkRecord {
  rec_id : str;
  rec_chunk_text : str;
  rec_filename : str
}.

(** [JSONResponse(content, status_code)]: the body is [{}] or
    [{"detail": text}]. *)
Record JSONResponse := mkResponse {
  status_code : nat;
  detail : option str
}.

(** The collaborators of the service: the readers of the file formats, the
    text splitter, the identifier source and the indexes.  File content is
    a byte string, written as the text whose code points are its bytes. *)
Record Env := mkEnv {
  (** [_read_pdf] and [_read_docx]: the libraries' readers *)
  read_pdf : str -> exn + str;
  read_docx : str -> exn + str;
  (** [content.decode("utf-8", errors="ignore")], which never raises *)
  decode_utf8_ignore : str -> str;
  (** [RecursiveCharacterTextSplitter(chunk_size, chunk_overlap).split_text] *)
  split_text : nat -> nat -> str -> exn + list str;
  (** [str(uuid.uuid4())], by the number of the draw *)
  uuid4 : nat -> str;
  (** [pinecone.Index(name).upsert_records(namespace, records)] *)
  upsert_records : str -> str -> list IndexRecord -> exn + unit
}.

Inductive Event :=
| CallReadPdf (content : str)
| CallReadDocx (content : str)
| CallReadTxt (content : str)
| CallSplitText (text : str)
| CallUpsert (index namespace : str) (records : list IndexRecord)
| Printed (e : exn).

Definition M (A : Type) : Type := Eff.M Event A.

Definition call {A} (c : Event) (r : exn + A) : M A := (r, [c]).

Definition _read_pdf (env : Env) (content : str) : M str :=
  call (CallReadPdf content) (read_pdf env content).

Definition _read_docx (env : Env) (content : str) : M str :=
  call (CallReadDocx content) (read_docx env content).

Definition _read_txt (env : Env) (content : str) : M str :=
  call (CallReadTxt content) (inr (decode_utf8_ignore env content)).

(** [filename.lower().split(".")[-1]]. *)
Definition ext_of (filename : str) : str :=
  last_piece (split "." (lower filename)).

Definition _extract_text (env : Env) (filename content : str) : M str :=
  let ext := ext_of filename in
  if PyStr.eqb ext "pdf" then _read_pdf env content
  else if PyStr.eqb ext "docx" then _read_docx env content
  else if PyStr.eqb ext "txt" then _read_txt env content
  else raise (ValueError "Unsupported file type").

(** The records of the chunks, each with the next fresh identifier. *)
Fixpoint make_records (env : Env) (filename : str) (draw : nat)
    (texts : list str) : list IndexRecord :=
  match texts with
  | [] => []
  | chunk :: rest =>
      mkRecord (uuid4 env draw) chunk filename
      :: make_records env filename (S draw) rest
  end.

Definition dense_index_name : str := "dense-for-hybrid-knowledge-base-index".
Definition sparse_index_name : str := "sparse-for-hybrid-knowledge-base-index".
Definition namespace : str := "rag-namespace".

Definition success_response : JSONResponse := mkResponse 200 None.

Definition failure_response : JSONResponse :=
  mkResponse 500 (Some "Internal Server Error").

(** The body of the [try] block of [upload_document]. *)
Definition upload_body (env : Env) (filename content : str)
  : M JSONResponse :=
  text <- _extract_text env filename content ;;
  (if negb (truthy (strip text))
   then raise (ValueError "No readable text found in document")
   else ret tt) ;;;
  texts <- call (CallSplitText text) (split_text env 500 50 text) ;;
  let records := make_records env filename 0 texts in
  call (CallUpsert dense_index_name namespace records)
       (upsert_records env dense_index_name namespace records) ;;;
  call (CallUpsert sparse_index_name namespace records)
       (upsert_records env sparse_index_name namespace records) ;;;
  ret success_response.

(** [KnowledgeBaseService.upload_document]: the body, and the handler that
    prints the exception and answers with the fixed failure response. *)
Definition upload_document (env : Env) (filename content : str)
  : M JSONResponse :=
  catch (upload_body env filename content)
        (fun e => tell (Printed e) ;;; ret failure_response).

(** What the upload route answers: an [HTTPException] or the service's
    response. *)
Inductive RouteResult :=
| HTTPException (status : nat) (detail_text : str)
| Responded (r : JSONResponse).

Definition HTTP_400_BAD_REQUEST : nat := 400.

Definition accepted_suffixes : list str := [".pdf"; ".docx"; ".txt"].

Definition unsupported_detail : str :=
  "Unsupported file type. Please upload a PDF, DOCX, or TXT file.".

(** The route [POST /knowledgebase/upload]: the check of the file name,
    then the service. *)
Definition route_upload_document (env : Env) (filename content : str)
  : M RouteResult :=
  if negb (endswith_any filename accepted_suffixes) then
    ret (HTTPException HTTP_400_BAD_REQUEST unsupported_detail)
  else
    r <- upload_document env filename content ;;
    ret (Responded r).

End KnowledgeBase.

(* ===================================================================== *)
(** ** Vocabulary of the properties *)
(* ===================================================================== *)

Module WorkflowSpec.
Import PyStr PyDict Eff Workflow.

(** The nodes a run went through, read off its "updates" events. *)
Definition nodes_of (evs : list Event) : list Node :=
  flat_map (fun ev => match ev with
                      | Emit updates (ChunkUpdate n _) => [n]
                      | _ => []
                      end) evs.

(** No call to an index or to the reranker, and no model stream. *)
Definition no_retrieval_no_generation (evs : list Event) : bool :=
  forallb (fun c => negb (is_retrieval c || is_generation c)) (calls_of evs).

(** No call to the reranker and no model stream. *)
Definition no_rerank_no_generation (evs : list Event) : bool :=
  forallb (fun c => negb (is_rerank c || is_generation c)) (calls_of evs).

(** The telemetry step went through for these counts. *)
Definition telemetry_ok (env : Env) (i o : nat) : Prop :=
  fst (usage_metadata env i o) = inr tt.

(** The context check got a reply whose first block is [text], and its
    telemetry went through. *)
Definition context_reply (env : Env) (p text : str) : Prop :=
  exists resp rest,
    client_invoke env (check_context_messages p) = inr resp /\
    response_content resp = text :: rest /\
    telemetry_ok env (input_tokens (response_usage_metadata resp))
                     (output_tokens (response_usage_metadata resp)).

(** [text] contains "YES" up to letter case: three consecutive characters
    read Y, E, S, each in either case. *)
Definition contains_yes_ci (text : str) : Prop :=
  exists pre a b c post,
    text = pre ++ Str a (Str b (Str c post)) /\
    (a = "Y"%chr \/ a = "y"%chr) /\
    (b = "E"%chr \/ b = "e"%chr) /\
    (c = "S"%chr \/ c = "s"%chr).

(** The same with the widest reading of "up to letter case": some part of
    [text] has "YES" as its upper case (as "yeſ" has, with a long s). *)
Definition contains_yes_up_to_case (text : str) : Prop :=
  exists pre mid post, text = pre ++ mid ++ post /\ upper mid = "YES".

(** The characters whose upper case starts with [S]: the two letters, the
    sharp s (to [SS]), the long s (to [S]) and the two ligatures of s and t
    (to [ST]). *)
Definition upper_starts_with_S (c : N) : Prop :=
  In c ["S"; "s"; "ß"; "ſ"; "ﬅ"; "ﬆ"]%chr.

(** What [text.upper()] needs to contain "YES": three consecutive
    characters, a [Y] and an [E] in either case and a character whose upper
    case starts with [S]. *)
Definition upper_contains_yes (text : str) : Prop :=
  exists pre a b c post,
    text = pre ++ Str a (Str b (Str c post)) /\
    (a = "Y"%chr \/ a = "y"%chr) /\
    (b = "E"%chr \/ b = "e"%chr) /\
    upper_starts_with_S c.

(** Text of ASCII characters. *)
Definition is_ascii (text : str) : bool :=
  all_chars (fun c => (c <? 128)%N) text.

(** The last hit of [l] with identifier [i]. *)
Definition last_hit (i : str) (l : list Hit) : option Hit :=
  last_with PyStr.eqb hit_id i l.

(** What the two searches of [retrieve_rag_node] answer for a prompt. *)
Definition search_dense (env : Env) (p : str) : exn + list Hit :=
  index_search env dense_index_name namespace 40 (lower p).

Definition search_sparse (env : Env) (p : str) : exn + list Hit :=
  index_search env sparse_index_name namespace 40 (lower p).

Definition search_events (p : str) : list Event :=
  [Call (CallSearch dense_index_name namespace 40 (lower p));
   Call (CallSearch sparse_index_name namespace 40 (lower p))].

(** The text fragments of a model stream: the first block of every chunk
    that has content. *)
Definition fragments (chunks : list AIMessageChunk) : list str :=
  flat_map (fun c => match chunk_content c with [] => [] | t :: _ => [t] end)
           chunks.

Definition total_input (chunks : list AIMessageChunk) : nat :=
  fold_right (fun c n => match chunk_usage_metadata c with
                         | Some u => input_tokens u + n
                         | None => n
                         end) 0 chunks.

Definition total_output (chunks : list AIMessageChunk) : nat :=
  fold_right (fun c n => match chunk_usage_metadata c with
                         | Some u => output_tokens u + n
                         | None => n
                         end) 0 chunks.

Definition emit_fragment (t : str) : Event := Emit custom (ChunkCustom t).

(** The context handed to the model. *)
Definition context_of (docs : list RankedDoc) : str :=
  join nl (map (fun doc => chunk_text (document doc)) docs).

End WorkflowSpec.

Module KnowledgeBaseSpec.
Import PyStr Eff KnowledgeBase.

(** The whole ingestion went through: text was extracted, it is not
    blank, it was split, and both indexes took the records. *)
Definition ingestion_ok (env : Env) (filename content : str) : Prop :=
  exists text t0 texts,
    _extract_text env filename content = (inr text, t0) /\
    all_chars isspace text = false /\
    split_text env 500 50 text = inr texts /\
    upsert_records env dense_index_name namespace
                   (make_records env filename 0 texts) = inr tt /\
    upsert_records env sparse_index_name namespace
                   (make_records env filename 0 texts) = inr tt.

(** White space beyond ASCII: a no-break space (U+00A0), an em space
    (U+2003), an ideographic space (U+3000) and a space. *)
Definition unicode_blank : str :=
  Str 160%N (Str 8195%N (Str 12288%N " ")).

End KnowledgeBaseSpec.

(* ===================================================================== *)
(** ** Scenarios *)
(* ===================================================================== *)

Module Scenarios.
Import PyStr Eff.

(** A reranker that keeps the order and scores every candidate 1. *)
Definition rerank_all (query : str) (cands : list Workflow.Candidate)
    (top_n : nat) : exn + list Workflow.RankedDoc :=
  inr (firstn top_n (map (fun c => Workflow.mkRankedDoc c 1%Q) cands)).

Definition sink_error : exn := ExternalError "tracing backend unavailable".

(** Collaborators fixed by the verdict's text, the hits of the two
    indexes, the model's stream, whether a run is being traced, and whether
    the tracing sink accepts metadata. *)
Definition scenario (reply : str) (dense sparse : list Workflow.Hit)
    (chunks : list Workflow.AIMessageChunk) (traced sink_up : bool)
  : Workflow.Env :=
  Workflow.mkEnv
    "us.amazon.nova-2-lite-v1:0"
    (fun _ => inr (Workflow.mkAIMessage [reply] (Workflow.mkUsage 120 1)))
    (fun _ => (chunks, None))
    (fun index _ _ _ =>
       inr (if PyStr.eqb index Workflow.dense_index_name then dense
            else sparse))
    rerank_all
    traced
    (fun _ => if sink_up then inr tt else inl sink_error).

Definition question : str := "What is the capital of France?".

Definition paris_hit : Workflow.Hit :=
  Workflow.mkHit "a" (9 # 10) "Paris is the capital of France.".

(** The model answers "Paris" in two fragments, with token counts in
    chunks of their own. *)
Definition paris_chunks : list Workflow.AIMessageChunk :=
  [Workflow.mkChunk ["Par"] None;
   Workflow.mkChunk [] (Some (Workflow.mkUsage 200 0));
   Workflow.mkChunk ["is"] None;
   Workflow.mkChunk [] (Some (Workflow.mkUsage 0 2))].

(** Scenario B of the specification: a positive verdict, one dense hit. *)
Definition env_paris : Workflow.Env :=
  scenario "YES" [paris_hit] [] paris_chunks true true.

(** The same, with a tracing sink that raises. *)
Definition env_sink_down : Workflow.Env :=
  scenario "YES" [paris_hit] [] paris_chunks true false.

(** The same, with a tracing sink that takes the report of the context
    check (121 tokens) and raises on the larger report of the generation. *)
Definition env_sink_late : Workflow.Env :=
  Workflow.mkEnv
    (Workflow.model_id env_paris)
    (Workflow.client_invoke env_paris)
    (Workflow.client_astream env_paris)
    (Workflow.index_search env_paris)
    (Workflow.inference_rerank env_paris)
    true
    (fun md =>
       if Workflow.um_total_tokens (Workflow.md_usage_metadata md) <=? 121
       then inr tt else inl sink_error).

(** A negative verdict. *)
Definition env_no : Workflow.Env :=
  scenario "NO" [paris_hit] [] paris_chunks true true.

(** A reply that ends in a sharp s. *)
Definition env_sharp_s : Workflow.Env :=
  scenario "YEß" [paris_hit] [] paris_chunks true true.

(** Scenario A: a positive verdict and two empty indexes. *)
Definition env_empty : Workflow.Env :=
  scenario "Yes." [] [] paris_chunks true true.

(** Both indexes know the identifier "a", with different scores. *)
Definition sparse_hits : list Workflow.Hit :=
  [Workflow.mkHit "a" (3 # 10) "Paris (sparse copy)";
   Workflow.mkHit "b" (5 # 10) "Lyon is a city in France."].

Definition dense_hits : list Workflow.Hit :=
  [paris_hit; Workflow.mkHit "c" (5 # 10) "France is in Europe."].

Definition env_hybrid : Workflow.Env :=
  scenario "YES" dense_hits sparse_hits paris_chunks false true.

(** An ingestion whose readers and indexes all work: the PDF reader
    returns the bytes as text, one chunk per document. *)
Definition kb_env : KnowledgeBase.Env :=
  KnowledgeBase.mkEnv
    (fun content => inr content)
    (fun _ => inl (ExternalError "not a zip file"))
    (fun content => content)
    (fun _ _ text => inr [text])
    (fun n => "00000000-0000-4000-8000-000000000000")
    (fun _ _ _ => inr tt).

End Scenarios.

(* ===================================================================== *)
(** ** The readers of the file formats *)
(* ===================================================================== *)

Module Readers.
Import PyStr.

Definition nl : str := Str 10%N EmptyStr.

(** [page.extract_text() or ""]: a page without text, or with the empty
    text, counts as the empty string. *)
Definition or_empty (t : option str) : str :=
  match t with
  | Some s => if truthy s then s else EmptyStr
  | None => EmptyStr
  end.

(** [_read_pdf] on the pages the reader found:
    ["\n".join(page.extract_text() or "" for page in reader.pages)]. *)
Definition pdf_text (pages : list (option str)) : str :=
  join nl (map or_empty pages).

(** [_read_docx] on the paragraphs of the document:
    ["\n".join(para.text for para in doc.paragraphs if para.text.strip())]. *)
Definition docx_text (paragraphs : list str) : str :=
  join nl (filter (fun t => truthy (strip t)) paragraphs).

End Readers.

(* ===================================================================== *)
(** ** Start-up: [src/dependencies/app.py] *)
(* ===================================================================== *)

Module App.
Import Eff.
Local Open Scope eff_scope.

(** The vector database, by the answers of the two calls the start-up
    makes.  Both go over the network: [has_index] tells whether an index of
    that name exists, or raises; [create_index_for_model] returns, or
    raises. *)
Record Env := mkEnv {
  pinecone_has_index : str -> exn + bool;
  (** name, cloud, region and embedding model (the field map is constant) *)
  pinecone_create_index_for_model : str -> str -> str -> str -> exn + unit
}.

Inductive Event :=
| CallHasIndex (name : str)
| CallCreateIndex (name cloud region model : str).

Definition M (A : Type) : Type := Eff.M Event A.

Definition has_index (env : Env) (name : str) : M bool :=
  (pinecone_has_index env name, [CallHasIndex name]).

Definition create_index_for_model (env : Env)
    (name cloud region model : str) : M unit :=
  (pinecone_create_index_for_model env name cloud region model,
   [CallCreateIndex name cloud region model]).

Definition dense_index_name : str := "dense-for-hybrid-knowledge-base-index".
Definition sparse_index_name : str := "sparse-for-hybrid-knowledge-base-index".

(** [if not pinecone.has_index(name): pinecone.create_index_for_model(...)]. *)
Definition ensure_index (env : Env) (name model : str) : M unit :=
  present <- has_index env name ;;
  if negb present then create_index_for_model env name "aws" "us-east-1" model
  else ret tt.

(** The part of [lifespan] that prepares the two indexes, dense first. *)
Definition lifespan (env : Env) : M unit :=
  ensure_index env dense_index_name "llama-text-embed-v2" ;;;
  ensure_index env sparse_index_name "pinecone-sparse-english-v0".

End App.

Module AppSpec.
Import Eff App.

(** The index is there after its step: it existed, or it was missing and
    its creation went through. *)
Definition index_ready (env : Env) (name model : str) : Prop :=
  pinecone_has_index env name = inr true \/
  (pinecone_has_index env name = inr false /\
   pinecone_create_index_for_model env name "aws" "us-east-1" model = inr tt).

(** An exception of one of the calls of the step for the index. *)
Definition index_raises (env : Env) (name model : str) (e : exn) : Prop :=
  pinecone_has_index env name = inl e \/
  (pinecone_has_index env name = inr false /\
   pinecone_create_index_for_model env name "aws" "us-east-1" model = inl e).

Definition unreachable : exn := ExternalError "vector database unreachable".

(** A first start-up: no index exists, every creation goes through. *)
Definition fresh : Env :=
  mkEnv (fun _ => inr false) (fun _ _ _ _ => inr tt).

(** The dense index exists; the vector database stops answering when asked
    about the sparse one. *)
Definition goes_down : Env :=
  mkEnv (fun name => if PyStr.eqb name dense_index_name then inr true
                     else inl unreachable)
        (fun _ _ _ _ => inr tt).

End AppSpec.

(* ===================================================================== *)
(** ** Further vocabulary and scenarios *)
(* ===================================================================== *)

Module ExtraSpec.
Import PyStr Eff Workflow.

(** The stage an external call belongs to. *)
Inductive CallKind := KInvoke | KSearchDense | KSearchSparse | KRerank | KAStream | KMetadata | KOtherSearch.

Definition kind_of (c : ExternalCall) : CallKind :=
  match c with
  | CallInvoke _ => KInvoke
  | CallAStream _ => KAStream
  | CallSearch index _ _ _ =>
      if PyStr.eqb index dense_index_name then KSearchDense
      else if PyStr.eqb index sparse_index_name then KSearchSparse
      else KOtherSearch
  | CallRerank _ _ _ => KRerank
  | CallAddMetadata _ => KMetadata
  end.

Definition is_metadata (k : CallKind) : bool :=
  match k with KMetadata => true | _ => false end.

(** The stages of a run, in order, telemetry calls left out. *)
Definition stages (evs : list Event) : list CallKind :=
  filter (fun k => negb (is_metadata k)) (map kind_of (calls_of evs)).

(** The metadata calls of a run, in order. *)
Definition metadata_of (evs : list Event) : list Metadata :=
  flat_map (fun c => match c with CallAddMetadata md => [md] | _ => [] end)
           (calls_of evs).

(** Collaborators changed in one place. *)
Definition with_invoke (env : Env) (f : list Message -> exn + AIMessage) : Env :=
  mkEnv (model_id env) f (client_astream env) (index_search env)
        (inference_rerank env) (get_current_run_tree env) (run_add_metadata env).

Definition with_astream (env : Env)
    (f : list Message -> list AIMessageChunk * option exn) : Env :=
  mkEnv (model_id env) (client_invoke env) f (index_search env)
        (inference_rerank env) (get_current_run_tree env) (run_add_metadata env).

Definition with_search (env : Env)
    (f : str -> str -> nat -> str -> exn + list Hit) : Env :=
  mkEnv (model_id env) (client_invoke env) (client_astream env) f
        (inference_rerank env) (get_current_run_tree env) (run_add_metadata env).

Definition with_rerank (env : Env)
    (f : str -> list Candidate -> nat -> exn + list RankedDoc) : Env :=
  mkEnv (model_id env) (client_invoke env) (client_astream env)
        (index_search env) f (get_current_run_tree env) (run_add_metadata env).

Definition outage : exn := ExternalError "service unavailable".

(** Events that neither reach the stream nor report a node. *)
Definition quiet (t : list Event) : Prop :=
  flat_map yielded t = [] /\ WorkflowSpec.nodes_of t = [].

(** The stages of a run that goes all the way. *)
Definition all_stages : list CallKind :=
  [KInvoke; KSearchDense; KSearchSparse; KRerank; KAStream].

(** The chunks the model streams when asked about the documents [docs]. *)
Definition streamed (env : Env) (p : str) (docs : list RankedDoc)
  : list AIMessageChunk :=
  fst (client_astream env (rag_messages (WorkflowSpec.context_of docs) p)).

(** [docs] is what the reranker answered for the merged hits of the two
    searches, of which one at least found something. *)
Definition reranked (env : Env) (p : str) (docs : list RankedDoc) : Prop :=
  exists dense sparse,
    WorkflowSpec.search_dense env p = inr dense /\
    WorkflowSpec.search_sparse env p = inr sparse /\
    (dense <> [] \/ sparse <> []) /\
    inference_rerank env (lower p) (merge_chunks sparse dense) 10 = inr docs.

(** The shapes a run can have: its outcome, the nodes that reported, the
    stages of its external calls and what [stream] yields. *)
Inductive RunShape (env : Env) (p : str)
  : (exn + GraphState) -> list Node -> list CallKind -> list str -> Prop :=
| ShapeCheckRaises e :
    RunShape env p (inl e) [] [KInvoke] []
| ShapeNoContext :
    RunShape env p (inr (mkState p (Some refusal) (Some false) None None))
             [check_context; cannot_answer] [KInvoke] [refusal]
| ShapeRetrieveRaises e st :
    In st [[KSearchDense]; [KSearchDense; KSearchSparse];
           [KSearchDense; KSearchSparse; KRerank]] ->
    RunShape env p (inl e) [check_context] (KInvoke :: st) []
| ShapeNoHits :
    RunShape env p (inr (mkState p (Some refusal) (Some true) (Some false) None))
             [check_context; retrieve_rag; cannot_answer]
             [KInvoke; KSearchDense; KSearchSparse] [refusal]
| ShapeNoDocuments :
    RunShape env p (inr (mkState p (Some refusal) (Some true) (Some false) (Some [])))
             [check_context; retrieve_rag; cannot_answer]
             [KInvoke; KSearchDense; KSearchSparse; KRerank] [refusal]
| ShapeGenerateRaises e docs :
    docs <> [] ->
    reranked env p docs ->
    RunShape env p (inl e) [check_context; retrieve_rag] all_stages
             (filter truthy (WorkflowSpec.fragments (streamed env p docs)))
| ShapeAnswered docs :
    docs <> [] ->
    reranked env p docs ->
    snd (client_astream env (rag_messages (WorkflowSpec.context_of docs) p)) = None ->
    let final := concat_all (WorkflowSpec.fragments (streamed env p docs)) in
    RunShape env p
      (inr (mkState p (Some final) (Some true) (Some true) (Some docs)))
      [check_context; retrieve_rag; generate_answer] all_stages
      (filter truthy (WorkflowSpec.fragments (streamed env p docs)) ++
       (if truthy final then [final] else []))%list.

Definition shape_of (env : Env) (p : str) (run : M GraphState) : Prop :=
  RunShape env p (fst run) (WorkflowSpec.nodes_of (snd run)) (stages (snd run))
           (flat_map yielded (snd run)).

(** Scenario B with one collaborator out of order. *)
Definition env_invoke_down : Env :=
  with_invoke Scenarios.env_paris (fun _ => inl outage).

Definition env_empty_reply : Env :=
  with_invoke Scenarios.env_paris
    (fun _ => inr (mkAIMessage [] (mkUsage 120 0))).

Definition env_dense_down : Env :=
  with_search Scenarios.env_paris
    (fun index _ _ _ =>
       if PyStr.eqb index dense_index_name then inl outage else inr []).

Definition env_sparse_down : Env :=
  with_search Scenarios.env_paris
    (fun index _ _ _ =>
       if PyStr.eqb index dense_index_name then inr [Scenarios.paris_hit]
       else inl outage).

Definition env_rerank_down : Env :=
  with_rerank Scenarios.env_paris (fun _ _ _ => inl outage).

(** The model's stream breaks off after its first fragment. *)
Definition env_stream_breaks : Env :=
  with_astream Scenarios.env_paris
    (fun _ => ([mkChunk ["Par"] None], Some outage)).

End ExtraSpec.

Module IngestionSpec.
Import PyStr Eff KnowledgeBase.

(** The records of an upload: the chunks numbered from the first draw. *)
Definition records_of (env : Env) (filename : str) (texts : list str)
  : list IndexRecord := make_records env filename 0 texts.

(** White space only (the empty text included). *)
Definition blank (t : str) : bool := all_chars isspace t.

Definition with_upsert (env : Env)
    (f : str -> str -> list IndexRecord -> exn + unit) : Env :=
  mkEnv (read_pdf env) (read_docx env) (decode_utf8_ignore env)
        (split_text env) (uuid4 env) f.

Definition with_readers (env : Env) (pdf docx : str -> exn + str) : Env :=
  mkEnv pdf docx (decode_utf8_ignore env) (split_text env) (uuid4 env)
        (upsert_records env).

Definition outage : exn := ExternalError "index unavailable".

(** The dense index refuses the records. *)
Definition kb_dense_down : Env :=
  with_upsert Scenarios.kb_env (fun _ _ _ => inl outage).

(** The dense index takes the records, the sparse index refuses them. *)
Definition kb_sparse_down : Env :=
  with_upsert Scenarios.kb_env
    (fun index _ _ =>
       if PyStr.eqb index dense_index_name then inr tt else inl outage).

(** A scanned PDF of three pages and a document of blank paragraphs. *)
Definition scanned_pages : list (option str) :=
  [None; Some ""; Some "  "; Some KnowledgeBaseSpec.unicode_blank].

Definition blank_paragraphs : list str :=
  [""; "   "; KnowledgeBaseSpec.unicode_blank; " "].

Definition kb_unreadable : Env :=
  with_readers Scenarios.kb_env
    (fun _ => inr (Readers.pdf_text scanned_pages))
    (fun _ => inr (Readers.docx_text blank_paragraphs)).

End IngestionSpec.

(* ===================================================================== *)
(** * Properties *)
(* ===================================================================== *)

(* --------------------------------------------------------------------- *)
(** *** Facts about the string built-ins *)

Module PyStrFacts.
Import Unicode PyStr.

Example upper_mixed : upper "yEs, 42" = "YES, 42".
Proof. reflexivity. Qed.

Example upper_long_s : upper "yeſ" = "YES".
Proof. reflexivity. Qed.

Example upper_sharp_s : upper "YEß" = "YESS".
Proof. reflexivity. Qed.

Example lower_mixed : lower "Report.PDF" = "report.pdf".
Proof. reflexivity. Qed.

Example lower_accent : lower "ÉCOLE?" = "école?".
Proof. reflexivity. Qed.

Example lower_sigma : lower "ΌΣΟΣ" = "όσος".
Proof. reflexivity. Qed.

Example split_two_dots : split "." "a.b.txt" = ["a"; "b"; "txt"].
Proof. reflexivity. Qed.

Example split_no_dot : split "." "README" = ["README"].
Proof. reflexivity. Qed.

Example split_trailing_dot : split "." "a." = ["a"; ""].
Proof. reflexivity. Qed.

Example strip_both_sides : strip "  a b " = "a b".
Proof. reflexivity. Qed.

Example lower_dotted_capital_i : lower "İ" = Str 105%N (Str 775%N "").
Proof. reflexivity. Qed.

Example upper_ligature : upper "ﬁn" = "FIN".
Proof. reflexivity. Qed.

(** U+00A0, U+2003 and U+3000 are white space. *)
Example strip_unicode_space : strip (Str 160%N (Str 8195%N (Str 12288%N ""))) = "".
Proof. reflexivity. Qed.

(** **** Equality and append *)

Lemma eqb_eq s t : eqb s t = true <-> s = t.
Proof.
  revert t; induction s as [|a s IH]; intros [|b t]; simpl;
    try (split; [discriminate | discriminate]); [tauto|].
  rewrite andb_true_iff, N.eqb_eq, IH. split.
  - intros [-> ->]. reflexivity.
  - intros H. injection H as -> ->. tauto.
Qed.

Lemma eqb_refl s : eqb s s = true.
Proof. now apply eqb_eq. Qed.

Lemma eqb_spec s t : reflect (s = t) (eqb s t).
Proof. apply iff_reflect. symmetry. apply eqb_eq. Qed.

Lemma append_nil_r s : s ++ "" = s.
Proof. induction s as [|c s IH]; simpl; [reflexivity | now rewrite IH]. Qed.

Lemma append_assoc s t u : (s ++ t) ++ u = s ++ t ++ u.
Proof. induction s as [|c s IH]; simpl; [reflexivity | now rewrite IH]. Qed.

Lemma prepend_append l s t : prepend l s ++ t = prepend l (s ++ t).
Proof. induction l as [|c l IH]; simpl; [reflexivity | now rewrite IH]. Qed.

Lemma prepend_app l m s : prepend (l ++ m) s = prepend l (prepend m s).
Proof. induction l as [|c l IH]; simpl; [reflexivity | now rewrite IH]. Qed.

Lemma append_length a b : len (a ++ b) = len a + len b.
Proof. induction a as [|c a IH]; simpl; [reflexivity | now rewrite IH]. Qed.

(** **** Searching *)

Lemma startswith_iff p s : startswith s p = true <-> exists t, s = p ++ t.
Proof.
  revert s; induction p as [|c p IH]; intros s; simpl.
  - split; [intros _; now exists s | reflexivity].
  - destruct s as [|d s].
    + split; [discriminate | intros [t H]; discriminate].
    + rewrite andb_true_iff, N.eqb_eq, IH.
      split.
      * intros [-> [t ->]]. now exists t.
      * intros [t H]. injection H as -> ->. eauto.
Qed.

(** [needle in s] holds exactly when [s] is [pre ++ needle ++ post]. *)
Lemma contains_iff needle s :
  contains needle s = true <-> exists pre post, s = pre ++ needle ++ post.
Proof.
  induction s as [|c s IH]; simpl.
  - destruct (startswith "" needle) eqn:Hp.
    + apply startswith_iff in Hp as [t Ht].
      split; [intros _; now exists EmptyStr, t | reflexivity].
    + split; [discriminate|].
      intros (pre & post & H).
      destruct pre; simpl in H; [|discriminate].
      assert (startswith "" needle = true) by (apply startswith_iff; eauto).
      congruence.
  - destruct (startswith (Str c s) needle) eqn:Hp.
    + apply startswith_iff in Hp as [t Ht].
      split; [intros _; now exists EmptyStr, t | reflexivity].
    + rewrite IH. split.
      * intros (pre & post & ->). now exists (Str c pre), post.
      * intros (pre & post & H).
        destruct pre as [|d pre]; simpl in H.
        -- assert (startswith (Str c s) needle = true)
             by (apply startswith_iff; eauto).
           congruence.
        -- injection H as _ ->. eauto.
Qed.

Lemma contains_cons y needle x s :
  contains (Str y needle) (Str x s) =
  (N.eqb y x && startswith s needle) || contains (Str y needle) s.
Proof.
  cbn [contains startswith].
  now destruct (N.eqb y x && startswith s needle).
Qed.

(** An occurrence of [needle] does not start at a character that is not
    its first. *)
Lemma contains_prepend_skip y needle l s :
  ~ In y l ->
  contains (Str y needle) (prepend l s) = contains (Str y needle) s.
Proof.
  induction l as [|x l IH]; intros Hy; [reflexivity|].
  cbn [prepend]. cbn [contains startswith].
  destruct (N.eqb_spec y x) as [->|_]; [elim Hy; now left|].
  cbn [andb]. fold (contains (Str y needle) (prepend l s)).
  apply IH. intros H. apply Hy. now right.
Qed.

Lemma occurs_prepend c l s :
  occurs c (prepend l s) = existsb (fun a => N.eqb a c) l || occurs c s.
Proof.
  induction l as [|x l IH]; [reflexivity|].
  cbn [prepend occurs existsb]. now rewrite IH, orb_assoc.
Qed.

Lemma occurs_app c s t : occurs c (s ++ t) = occurs c s || occurs c t.
Proof.
  induction s as [|x s IH]; [reflexivity|].
  cbn [append occurs]. now rewrite IH, orb_assoc.
Qed.

Lemma all_chars_app p s t :
  all_chars p (s ++ t) = all_chars p s && all_chars p t.
Proof.
  induction s as [|x s IH]; [reflexivity|].
  cbn [append all_chars]. now rewrite IH, andb_assoc.
Qed.

(** **** The case tables *)

(** Where a code point [x] of a mapped character can come from: the
    special table, a run, or the character itself. *)
Lemma assoc_in c table l : assoc c table = Some l -> In (c, l) table.
Proof.
  induction table as [|[k m] table IH]; simpl; [discriminate|].
  destruct (N.eqb_spec k c) as [->|_].
  - intros H. injection H as ->. now left.
  - intros H. right. now apply IH.
Qed.

Lemma apply_runs_in runs c d :
  apply_runs runs c = Some d ->
  exists r, In r runs /\ in_run c r = true /\ d = (run_to r + (c - run_lo r))%N.
Proof.
  induction runs as [|r runs IH]; simpl; [discriminate|].
  destruct (in_run c r) eqn:E.
  - intros H. injection H as <-. exists r. auto.
  - intros H. destruct (IH H) as (r' & Hin & Hr). exists r'. auto.
Qed.

Lemma mem_In c l : mem c l = true -> In c l.
Proof.
  unfold mem. rewrite existsb_exists. intros (x & Hx & E).
  apply N.eqb_eq in E. now subst.
Qed.

Lemma map_char_sources runs special x sources :
  sources_checked runs special x sources = true ->
  forall c, In x (map_char runs special c) -> In c sources.
Proof.
  unfold sources_checked. rewrite !andb_true_iff, !forallb_forall.
  intros [[Hself Hspecial] Hruns] c. unfold map_char.
  destruct (assoc c special) as [l|] eqn:Ea.
  - intros Hx. apply assoc_in in Ea. specialize (Hspecial _ Ea). cbn [fst snd] in Hspecial.
    apply mem_In.
    assert (E : mem x l = true).
    { unfold mem. apply existsb_exists. exists x. split; [exact Hx | apply N.eqb_refl]. }
    now rewrite E in Hspecial.
  - destruct (apply_runs runs c) as [d|] eqn:Er.
    + intros [<-|[]].
      apply apply_runs_in in Er as (r & Hin & Hr & ->).
      specialize (Hruns _ Hin). unfold in_run in Hr.
      rewrite !andb_true_iff, !N.leb_le in Hr. destruct Hr as [[Hlo Hhi] _].
      assert (E : ((run_to r <=? run_to r + (c - run_lo r))
                   && (run_to r + (c - run_lo r) <=? run_to r + (run_hi r - run_lo r)))%N = true).
      { rewrite andb_true_iff, !N.leb_le. lia. }
      rewrite E in Hruns. cbn [implb] in Hruns.
      replace (run_lo r + (run_to r + (c - run_lo r) - run_to r))%N with c in Hruns by lia.
      now apply mem_In.
    + intros [<-|[]]. now apply mem_In.
Qed.

Lemma map_char_not_nil runs special :
  forallb (fun e => match snd e with [] => false | _ => true end) special = true ->
  forall c, map_char runs special c <> [].
Proof.
  rewrite forallb_forall. intros H c. unfold map_char.
  destruct (assoc c special) as [l|] eqn:Ea.
  - apply assoc_in in Ea. specialize (H _ Ea). cbn in H. now destruct l.
  - destruct (apply_runs runs c); discriminate.
Qed.

Lemma upper_char_not_nil c : upper_char c <> [].
Proof. apply map_char_not_nil. vm_compute. reflexivity. Qed.

(** The characters whose upper case has a [Y], an [E] or an [S]. *)
Lemma upper_char_Y c :
  In "Y"%chr (upper_char c) -> In c ["Y"; "y"; "ẙ"]%chr.
Proof. apply map_char_sources. vm_compute. reflexivity. Qed.

Lemma upper_char_E c :
  In "E"%chr (upper_char c) -> In c ["E"; "e"]%chr.
Proof. apply map_char_sources. vm_compute. reflexivity. Qed.

Lemma upper_char_S c :
  In "S"%chr (upper_char c) -> In c ["S"; "s"; "ß"; "ſ"; "ﬅ"; "ﬆ"]%chr.
Proof. apply map_char_sources. vm_compute. reflexivity. Qed.

Lemma upper_app s t : upper (s ++ t) = upper s ++ upper t.
Proof.
  induction s as [|c s IH]; [reflexivity|].
  cbn [append upper]. now rewrite IH, prepend_append.
Qed.


(** **** Lower case *)

Lemma lower_char_dot c : In "."%chr (lower_char c) -> In c ["."]%chr.
Proof. apply map_char_sources. vm_compute. reflexivity. Qed.

(** A dot of the lower-cased text is a dot of the text. *)
Lemma lower_at_dot before c after :
  In "."%chr (lower_at before c after) <-> c = "."%chr.
Proof.
  unfold lower_at. destruct (N.eqb_spec c "Σ"%chr) as [->|Hs].
  - split; [|discriminate].
    destruct (final_sigma before after); intros [H|[]]; discriminate H.
  - split.
    + intros H. apply lower_char_dot in H as [<-|[]]. reflexivity.
    + intros ->. now left.
Qed.

Lemma occurs_lower_from_dot before s :
  occurs "." (lower_from before s) = occurs "." s.
Proof.
  revert before; induction s as [|c s IH]; intros before; [reflexivity|].
  cbn [lower_from occurs]. rewrite occurs_prepend, IH. f_equal.
  destruct (N.eqb_spec c "."%chr) as [->|Hc].
  - reflexivity.
  - destruct (existsb _ _) eqn:E; [|reflexivity].
    apply existsb_exists in E as (x & Hx & E). apply N.eqb_eq in E. subst x.
    apply lower_at_dot in Hx. contradiction.
Qed.

(** [lower] neither makes nor removes a dot. *)
Lemma occurs_lower_dot s : occurs "." (lower s) = occurs "." s.
Proof. apply occurs_lower_from_dot. Qed.

(** Text without a capital sigma is lower-cased character by character,
    whatever surrounds it. *)
Lemma lower_from_no_sigma before s :
  occurs "Σ" s = false -> lower_from before s = lower s.
Proof.
  unfold lower. generalize (@nil N) as before'.
  revert before; induction s as [|c s IH]; intros before before' H; [reflexivity|].
  cbn [occurs] in H. apply orb_false_iff in H as [Hc Hs].
  cbn [lower_from]. unfold lower_at. rewrite Hc.
  f_equal. now apply IH.
Qed.

(** A capital sigma shows in the lower-cased text as a small sigma. *)
Lemma lower_from_sigma before s :
  occurs "Σ" s = true ->
  occurs "ς" (lower_from before s) || occurs "σ" (lower_from before s) = true.
Proof.
  revert before; induction s as [|c s IH]; intros before H; [discriminate|].
  cbn [occurs] in H. cbn [lower_from]. rewrite !occurs_prepend.
  unfold lower_at at 1 2.
  destruct (N.eqb_spec c "Σ"%chr) as [->|Hc].
  - destruct (final_sigma before s); cbn -[lower_from]; rewrite ?orb_true_r; reflexivity.
  - cbn [orb] in H. specialize (IH (c :: before) H).
    apply orb_true_iff in IH as [-> | ->]; rewrite ?orb_true_r; reflexivity.
Qed.

Lemma lower_sigma_free s :
  occurs "ς" (lower s) = false -> occurs "σ" (lower s) = false ->
  occurs "Σ" s = false.
Proof.
  intros H1 H2. destruct (occurs "Σ" s) eqn:E; [|reflexivity].
  apply (lower_from_sigma []) in E. fold (lower s) in E.
  now rewrite H1, H2 in E.
Qed.

(** The lower case of [stem ++ "." ++ suf] ends with a dot and the lower
    case of [suf], when [suf] has no capital sigma. *)
Lemma lower_from_app_dot before stem suf :
  occurs "Σ" suf = false ->
  exists front, lower_from before (stem ++ Str "." suf) = front ++ Str "." (lower suf).
Proof.
  intros H. revert before; induction stem as [|c stem IH]; intros before.
  - exists EmptyStr. cbn [append lower_from].
    now rewrite (lower_from_no_sigma _ _ H).
  - destruct (IH (c :: before)) as (front & E).
    exists (prepend (lower_at before c (stem ++ Str "."%chr suf)) front).
    cbn [append lower_from]. now rewrite E, prepend_append.
Qed.

Lemma lower_app_dot stem suf :
  occurs "Σ" suf = false ->
  exists front, lower (stem ++ Str "." suf) = front ++ Str "." (lower suf).
Proof. apply lower_from_app_dot. Qed.

(** **** Splitting *)

Lemma split_not_nil sep s : split sep s <> [].
Proof.
  destruct s as [|c s]; simpl; [discriminate|].
  destruct (N.eqb c sep); [discriminate|].
  destruct (split sep s); discriminate.
Qed.

(** Without a separator there is one piece, the string itself. *)
Lemma split_no_sep sep s : occurs sep s = false -> split sep s = [s].
Proof.
  induction s as [|c s IH]; simpl; [reflexivity|].
  intros H. apply orb_false_iff in H as [Hc Hs].
  rewrite Hc, (IH Hs). reflexivity.
Qed.

(** The pieces of [s ++ sep ++ t] end with the pieces of [t]. *)
Lemma split_app_sep sep s t :
  exists front, front <> [] /\
    split sep (s ++ Str sep t) = (front ++ split sep t)%list.
Proof.
  induction s as [|c s (front & Hne & IH)]; simpl.
  - rewrite N.eqb_refl. exists [EmptyStr]. split; [discriminate | reflexivity].
  - destruct (N.eqb c sep).
    + exists (EmptyStr :: front). rewrite IH. split; [discriminate | reflexivity].
    + rewrite IH. destruct front as [|p front]; [contradiction|].
      exists (Str c p :: front). split; [discriminate | reflexivity].
Qed.

Lemma last_app_not_nil {A} (l m : list A) d : m <> [] -> last (l ++ m) d = last m d.
Proof.
  intros Hm. induction l as [|x l IH]; [reflexivity|].
  simpl. destruct (l ++ m)%list eqn:E; [|exact IH].
  apply app_eq_nil in E as [_ E]. contradiction.
Qed.

(** The last piece of [stem ++ "." ++ suf] is [suf] when [suf] has no dot. *)
Lemma last_piece_split_suffix sep stem suf :
  occurs sep suf = false ->
  last_piece (split sep (stem ++ Str sep suf)) = suf.
Proof.
  intros H. unfold last_piece.
  destruct (split_app_sep sep stem suf) as (front & _ & ->).
  rewrite last_app_not_nil by apply split_not_nil.
  now rewrite (split_no_sep _ _ H).
Qed.

(** **** Suffixes *)

(** [substring] takes an append apart. *)
Lemma substring_app_right a b :
  substring (len a) (len b) (a ++ b) = b.
Proof.
  induction a as [|c a IH]; simpl.
  - induction b as [|d b IHb]; simpl; [reflexivity | now rewrite IHb].
  - exact IH.
Qed.

Lemma substring_split n s :
  n <= len s ->
  s = substring 0 n s ++ substring n (len s - n) s.
Proof.
  revert s; induction n as [|n IH]; intros s Hn.
  - rewrite Nat.sub_0_r. simpl.
    assert (E0 : substring 0 0 s = EmptyStr) by (destruct s; reflexivity).
    rewrite E0. simpl.
    clear Hn E0. induction s as [|c s IHs]; simpl; [reflexivity|].
    now rewrite <- IHs.
  - destruct s as [|c s]; simpl in *; [lia|].
    f_equal. apply IH. lia.
Qed.

(** [s.endswith(suffix)] holds exactly when [s] is [stem ++ suffix]. *)
Lemma endswith_iff s suffix :
  endswith s suffix = true <-> exists stem, s = stem ++ suffix.
Proof.
  unfold endswith. rewrite andb_true_iff, Nat.leb_le, eqb_eq. split.
  - intros [Hlen Hsub].
    exists (substring 0 (len s - len suffix) s).
    assert (Hs := substring_split (len s - len suffix) s).
    replace (len s - (len s - len suffix))
      with (len suffix) in Hs by lia.
    rewrite Hsub in Hs. apply Hs. lia.
  - intros [stem ->]. rewrite append_length. split; [lia|].
    replace (len stem + len suffix - len suffix)
      with (len stem) by lia.
    apply substring_app_right.
Qed.

(** **** White space *)

(** [strip] leaves nothing exactly of the strings of white space. *)
Lemma rstrip_empty_iff s : rstrip s = EmptyStr <-> all_chars isspace s = true.
Proof.
  induction s as [|c s IH]; simpl; [tauto|].
  destruct (rstrip s) eqn:E.
  - destruct (isspace c); simpl.
    + rewrite <- IH. tauto.
    + split; discriminate.
  - split; [discriminate|].
    rewrite andb_true_iff. intros [_ H]. apply IH in H. discriminate.
Qed.

Lemma lstrip_all_space s :
  all_chars isspace (lstrip s) = all_chars isspace s.
Proof.
  induction s as [|c s IH]; simpl; [reflexivity|].
  destruct (isspace c) eqn:E; simpl; [exact IH | now rewrite E].
Qed.

Lemma strip_empty_iff s : strip s = EmptyStr <-> all_chars isspace s = true.
Proof. unfold strip. now rewrite rstrip_empty_iff, lstrip_all_space. Qed.

Lemma truthy_strip s :
  truthy (strip s) = negb (all_chars isspace s).
Proof.
  destruct (all_chars isspace s) eqn:E.
  - apply strip_empty_iff in E. now rewrite E.
  - destruct (strip s) eqn:F; [|reflexivity].
    apply strip_empty_iff in F. congruence.
Qed.

End PyStrFacts.

(* --------------------------------------------------------------------- *)
(** *** Facts about dictionaries and [sorted] *)

Module PyDictFacts.
Import PyDict.

Section DictFacts.
Context {K V : Type} (key_eqb : K -> K -> bool).
Hypothesis key_eqb_eq : forall a b, key_eqb a b = true <-> a = b.

Lemma key_eqb_refl k : key_eqb k k = true.
Proof. now apply key_eqb_eq. Qed.


(** Assignment to a present key keeps the keys; a new key goes last. *)
Lemma keys_set (d : @dict K V) k v :
  (In k (keys d) /\ keys (set key_eqb d k v) = keys d) \/
  (~ In k (keys d) /\ keys (set key_eqb d k v) = (keys d ++ [k])%list).
Proof.
  induction d as [|[k' v'] d IH]; simpl.
  - right. split; [tauto | reflexivity].
  - destruct (key_eqb k' k) eqn:E.
    + apply key_eqb_eq in E. subst. left. split; [now left | reflexivity].
    + assert (k' <> k) by (intros ->; rewrite key_eqb_refl in E; discriminate).
      destruct IH as [[Hin Hk] | [Hnin Hk]]; simpl; unfold keys in *; rewrite Hk.
      * left. split; [now right | reflexivity].
      * right. split; [tauto | reflexivity].
Qed.

Lemma in_keys_set (d : @dict K V) k v k0 :
  In k0 (keys (set key_eqb d k v)) <-> In k0 (keys d) \/ k0 = k.
Proof.
  destruct (keys_set d k v) as [[Hin ->] | [Hnin ->]].
  - split; [tauto | intros [H | ->]; assumption].
  - rewrite in_app_iff. simpl. intuition congruence.
Qed.

Lemma nodup_keys_set (d : @dict K V) k v :
  NoDup (keys d) -> NoDup (keys (set key_eqb d k v)).
Proof.
  intros Hd. destruct (keys_set d k v) as [[Hin ->] | [Hnin ->]]; [exact Hd|].
  apply NoDup_app; [exact Hd | repeat constructor; simpl; tauto | ].
  intros x Hx [<- | []]. contradiction.
Qed.

(** Reading after an assignment. *)
Lemma get_set (d : @dict K V) k v k0 :
  get key_eqb (set key_eqb d k v) k0 =
  if key_eqb k k0 then Some v else get key_eqb d k0.
Proof.
  induction d as [|[k' v'] d IH]; simpl.
  - reflexivity.
  - destruct (key_eqb k' k) eqn:E; simpl.
    + apply key_eqb_eq in E. subst k'. now destruct (key_eqb k k0).
    + destruct (key_eqb k' k0) eqn:F; [|exact IH].
      apply key_eqb_eq in F. subst k0.
      destruct (key_eqb k k') eqn:G; [|reflexivity].
      apply key_eqb_eq in G. subst k'. rewrite key_eqb_refl in E. discriminate.
Qed.

(** With distinct keys, the entries are what [get] reads. *)
Lemma in_iff_get (d : @dict K V) k v :
  NoDup (keys d) -> (In (k, v) d <-> get key_eqb d k = Some v).
Proof.
  induction d as [|[k' v'] d IH]; simpl; intros Hnd.
  - split; [tauto | discriminate].
  - inversion Hnd as [|? ? Hnin Hnd']; subst.
    destruct (key_eqb k' k) eqn:E.
    + apply key_eqb_eq in E. subst k'. split.
      * intros [H | H]; [now injection H as -> |].
        elim Hnin. apply (in_map fst) in H. exact H.
      * intros H. injection H as ->. now left.
    + rewrite <- (IH Hnd'). split; [|tauto].
      intros [H | H]; [|exact H].
      injection H as -> _. rewrite key_eqb_refl in E. discriminate.
Qed.

Section Comprehension.
Context {A : Type} (key : A -> K) (val : A -> V).

Local Abbreviation build :=
  (fold_left (fun d x => set key_eqb d (key x) (val x))).

Lemma in_keys_build l d k :
  In k (keys (build l d)) <-> In k (keys d) \/ In k (map key l).
Proof.
  revert d; induction l as [|x l IH]; intros d; simpl.
  - tauto.
  - rewrite IH, in_keys_set. intuition congruence.
Qed.

Lemma nodup_keys_build l d : NoDup (keys d) -> NoDup (keys (build l d)).
Proof.
  revert d; induction l as [|x l IH]; intros d Hd; simpl; [exact Hd|].
  apply IH, nodup_keys_set, Hd.
Qed.

Lemma get_build l d k :
  get key_eqb (build l d) k =
  match last_with key_eqb key k l with
  | Some x => Some (val x)
  | None => get key_eqb d k
  end.
Proof.
  revert d; induction l as [|x l IH]; intros d; simpl; [reflexivity|].
  rewrite IH. destruct (last_with key_eqb key k l); [reflexivity|].
  rewrite get_set. now destruct (key_eqb (key x) k).
Qed.





(** The keys of a comprehension are distinct. *)
Lemma nodup_keys_comprehension l :
  NoDup (keys (comprehension key_eqb key val l)).
Proof. apply nodup_keys_build. constructor. Qed.

(** They are the keys of the items. *)
Lemma in_keys_comprehension l k :
  In k (keys (comprehension key_eqb key val l)) <-> In k (map key l).
Proof. unfold comprehension. rewrite in_keys_build. simpl. tauto. Qed.

(** Each key holds the value of the last item with that key. *)
Lemma in_comprehension l k v :
  In (k, v) (comprehension key_eqb key val l) <->
  exists x, last_with key_eqb key k l = Some x /\ v = val x.
Proof.
  rewrite in_iff_get by apply nodup_keys_comprehension.
  unfold comprehension. rewrite get_build. simpl.
  destruct (last_with key_eqb key k l) as [x|].
  - split.
    + intros H. injection H as <-. eauto.
    + intros (y & Hy & ->). now injection Hy as ->.
  - split; [discriminate | intros (y & Hy & _); discriminate].
Qed.

Lemma last_with_some l k x :
  last_with key_eqb key k l = Some x -> In x l /\ key x = k.
Proof.
  induction l as [|y l IH]; simpl; [discriminate|].
  destruct (last_with key_eqb key k l) as [z|].
  - intros H. injection H as ->. destruct (IH eq_refl). split; [now right | assumption].
  - destruct (key_eqb (key y) k) eqn:E; [|discriminate].
    intros H. injection H as ->. apply key_eqb_eq in E. split; [now left | assumption].
Qed.

Lemma last_with_in l k :
  In k (map key l) -> exists x, last_with key_eqb key k l = Some x.
Proof.
  induction l as [|y l IH]; simpl; [tauto|].
  intros [H | H].
  - destruct (last_with key_eqb key k l); [eauto|].
    rewrite H, key_eqb_refl. eauto.
  - destruct (IH H) as [x ->]. eauto.
Qed.

(** The last item with a key, in an append: the right list first. *)
Lemma last_with_app l1 l2 k :
  last_with key_eqb key k (l1 ++ l2) =
  match last_with key_eqb key k l2 with
  | Some x => Some x
  | None => last_with key_eqb key k l1
  end.
Proof.
  induction l1 as [|y l1 IH]; simpl.
  - now destruct (last_with key_eqb key k l2).
  - rewrite IH. now destruct (last_with key_eqb key k l2).
Qed.

End Comprehension.

End DictFacts.

Section SortedFacts.
Context {A : Type} (key : A -> Q).

Lemma insert_desc_perm x l : Permutation (insert_desc key x l) (x :: l).
Proof.
  induction l as [|y l IH]; simpl; [reflexivity|].
  destruct (Qle_bool (key y) (key x)); [reflexivity|].
  rewrite IH. apply perm_swap.
Qed.

(** [sorted] rearranges its input. *)
Lemma sorted_reverse_perm l : Permutation (sorted_reverse key l) l.
Proof.
  induction l as [|x l IH]; simpl; [reflexivity|].
  rewrite insert_desc_perm. now constructor.
Qed.





End SortedFacts.

End PyDictFacts.

(* --------------------------------------------------------------------- *)
(** *** Facts about logged computations *)

Module EffFacts.
Import Eff.

(** Reduction of [bind]. *)
Lemma bind_inr {Ev A B} (a : A) (t : list Ev) (f : A -> Eff.M Ev B) :
  bind (inr a, t) f = (fst (f a), (t ++ snd (f a))%list).
Proof. unfold bind. now destruct (f a). Qed.

End EffFacts.

(* --------------------------------------------------------------------- *)
(** *** The workflow *)

Module WorkflowProofs.
Import PyStr PyDict Eff Workflow WorkflowSpec PyStrFacts PyDictFacts EffFacts.
Local Open Scope eff_scope.

Lemma calls_of_app a b : calls_of (a ++ b) = (calls_of a ++ calls_of b)%list.
Proof. apply flat_map_app. Qed.

Lemma nodes_of_app a b : nodes_of (a ++ b) = (nodes_of a ++ nodes_of b)%list.
Proof. apply flat_map_app. Qed.

(** The events of the telemetry step: at most one call, nothing for the
    stream. *)
Lemma usage_metadata_events env i o :
  snd (usage_metadata env i o) = [] \/
  exists md, snd (usage_metadata env i o) = [Call (CallAddMetadata md)].
Proof.
  unfold usage_metadata. destruct (get_current_run_tree env); simpl; eauto.
Qed.

Lemma usage_metadata_silent env i o :
  flat_map yielded (snd (usage_metadata env i o)) = [] /\
  nodes_of (snd (usage_metadata env i o)) = [] /\
  forallb (fun c => negb (is_retrieval c || is_generation c))
          (calls_of (snd (usage_metadata env i o))) = true.
Proof.
  destruct (usage_metadata_events env i o) as [-> | [md ->]]; now repeat split.
Qed.

(** The context check, when the reply's first block is [text]: the update
    carries the verdict, and the events are the model call and the
    telemetry. *)
Lemma check_context_node_reply env s text :
  context_reply env (prompt s) text ->
  exists tm,
    check_context_node env s =
      (inr (mkUpdate None (Some (verdict text)) None None),
       Call (CallInvoke (check_context_messages (prompt s))) :: tm) /\
    flat_map yielded tm = [] /\ nodes_of tm = [] /\
    forallb (fun c => negb (is_retrieval c || is_generation c)) (calls_of tm) = true.
Proof.
  intros (resp & rest & Hinv & Hc & Htel).
  unfold check_context_node, call. rewrite Hinv, bind_inr.
  unfold telemetry_ok in Htel.
  pose proof (usage_metadata_silent env (input_tokens (response_usage_metadata resp))
                (output_tokens (response_usage_metadata resp))) as Hsil.
  destruct (usage_metadata env _ _) as [r tm] eqn:E. simpl in Htel, Hsil. subst r.
  rewrite bind_inr, Hc. simpl. rewrite app_nil_r.
  exists tm. split; [reflexivity | exact Hsil].
Qed.

(** One step of a run whose node returns. *)
Lemma run_from_step steps env n s u t :
  node_fn env n s = (inr u, t) ->
  run_from (S steps) env n s =
    let s' := apply_update s u in
    let reported :=
      (t ++ [Emit updates (ChunkUpdate n u); Emit values (ChunkState s')])%list in
    match build_graph n s' with
    | inl e => (inl e, reported)
    | inr None => (inr s', reported)
    | inr (Some n') =>
        (fst (run_from steps env n' s'),
         (reported ++ snd (run_from steps env n' s'))%list)
    end.
Proof.
  intros H. cbn [run_from]. rewrite H, bind_inr.
  unfold tell, lift. rewrite !bind_inr.
  destruct (build_graph n (apply_update s u)) as [e | [n' |]]; cbn -[run_from].
  - reflexivity.
  - destruct (run_from steps env n' (apply_update s u)) as [r t'].
    cbn. f_equal. now rewrite <- !app_assoc.
  - now rewrite ?app_nil_r.
Qed.

(** A node that raises ends the run with its exception. *)
Lemma run_from_raise steps env n s e t :
  node_fn env n s = (inl e, t) ->
  run_from (S steps) env n s = (inl e, t).
Proof. intros H. cbn [run_from]. now rewrite H. Qed.

(** The refusal step: the last of its run. *)
Lemma run_from_cannot_answer steps env s :
  run_from (S steps) env cannot_answer s =
    (inr (apply_update s (mkUpdate (Some refusal) None None None)),
     [Emit updates (ChunkUpdate cannot_answer (mkUpdate (Some refusal) None None None));
      Emit values (ChunkState (apply_update s (mkUpdate (Some refusal) None None None)))]).
Proof. reflexivity. Qed.

Lemma yielded_app a b :
  flat_map yielded (a ++ b) = (flat_map yielded a ++ flat_map yielded b)%list.
Proof. apply flat_map_app. Qed.

(** C2. When the verdict on the reply of the context check is negative (the
    upper-cased reply does not contain "YES"), the run goes through
    [check_context] and [cannot_answer] and stops: its answer is the refusal
    text, [stream] yields exactly that text, and the run calls neither an
    index, nor the reranker, nor the model's stream. *)
Theorem no_context_refuses env p text :
  context_reply env p text ->
  verdict text = false ->
  exists s evs,
    app_astream env p = (inr s, evs) /\
    answer s = Some refusal /\
    nodes_of evs = [check_context; cannot_answer] /\
    no_retrieval_no_generation evs = true /\
    stream env p = ([refusal], None).
Proof.
  intros Hreply Hneg.
  destruct (check_context_node_reply env (initial_state p) text Hreply)
    as (tm & Hnode & Hy & Hn & Hc).
  rewrite Hneg in Hnode.
  assert (Hrun : app_astream env p =
    (inr (mkState p (Some refusal) (Some false) None None),
     [Emit values (ChunkState (initial_state p));
      Call (CallInvoke (check_context_messages p))] ++ tm ++
     [Emit updates (ChunkUpdate check_context (mkUpdate None (Some false) None None));
      Emit values (ChunkState (mkState p None (Some false) None None));
      Emit updates (ChunkUpdate cannot_answer (mkUpdate (Some refusal) None None None));
      Emit values (ChunkState (mkState p (Some refusal) (Some false) None None))])%list).
  { unfold app_astream, recursion_limit, tell. rewrite bind_inr.
    rewrite (run_from_step _ env check_context _ _ _ Hnode). cbn -[run_from].
    rewrite run_from_cannot_answer. cbn. now rewrite <- app_assoc. }
  assert (Hyield : forall a b, flat_map yielded (a ++ tm ++ b) =
                     (flat_map yielded a ++ flat_map yielded b)%list).
  { intros a b. now rewrite !yielded_app, Hy. }
  eexists. eexists. split; [exact Hrun|].
  split; [reflexivity|].
  split.
  { now rewrite !nodes_of_app, Hn. }
  split.
  { unfold no_retrieval_no_generation.
    rewrite !calls_of_app, !forallb_app, Hc. reflexivity. }
  unfold stream. rewrite Hrun, Hyield. reflexivity.
Qed.

(** **** The merge *)

(** The deduplicated hits are the last hits of their identifiers. *)
Lemma in_deduped_hits h1 h2 h :
  In h (deduped_hits h1 h2) <-> last_hit (hit_id h) (h1 ++ h2) = Some h.
Proof.
  unfold deduped_hits, PyDict.values, last_hit. rewrite in_map_iff. split.
  - intros ([k v] & <- & Hin). simpl.
    apply (in_comprehension PyStr.eqb PyStrFacts.eqb_eq) in Hin as (x & Hx & ->).
    destruct (last_with_some PyStr.eqb PyStrFacts.eqb_eq _ _ _ _ Hx) as [_ Hk].
    now rewrite Hk.
  - intros H. exists (hit_id h, h). split; [reflexivity|].
    apply (in_comprehension PyStr.eqb PyStrFacts.eqb_eq). eauto.
Qed.

Lemma ids_deduped_hits h1 h2 :
  map hit_id (deduped_hits h1 h2) =
  keys (comprehension PyStr.eqb hit_id (fun hit => hit) (h1 ++ h2)).
Proof.
  unfold deduped_hits, PyDict.values, keys. rewrite map_map.
  apply map_ext_in. intros [k v] Hin. simpl.
  apply (in_comprehension PyStr.eqb PyStrFacts.eqb_eq) in Hin as (x & Hx & ->).
  now destruct (last_with_some PyStr.eqb PyStrFacts.eqb_eq _ _ _ _ Hx).
Qed.

Lemma sorted_hits_perm h1 h2 :
  Permutation (sorted_hits h1 h2) (deduped_hits h1 h2).
Proof. apply sorted_reverse_perm. Qed.

Lemma ids_merge_chunks h1 h2 :
  map _id (merge_chunks h1 h2) = map hit_id (sorted_hits h1 h2).
Proof. unfold merge_chunks. rewrite map_map. reflexivity. Qed.

Lemma nodup_ids_sorted_hits h1 h2 : NoDup (map hit_id (sorted_hits h1 h2)).
Proof.
  apply (Permutation_NoDup
           (Permutation_sym (Permutation_map hit_id (sorted_hits_perm h1 h2)))).
  rewrite ids_deduped_hits.
  apply (nodup_keys_comprehension PyStr.eqb PyStrFacts.eqb_eq).
Qed.

Lemma in_ids_sorted_hits h1 h2 i :
  In i (map hit_id (sorted_hits h1 h2)) <-> In i (map hit_id (h1 ++ h2)).
Proof.
  rewrite <- (in_keys_comprehension PyStr.eqb PyStrFacts.eqb_eq hit_id
                (fun hit => hit) (h1 ++ h2)).
  rewrite <- ids_deduped_hits.
  split; apply Permutation_in, Permutation_map;
    [ | apply Permutation_sym ]; apply sorted_hits_perm.
Qed.


(** **** Retrieval *)

(** Both indexes empty: no documents, and the reranker is not called. *)
Lemma retrieve_rag_node_empty env s :
  search_dense env (prompt s) = inr [] ->
  search_sparse env (prompt s) = inr [] ->
  retrieve_rag_node env s =
    (inr (mkUpdate None None (Some false) None), search_events (prompt s)).
Proof.
  unfold search_dense, search_sparse, retrieve_rag_node, call.
  intros -> ->. reflexivity.
Qed.

(** Some hit: the reranker gets the merge of the sparse and the dense
    hits, in this order, and its answer becomes the documents. *)
Lemma retrieve_rag_node_reranked env s dense sparse :
  search_dense env (prompt s) = inr dense ->
  search_sparse env (prompt s) = inr sparse ->
  (dense <> [] \/ sparse <> []) ->
  retrieve_rag_node env s =
    (match inference_rerank env (lower (prompt s))
                            (merge_chunks sparse dense) 10 with
     | inl e => inl e
     | inr docs => inr (mkUpdate None None (Some (nonempty docs)) (Some docs))
     end,
     (search_events (prompt s) ++
      [Call (CallRerank (lower (prompt s)) (merge_chunks sparse dense) 10)])%list).
Proof.
  unfold search_dense, search_sparse, retrieve_rag_node, call.
  intros -> -> Hne. rewrite !bind_inr.
  assert (E : (length dense =? 0) && (length sparse =? 0) = false).
  { destruct dense, sparse; try reflexivity. destruct Hne; congruence. }
  rewrite E.
  destruct (inference_rerank env _ _ _); reflexivity.
Qed.

(** C9. [retrieve_rag_node] hands the reranker the merge of the sparse
    hits (first) and the dense hits (second); for an identifier the dense
    index returned, the merge keeps the dense index's hit (its last hit with
    that identifier), with its score and its text, and nothing else under
    that identifier: the list the reranker receives has exactly one
    candidate with the identifier, made from the dense hit, and a sparse hit
    with the identifier that differs from it is not in the list. *)
Theorem merge_keeps_dense_hit env s dense sparse (d : Hit) :
  search_dense env (prompt s) = inr dense ->
  search_sparse env (prompt s) = inr sparse ->
  In d dense ->
  In (Call (CallRerank (lower (prompt s)) (merge_chunks sparse dense) 10))
     (snd (retrieve_rag_node env s)) /\
  exists h,
    last_hit (hit_id d) dense = Some h /\
    In h dense /\ hit_id h = hit_id d /\
    In h (sorted_hits sparse dense) /\
    In (to_candidate h) (merge_chunks sparse dense) /\
    (forall h', In h' (sorted_hits sparse dense) ->
                hit_id h' = hit_id d -> h' = h) /\
    (forall c, In c (merge_chunks sparse dense) ->
               _id c = hit_id d -> c = to_candidate h) /\
    count_occ PyStr.str_dec (map _id (merge_chunks sparse dense)) (hit_id d) = 1 /\
    (forall sp, In sp sparse -> hit_id sp = hit_id d -> sp <> h ->
                ~ In sp (sorted_hits sparse dense)) /\
    (forall sp, In sp sparse -> hit_id sp = hit_id d ->
                to_candidate sp <> to_candidate h ->
                ~ In (to_candidate sp) (merge_chunks sparse dense)).
Proof.
  intros Hd Hs Hin. split.
  { rewrite (retrieve_rag_node_reranked env s dense sparse Hd Hs).
    - simpl. auto.
    - left. intros ->. contradiction. }
  destruct (last_with_in PyStr.eqb PyStrFacts.eqb_eq hit_id dense (hit_id d))
    as [h Hh].
  { now apply in_map. }
  destruct (last_with_some PyStr.eqb PyStrFacts.eqb_eq _ _ _ _ Hh) as [Hhin Hhid].
  assert (Hlast : last_hit (hit_id d) (sparse ++ dense) = Some h).
  { unfold last_hit. rewrite last_with_app. now rewrite Hh. }
  assert (Hsorted : In h (sorted_hits sparse dense)).
  { apply (Permutation_in _ (Permutation_sym (sorted_hits_perm sparse dense))).
    apply in_deduped_hits. now rewrite Hhid. }
  assert (Hone : forall h', In h' (sorted_hits sparse dense) ->
                            hit_id h' = hit_id d -> h' = h).
  { intros h' Hin' Hid'.
    apply (Permutation_in _ (sorted_hits_perm sparse dense)) in Hin'.
    apply in_deduped_hits in Hin'. rewrite Hid', Hlast in Hin'.
    now injection Hin'. }
  assert (Hcand : forall c, In c (merge_chunks sparse dense) ->
                            _id c = hit_id d -> c = to_candidate h).
  { intros c Hc Hid. unfold merge_chunks in Hc.
    apply in_map_iff in Hc as (h' & <- & Hin').
    f_equal. now apply Hone. }
  exists h. repeat split; try assumption.
  - unfold merge_chunks. now apply in_map.
  - apply (proj1 (NoDup_count_occ' PyStr.str_dec _)).
    + rewrite ids_merge_chunks. apply nodup_ids_sorted_hits.
    + rewrite ids_merge_chunks, <- Hhid. now apply in_map.
  - intros sp _ Hid Hne Hin'. apply Hne. now apply Hone.
  - intros sp _ Hid Hne Hin'. apply Hne. now apply Hcand.
Qed.

(** C6. When the retrieval stage returns, both searches have answered,
    and one of two things happened.  Either both answered without a hit:
    the reranker was not called, [has_documents] is false and [documents]
    is not written.  Or the reranker was called on the merge and answered
    with a list: [documents] is that list, and [has_documents] is true
    exactly when the list is non-empty.  Hence [has_documents] is always
    set, it is true exactly when [documents] is a non-empty list, and when
    it is false [documents] is absent or empty; the same holds of the state
    after the stage, [documents] being absent before. *)
Theorem retrieve_rag_state_invariant env s u t :
  retrieve_rag_node env s = (inr u, t) ->
  (exists dense sparse,
     search_dense env (prompt s) = inr dense /\
     search_sparse env (prompt s) = inr sparse /\
     ((dense = [] /\ sparse = [] /\
       u = mkUpdate None None (Some false) None /\
       t = search_events (prompt s))
      \/
      ((dense <> [] \/ sparse <> []) /\
       exists docs,
         inference_rerank env (lower (prompt s))
                          (merge_chunks sparse dense) 10 = inr docs /\
         t = (search_events (prompt s) ++
              [Call (CallRerank (lower (prompt s))
                                (merge_chunks sparse dense) 10)])%list /\
         u = mkUpdate None None (Some (nonempty docs)) (Some docs) /\
         (upd_has_documents u = Some true <-> docs <> []) /\
         (upd_has_documents u = Some false <-> docs = []) /\
         has_documents (apply_update s u) = upd_has_documents u /\
         documents (apply_update s u) = Some docs))) /\
  exists b,
    upd_has_documents u = Some b /\
    (b = true <-> exists docs, upd_documents u = Some docs /\ docs <> []) /\
    (b = false -> upd_documents u = None \/ upd_documents u = Some []) /\
    (forall docs, upd_documents u = Some docs ->
       exists q cands, In (Call (CallRerank q cands 10)) t /\
                       inference_rerank env q cands 10 = inr docs) /\
    (documents s = None ->
       has_documents (apply_update s u) = Some b /\
       (b = true <-> exists docs, documents (apply_update s u) = Some docs /\ docs <> []) /\
       (b = false -> documents (apply_update s u) = None \/
                     documents (apply_update s u) = Some [])).
Proof.
  intros Hrun.
  assert (Hcases :
    exists dense sparse,
      search_dense env (prompt s) = inr dense /\
      search_sparse env (prompt s) = inr sparse /\
      ((dense = [] /\ sparse = []) \/ (dense <> [] \/ sparse <> []))).
  { unfold search_dense, search_sparse.
    unfold retrieve_rag_node, call in Hrun.
    destruct (index_search env dense_index_name namespace 40 (lower (prompt s)))
      as [e | dense]; [discriminate|].
    rewrite bind_inr in Hrun.
    destruct (index_search env sparse_index_name namespace 40 (lower (prompt s)))
      as [e | sparse]; [discriminate|].
    exists dense, sparse. split; [reflexivity|]. split; [reflexivity|].
    destruct dense; [|right; left; discriminate].
    destruct sparse; [left; auto | right; right; discriminate]. }
  destruct Hcases as (dense & sparse & Hd & Hs & [[-> ->] | Hne]).
  - rewrite (retrieve_rag_node_empty env s Hd Hs) in Hrun.
    injection Hrun as <- <-.
    split.
    { exists [], []. split; [exact Hd|]. split; [exact Hs|]. left. auto. }
    exists false. cbn.
    split; [reflexivity|].
    split; [split; [discriminate | intros (docs & Hdocs & _); discriminate]|].
    split; [auto|].
    split; [intros docs Hdocs; discriminate|].
    intros ->. split; [reflexivity|].
    split; [split; [discriminate | intros (docs & Hdocs & _); discriminate] | auto].
  - rewrite (retrieve_rag_node_reranked env s dense sparse Hd Hs Hne) in Hrun.
    destruct (inference_rerank env (lower (prompt s))
                (merge_chunks sparse dense) 10) as [e | docs] eqn:Hr;
      [discriminate|].
    injection Hrun as <- <-.
    assert (Htrue : nonempty docs = true <-> docs <> []).
    { destruct docs; cbn; split; congruence. }
    assert (Hfalse : nonempty docs = false <-> docs = []).
    { destruct docs; cbn; split; congruence. }
    split.
    { exists dense, sparse. split; [exact Hd|]. split; [exact Hs|]. right.
      split; [exact Hne|]. exists docs. cbn.
      split; [exact Hr|]. split; [reflexivity|]. split; [reflexivity|].
      split.
      { rewrite <- Htrue. split; [now intros [= ->] | now intros ->]. }
      split.
      { rewrite <- Hfalse. split; [now intros [= ->] | now intros ->]. }
      auto. }
    exists (nonempty docs). cbn.
    assert (Hiff : nonempty docs = true <->
                   exists docs0, Some docs = Some docs0 /\ docs0 <> []).
    { rewrite Htrue. split.
      - intros Hb. now exists docs.
      - intros (docs0 & Hd0 & Hn0). now injection Hd0 as <-. }
    assert (Hno : nonempty docs = false ->
                  Some docs = None \/ Some docs = Some (@nil RankedDoc)).
    { intros Hb. right. now rewrite (proj1 Hfalse Hb). }
    split; [reflexivity|].
    split; [exact Hiff|].
    split; [exact Hno|].
    split.
    { intros docs0 Hd0. injection Hd0 as <-.
      exists (lower (prompt s)), (merge_chunks sparse dense).
      split; [cbn; auto | exact Hr]. }
    intros _. split; [reflexivity|]. split; [exact Hiff | exact Hno].
Qed.

(** The run up to the retrieval, for a positive verdict. *)
Lemma app_astream_has_context env p text :
  context_reply env p text ->
  verdict text = true ->
  exists tm,
    flat_map yielded tm = [] /\ nodes_of tm = [] /\
    forallb (fun c => negb (is_retrieval c || is_generation c)) (calls_of tm) = true /\
    let s1 := mkState p None (Some true) None None in
    app_astream env p =
      (fst (run_from 24 env retrieve_rag s1),
       ([Emit values (ChunkState (initial_state p));
         Call (CallInvoke (check_context_messages p))] ++ tm ++
        [Emit updates (ChunkUpdate check_context (mkUpdate None (Some true) None None));
         Emit values (ChunkState s1)] ++
        snd (run_from 24 env retrieve_rag s1))%list).
Proof.
  intros Hreply Hpos.
  destruct (check_context_node_reply env (initial_state p) text Hreply)
    as (tm & Hnode & Hy & Hn & Hc).
  rewrite Hpos in Hnode.
  exists tm. repeat (split; [assumption|]).
  unfold app_astream, recursion_limit, tell. rewrite bind_inr.
  rewrite (run_from_step _ env check_context _ _ _ Hnode). cbn -[run_from].
  now rewrite <- !app_assoc.
Qed.

Lemma forallb_weaken {A} (f g : A -> bool) l :
  (forall x, f x = true -> g x = true) ->
  forallb f l = true -> forallb g l = true.
Proof.
  intros H. rewrite !forallb_forall. auto.
Qed.

(** C4. When both indexes return no hit, the retrieval stage returns
    [has_documents = false] after the two searches alone, without calling
    the reranker; and a run with a positive verdict then goes to
    [cannot_answer], so that [stream] yields exactly the refusal text. *)
Theorem empty_retrieval_refuses :
  (forall env s,
     search_dense env (prompt s) = inr [] ->
     search_sparse env (prompt s) = inr [] ->
     retrieve_rag_node env s =
       (inr (mkUpdate None None (Some false) None), search_events (prompt s)) /\
     no_rerank_no_generation (snd (retrieve_rag_node env s)) = true) /\
  (forall env p text,
     context_reply env p text ->
     verdict text = true ->
     search_dense env p = inr [] ->
     search_sparse env p = inr [] ->
     exists s evs,
       app_astream env p = (inr s, evs) /\
       has_documents s = Some false /\
       answer s = Some refusal /\
       nodes_of evs = [check_context; retrieve_rag; cannot_answer] /\
       no_rerank_no_generation evs = true /\
       stream env p = ([refusal], None)).
Proof.
  split.
  { intros env s Hd Hs.
    rewrite (retrieve_rag_node_empty env s Hd Hs). now split. }
  intros env p text Hreply Hpos Hd Hs.
  destruct (app_astream_has_context env p text Hreply Hpos)
    as (tm & Hy & Hn & Hc & Hrun).
  cbv zeta in Hrun.
  pose proof (retrieve_rag_node_empty env (mkState p None (Some true) None None)
                Hd Hs) as Hnode.
  assert (Hfull : app_astream env p =
    (inr (mkState p (Some refusal) (Some true) (Some false) None),
     [Emit values (ChunkState (initial_state p));
      Call (CallInvoke (check_context_messages p))] ++ tm ++
     [Emit updates (ChunkUpdate check_context (mkUpdate None (Some true) None None));
      Emit values (ChunkState (mkState p None (Some true) None None))] ++
     search_events p ++
     [Emit updates (ChunkUpdate retrieve_rag (mkUpdate None None (Some false) None));
      Emit values (ChunkState (mkState p None (Some true) (Some false) None));
      Emit updates (ChunkUpdate cannot_answer (mkUpdate (Some refusal) None None None));
      Emit values (ChunkState (mkState p (Some refusal) (Some true) (Some false) None))])%list).
  { rewrite Hrun, (run_from_step _ env retrieve_rag _ _ _ Hnode).
    cbn -[run_from]. rewrite run_from_cannot_answer. reflexivity. }
  eexists. eexists. split; [exact Hfull|].
  split; [reflexivity|].
  split; [reflexivity|].
  split; [now rewrite !nodes_of_app, Hn|].
  split.
  { unfold no_rerank_no_generation.
    rewrite !calls_of_app, !forallb_app.
    rewrite (forallb_weaken
               (fun c => negb (is_retrieval c || is_generation c))
               (fun c => negb (is_rerank c || is_generation c)) (calls_of tm));
      [reflexivity| |exact Hc].
    intros [] H; try reflexivity; discriminate H. }
  unfold stream. rewrite Hfull, !yielded_app, Hy. reflexivity.
Qed.

(** **** Generation *)

Lemma concat_all_app a b : concat_all (a ++ b) = concat_all a ++ concat_all b.
Proof.
  induction a as [|x a IH]; simpl; [reflexivity|].
  now rewrite IH, append_assoc.
Qed.

Lemma concat_all_truthy l : concat_all (filter truthy l) = concat_all l.
Proof.
  induction l as [|x l IH]; simpl; [reflexivity|].
  destruct x; simpl; now rewrite IH.
Qed.

Lemma yielded_fragments frs :
  flat_map yielded (map emit_fragment frs) = filter truthy frs.
Proof.
  induction frs as [|x frs IH]; simpl; [reflexivity|].
  rewrite IH. now destruct (truthy x).
Qed.

(** The loop: the text grows by the fragments, in order, each of them is
    written to the stream, and the counts add up. *)
Lemma consume_spec chunks acc :
  consume acc chunks =
    (inr (mkAcc (response_text acc ++ concat_all (fragments chunks))
                (acc_input_tokens acc + total_input chunks)
                (acc_output_tokens acc + total_output chunks)),
     map emit_fragment (fragments chunks)).
Proof.
  revert acc; induction chunks as [|c chunks IH]; intros [txt i o]; simpl.
  - unfold ret. now rewrite append_nil_r, !Nat.add_0_r.
  - unfold consume_chunk, fragments. simpl.
    destruct c as [[|t blocks] [u|]]; simpl; rewrite IH; simpl;
      unfold fragments; rewrite ?append_assoc, ?Nat.add_assoc; reflexivity.
Qed.

Lemma nodes_of_fragments frs : nodes_of (map emit_fragment frs) = [].
Proof. induction frs as [|x l IH]; [reflexivity | exact IH]. Qed.

(** The generation node on a stream that ends normally. *)
Lemma generate_answer_node_spec env s docs chunks :
  documents s = Some docs ->
  client_astream env (rag_messages (context_of docs) (prompt s)) = (chunks, None) ->
  telemetry_ok env (total_input chunks) (total_output chunks) ->
  exists tm,
    flat_map yielded tm = [] /\ nodes_of tm = [] /\
    generate_answer_node env s =
      (inr (mkUpdate (Some (concat_all (fragments chunks))) None None None),
       ([Call (CallAStream (rag_messages (context_of docs) (prompt s)))] ++
        map emit_fragment (fragments chunks) ++ tm)%list).
Proof.
  intros Hdocs Hstream Htel.
  unfold generate_answer_node, state_documents. rewrite Hdocs.
  unfold ret at 1. rewrite bind_inr. fold (context_of docs). rewrite Hstream.
  unfold tell. rewrite bind_inr, consume_spec, bind_inr.
  unfold ret at 1. rewrite bind_inr. cbn [acc_input_tokens acc_output_tokens response_text].
  unfold telemetry_ok in Htel.
  pose proof (usage_metadata_silent env (total_input chunks) (total_output chunks))
    as (Hy & Hn & _).
  destruct (usage_metadata env (total_input chunks) (total_output chunks))
    as [r tm] eqn:E.
  simpl in Htel, Hy, Hn. subst r.
  exists tm. split; [exact Hy|]. split; [exact Hn|].
  cbn. rewrite E. cbn. now rewrite app_nil_r.
Qed.

(** The stream of a run that reaches the generation: the fragments with
    text, in order, and then the whole answer once more, from the "values"
    event of the last step. *)
Lemma stream_generate_path env p text dense sparse docs chunks :
  context_reply env p text ->
  verdict text = true ->
  search_dense env p = inr dense ->
  search_sparse env p = inr sparse ->
  (dense <> [] \/ sparse <> []) ->
  inference_rerank env (lower p) (merge_chunks sparse dense) 10 = inr docs ->
  docs <> [] ->
  client_astream env (rag_messages (context_of docs) p) = (chunks, None) ->
  telemetry_ok env (total_input chunks) (total_output chunks) ->
  let final := concat_all (fragments chunks) in
  stream env p =
    ((filter truthy (fragments chunks) ++
      (if truthy final then [final] else []))%list, None) /\
  concat_all (fst (stream env p)) = final ++ final /\
  exists s evs, app_astream env p = (inr s, evs) /\ answer s = Some final /\
    nodes_of evs = [check_context; retrieve_rag; generate_answer].
Proof.
  intros Hreply Hpos Hd Hs Hne Hrr Hdocs Hstream Htel final.
  destruct (app_astream_has_context env p text Hreply Hpos)
    as (tm & Hy & Hn & Hc & Hrun).
  cbv zeta in Hrun.
  pose proof (retrieve_rag_node_reranked env
                (mkState p None (Some true) None None) dense sparse Hd Hs Hne)
    as Hnode.
  cbn [prompt] in Hnode. rewrite Hrr in Hnode.
  assert (Hb : nonempty docs = true) by now destruct docs.
  rewrite Hb in Hnode.
  destruct (generate_answer_node_spec env
              (mkState p None (Some true) (Some true) (Some docs)) docs chunks
              eq_refl Hstream Htel) as (tg & Hyg & Hng & Hgen).
  cbn [prompt] in Hgen. fold final in Hgen.
  assert (Hfull : app_astream env p =
    (inr (mkState p (Some final) (Some true) (Some true) (Some docs)),
     [Emit values (ChunkState (initial_state p));
      Call (CallInvoke (check_context_messages p))] ++ tm ++
     [Emit updates (ChunkUpdate check_context (mkUpdate None (Some true) None None));
      Emit values (ChunkState (mkState p None (Some true) None None))] ++
     (search_events p ++
      [Call (CallRerank (lower p) (merge_chunks sparse dense) 10)]) ++
     [Emit updates (ChunkUpdate retrieve_rag (mkUpdate None None (Some true) (Some docs)));
      Emit values (ChunkState (mkState p None (Some true) (Some true) (Some docs)))] ++
     ([Call (CallAStream (rag_messages (context_of docs) p))] ++
      map emit_fragment (fragments chunks) ++ tg) ++
     [Emit updates (ChunkUpdate generate_answer (mkUpdate (Some final) None None None));
      Emit values (ChunkState (mkState p (Some final) (Some true) (Some true) (Some docs)))])%list).
  { rewrite Hrun, (run_from_step _ env retrieve_rag _ _ _ Hnode).
    cbn -[run_from search_events].
    rewrite (run_from_step _ env generate_answer _ _ _ Hgen).
    cbn -[search_events]. rewrite <- ?app_assoc. reflexivity. }
  assert (Hst : stream env p =
    ((filter truthy (fragments chunks) ++
      (if truthy final then [final] else []))%list, None)).
  { unfold stream. rewrite Hfull. f_equal.
    rewrite !yielded_app, Hy, Hyg, yielded_fragments. cbn.
    rewrite !app_nil_r. reflexivity. }
  split; [exact Hst|].
  split.
  { rewrite Hst. cbn [fst]. rewrite concat_all_app, concat_all_truthy.
    fold final. destruct final; simpl; now rewrite ?append_nil_r. }
  eexists. eexists. split; [exact Hfull|].
  split; [reflexivity|].
  rewrite !nodes_of_app, Hn, Hng.
  rewrite nodes_of_fragments. reflexivity.
Qed.

(** **** The verdict *)

Lemma upper_char_of_Y a : a = "Y"%chr \/ a = "y"%chr -> upper_char a = ["Y"%chr].
Proof. intros [-> | ->]; reflexivity. Qed.

Lemma upper_char_of_E b : b = "E"%chr \/ b = "e"%chr -> upper_char b = ["E"%chr].
Proof. intros [-> | ->]; reflexivity. Qed.

Lemma upper_char_of_S c :
  upper_starts_with_S c -> exists tail, upper_char c = "S"%chr :: tail.
Proof.
  unfold upper_starts_with_S. cbn [In].
  intros [<-|[<-|[<-|[<-|[<-|[<-|[]]]]]]]; eexists; vm_compute; reflexivity.
Qed.

(** After a [Y], the upper-cased rest goes on with "ES" only if the rest
    starts with an [E] and a character that gives an [S]. *)
Lemma upper_startswith_ES rest :
  startswith (upper rest) "ES" = true ->
  exists b c post,
    rest = Str b (Str c post) /\
    (b = "E"%chr \/ b = "e"%chr) /\ upper_starts_with_S c.
Proof.
  destruct rest as [|b rest]; [discriminate|]. cbn [upper].
  destruct (upper_char b) as [|x l] eqn:Eb; [now elim (upper_char_not_nil b)|].
  cbn [prepend startswith]. rewrite andb_true_iff, N.eqb_eq. intros [<- H].
  assert (Hb : b = "E"%chr \/ b = "e"%chr).
  { assert (Hin : In "E"%chr (upper_char b)) by (rewrite Eb; now left).
    apply upper_char_E in Hin. cbn [In] in Hin.
    destruct Hin as [<-|[<-|[]]]; auto. }
  rewrite (upper_char_of_E b Hb) in Eb. injection Eb as <-.
  cbn [prepend] in H.
  destruct rest as [|c post]; [discriminate|]. cbn [upper] in H.
  destruct (upper_char c) as [|y l] eqn:Ec; [now elim (upper_char_not_nil c)|].
  cbn [prepend startswith] in H. rewrite andb_true_iff, N.eqb_eq in H.
  destruct H as [<- _].
  exists b, c, post. split; [reflexivity|]. split; [exact Hb|].
  apply upper_char_S. rewrite Ec. now left.
Qed.

(** An occurrence of "YES" in the upper-cased text starts at a [Y] of the
    text or lies in the upper case of what follows the first character. *)
Lemma verdict_step a rest :
  verdict (Str a rest) = true ->
  ((a = "Y"%chr \/ a = "y"%chr) /\ startswith (upper rest) "ES" = true)
  \/ verdict rest = true.
Proof.
  unfold verdict. cbn [upper].
  destruct (in_dec N.eq_dec "Y"%chr (upper_char a)) as [Hin|Hnot].
  - apply upper_char_Y in Hin. cbn [In] in Hin.
    destruct Hin as [<-|[<-|[<-|[]]]].
    + change (upper_char "Y"%chr) with ["Y"%chr]. cbn [prepend].
      change "YES" with (Str "Y" "ES"). rewrite contains_cons, N.eqb_refl.
      cbn [andb]. intros H. apply orb_true_iff in H as [H|H]; auto.
    + change (upper_char "y"%chr) with ["Y"%chr]. cbn [prepend].
      change "YES" with (Str "Y" "ES"). rewrite contains_cons, N.eqb_refl.
      cbn [andb]. intros H. apply orb_true_iff in H as [H|H]; auto.
    + change (upper_char "ẙ"%chr) with [89; 778]%N. cbn [prepend].
      change "YES" with (Str "Y" "ES"). rewrite !contains_cons.
      change (startswith (Str 778%N (upper rest)) "ES") with false.
      rewrite andb_false_r. cbn [andb orb]. intros H. right. exact H.
  - intros H. right. now rewrite contains_prepend_skip in H.
Qed.

(** ["YES" in text.upper()] in terms of the characters of [text]. *)
Lemma verdict_iff text : verdict text = true <-> upper_contains_yes text.
Proof.
  split.
  - induction text as [|a rest IH]; [discriminate|].
    intros H. apply verdict_step in H as [[Ha H] | H].
    + apply upper_startswith_ES in H as (b & c & post & -> & Hb & Hc).
      exists EmptyStr, a, b, c, post. auto.
    + destruct (IH H) as (pre & a' & b & c & post & -> & Hrest).
      exists (Str a pre), a', b, c, post. split; [reflexivity | exact Hrest].
  - intros (pre & a & b & c & post & -> & Ha & Hb & Hc).
    unfold verdict. apply contains_iff.
    destruct (upper_char_of_S c Hc) as (tail & Ec).
    exists (upper pre), (prepend tail (upper post)).
    rewrite upper_app. f_equal. cbn [upper].
    now rewrite (upper_char_of_Y a Ha), (upper_char_of_E b Hb), Ec.
Qed.

(** Containing "YES" up to letter case is enough, and for text of ASCII
    characters it is also needed. *)
Lemma contains_yes_ci_upper text : contains_yes_ci text -> upper_contains_yes text.
Proof.
  intros (pre & a & b & c & post & E & Ha & Hb & Hc).
  exists pre, a, b, c, post. repeat split; try assumption.
  unfold upper_starts_with_S. cbn [In]. destruct Hc as [<- | <-]; auto.
Qed.

Lemma upper_contains_yes_ascii text :
  is_ascii text = true -> upper_contains_yes text -> contains_yes_ci text.
Proof.
  intros Hascii (pre & a & b & c & post & -> & Ha & Hb & Hc).
  exists pre, a, b, c, post. repeat split; try assumption.
  unfold is_ascii in Hascii. rewrite all_chars_app in Hascii.
  apply andb_true_iff in Hascii as [_ Hascii]. cbn [all_chars] in Hascii.
  rewrite !andb_true_iff in Hascii. destruct Hascii as (_ & _ & Hc128 & _).
  unfold upper_starts_with_S in Hc. cbn [In] in Hc.
  destruct Hc as [<-|[<-|[<-|[<-|[<-|[<-|[]]]]]]]; auto; discriminate Hc128.
Qed.

Lemma contains_yes_up_to_case_verdict text :
  contains_yes_up_to_case text -> verdict text = true.
Proof.
  intros (pre & mid & post & -> & E). unfold verdict. apply contains_iff.
  exists (upper pre), (upper post). now rewrite !upper_app, E.
Qed.

Lemma contains_yes_ci_up_to_case text :
  contains_yes_ci text -> contains_yes_up_to_case text.
Proof.
  intros (pre & a & b & c & post & -> & Ha & Hb & Hc).
  exists pre, (Str a (Str b (Str c EmptyStr))), post. split; [reflexivity|].
  cbn [upper].
  rewrite (upper_char_of_Y a Ha), (upper_char_of_E b Hb).
  destruct Hc as [-> | ->]; reflexivity.
Qed.

(** C3, as amended.  The verdict is true exactly when the upper-cased
    text of the reply contains "YES", that is when the text has a [Y] and
    an [E], each in either case, followed by a character whose upper case
    starts with [S]: [S], [s], the sharp s, the long s or a ligature of s
    and t.  Text that contains "YES" up to letter case gives true, in the
    narrow and in the wide reading; text of ASCII characters gives true
    only then; every other text, the empty one included, gives false; and
    the context check returns [has_context] set to the verdict for every
    text of the reply, without raising. *)
Theorem check_context_verdict :
  (forall text, verdict text = true <-> upper_contains_yes text) /\
  (forall text, contains_yes_ci text -> verdict text = true) /\
  (forall text, contains_yes_up_to_case text -> verdict text = true) /\
  (forall text,
     is_ascii text = true -> (verdict text = true <-> contains_yes_ci text)) /\
  (forall text, ~ upper_contains_yes text -> verdict text = false) /\
  verdict "" = false /\
  (forall env s text,
     context_reply env (prompt s) text ->
     exists t b,
       check_context_node env s =
         (inr (mkUpdate None (Some b) None None), t) /\
       (b = true <-> upper_contains_yes text)).
Proof.
  split; [exact verdict_iff|].
  split.
  { intros text H. apply verdict_iff. now apply contains_yes_ci_upper. }
  split; [exact contains_yes_up_to_case_verdict|].
  split.
  { intros text Hascii. rewrite verdict_iff. split.
    - now apply upper_contains_yes_ascii.
    - apply contains_yes_ci_upper. }
  split.
  { intros text H. destruct (verdict text) eqn:E; [|reflexivity].
    apply verdict_iff in E. contradiction. }
  split; [reflexivity|].
  intros env s text Hreply.
  destruct (check_context_node_reply env s text Hreply) as (tm & Hnode & _).
  eexists. exists (verdict text). split; [exact Hnode | apply verdict_iff].
Qed.

(** The context check when its usage report raises: the run ends there,
    and nothing has been yielded. *)
Lemma check_context_report_raises env p resp e :
  client_invoke env (check_context_messages p) = inr resp ->
  fst (usage_metadata env (input_tokens (response_usage_metadata resp))
                          (output_tokens (response_usage_metadata resp))) = inl e ->
  fst (check_context_node env (initial_state p)) = inl e /\
  fst (app_astream env p) = inl e /\
  stream env p = ([], Some e).
Proof.
  intros Hinv Hfail.
  pose proof (usage_metadata_silent env
                (input_tokens (response_usage_metadata resp))
                (output_tokens (response_usage_metadata resp))) as (Hy & _).
  destruct (usage_metadata env _ _) as [r tm] eqn:E. cbn [fst snd] in Hfail, Hy.
  subst r.
  assert (Hnode : check_context_node env (initial_state p) =
                  (inl e, Call (CallInvoke (check_context_messages p)) :: tm)).
  { unfold check_context_node, call. cbn [prompt initial_state].
    rewrite Hinv, bind_inr, E. reflexivity. }
  assert (Hrun : app_astream env p =
                 (inl e, Emit values (ChunkState (initial_state p))
                         :: Call (CallInvoke (check_context_messages p)) :: tm)).
  { unfold app_astream, recursion_limit, tell. rewrite bind_inr.
    now rewrite (run_from_raise _ env check_context _ _ _ Hnode). }
  split; [now rewrite Hnode|]. split; [now rewrite Hrun|].
  unfold stream. rewrite Hrun. cbn. now rewrite Hy.
Qed.

(** The generation node when its usage report raises, after a stream that
    ended normally. *)
Lemma generate_answer_node_report_raises env s docs chunks e :
  documents s = Some docs ->
  client_astream env (rag_messages (context_of docs) (prompt s)) = (chunks, None) ->
  fst (usage_metadata env (total_input chunks) (total_output chunks)) = inl e ->
  exists tm,
    flat_map yielded tm = [] /\ nodes_of tm = [] /\
    generate_answer_node env s =
      (inl e,
       ([Call (CallAStream (rag_messages (context_of docs) (prompt s)))] ++
        map emit_fragment (fragments chunks) ++ tm)%list).
Proof.
  intros Hdocs Hstream Hfail.
  unfold generate_answer_node, state_documents. rewrite Hdocs.
  unfold ret at 1. rewrite bind_inr. fold (context_of docs). rewrite Hstream.
  unfold tell. rewrite bind_inr, consume_spec, bind_inr.
  unfold ret at 1. rewrite bind_inr. cbn [acc_input_tokens acc_output_tokens response_text].
  pose proof (usage_metadata_silent env (total_input chunks) (total_output chunks))
    as (Hy & Hn & _).
  destruct (usage_metadata env (total_input chunks) (total_output chunks))
    as [r tm] eqn:E.
  cbn [fst snd] in Hfail, Hy, Hn. subst r.
  exists tm. split; [exact Hy|]. split; [exact Hn|].
  cbn. rewrite E. reflexivity.
Qed.

(** A run that reaches the generation, whose usage report raises: the
    fragments have been yielded, and the run ends with the exception. *)
Lemma stream_report_raises env p text dense sparse docs chunks e :
  context_reply env p text ->
  verdict text = true ->
  search_dense env p = inr dense ->
  search_sparse env p = inr sparse ->
  (dense <> [] \/ sparse <> []) ->
  inference_rerank env (lower p) (merge_chunks sparse dense) 10 = inr docs ->
  docs <> [] ->
  client_astream env (rag_messages (context_of docs) p) = (chunks, None) ->
  fst (usage_metadata env (total_input chunks) (total_output chunks)) = inl e ->
  fst (app_astream env p) = inl e /\
  stream env p = (filter truthy (fragments chunks), Some e).
Proof.
  intros Hreply Hpos Hd Hs Hne Hrr Hdocs Hstream Hfail.
  destruct (app_astream_has_context env p text Hreply Hpos)
    as (tm & Hy & Hn & Hc & Hrun).
  cbv zeta in Hrun.
  pose proof (retrieve_rag_node_reranked env
                (mkState p None (Some true) None None) dense sparse Hd Hs Hne)
    as Hnode.
  cbn [prompt] in Hnode. rewrite Hrr in Hnode.
  assert (Hb : nonempty docs = true) by now destruct docs.
  rewrite Hb in Hnode.
  destruct (generate_answer_node_report_raises env
              (mkState p None (Some true) (Some true) (Some docs)) docs chunks e
              eq_refl Hstream Hfail) as (tg & Hyg & Hng & Hgen).
  cbn [prompt] in Hgen.
  assert (Hfull : app_astream env p =
    (inl e,
     [Emit values (ChunkState (initial_state p));
      Call (CallInvoke (check_context_messages p))] ++ tm ++
     [Emit updates (ChunkUpdate check_context (mkUpdate None (Some true) None None));
      Emit values (ChunkState (mkState p None (Some true) None None))] ++
     (search_events p ++
      [Call (CallRerank (lower p) (merge_chunks sparse dense) 10)]) ++
     [Emit updates (ChunkUpdate retrieve_rag (mkUpdate None None (Some true) (Some docs)));
      Emit values (ChunkState (mkState p None (Some true) (Some true) (Some docs)))] ++
     ([Call (CallAStream (rag_messages (context_of docs) p))] ++
      map emit_fragment (fragments chunks) ++ tg))%list).
  { rewrite Hrun, (run_from_step _ env retrieve_rag _ _ _ Hnode).
    cbn -[run_from search_events].
    rewrite (run_from_raise _ env generate_answer _ _ _ Hgen).
    cbn -[search_events]. rewrite <- ?app_assoc. reflexivity. }
  split; [now rewrite Hfull|].
  unfold stream. rewrite Hfull. f_equal.
  rewrite !yielded_app, Hy, Hyg, yielded_fragments. cbn.
  now rewrite !app_nil_r.
Qed.

(** C8, as amended.  Without a current run the usage report does nothing;
    with one it makes a single [add_metadata] call carrying the two counts
    and their sum, and its outcome is that call's outcome: there is no
    handler.  At both places where a model call is reported, the context
    check and the generation, an exception of the sink is raised by the
    node and ends the run: [stream] ends with that exception, after nothing
    in the first case and after the model's fragments in the second. *)
Theorem usage_metadata_behaviour env i o :
  (get_current_run_tree env = false ->
     usage_metadata env i o = (inr tt, [])) /\
  (get_current_run_tree env = true ->
     exists md,
       md_usage_metadata md = mkUsageMetadata i o (i + o) /\
       ls_model_name md = model_id env /\
       usage_metadata env i o =
         (run_add_metadata env md, [Call (CallAddMetadata md)])) /\
  (forall s resp e,
     client_invoke env (check_context_messages (prompt s)) = inr resp ->
     i = input_tokens (response_usage_metadata resp) ->
     o = output_tokens (response_usage_metadata resp) ->
     fst (usage_metadata env i o) = inl e ->
     fst (check_context_node env s) = inl e /\
     forall steps, fst (run_from (S steps) env check_context s) = inl e) /\
  (forall p resp e,
     client_invoke env (check_context_messages p) = inr resp ->
     i = input_tokens (response_usage_metadata resp) ->
     o = output_tokens (response_usage_metadata resp) ->
     fst (usage_metadata env i o) = inl e ->
     fst (app_astream env p) = inl e /\
     stream env p = ([], Some e)) /\
  (forall s docs chunks e,
     documents s = Some docs ->
     client_astream env (rag_messages (context_of docs) (prompt s)) = (chunks, None) ->
     i = total_input chunks ->
     o = total_output chunks ->
     fst (usage_metadata env i o) = inl e ->
     fst (generate_answer_node env s) = inl e /\
     forall steps, fst (run_from (S steps) env generate_answer s) = inl e) /\
  (forall p text dense sparse docs chunks e,
     context_reply env p text ->
     verdict text = true ->
     search_dense env p = inr dense ->
     search_sparse env p = inr sparse ->
     (dense <> [] \/ sparse <> []) ->
     inference_rerank env (lower p) (merge_chunks sparse dense) 10 = inr docs ->
     docs <> [] ->
     client_astream env (rag_messages (context_of docs) p) = (chunks, None) ->
     i = total_input chunks ->
     o = total_output chunks ->
     fst (usage_metadata env i o) = inl e ->
     fst (app_astream env p) = inl e /\
     stream env p = (filter truthy (fragments chunks), Some e)).
Proof.
  split; [|split; [|split; [|split; [|split]]]].
  - intros H. unfold usage_metadata. now rewrite H.
  - intros H. unfold usage_metadata. rewrite H.
    exists (mkMetadata (model_id env) "llm" "google_genai" 0 (7 # 10)
                       (mkUsageMetadata i o (i + o)) (model_id env) true).
    split; [|split]; reflexivity.
  - intros s resp e Hinv -> -> Hfail.
    assert (Hnode : exists t, check_context_node env s = (inl e, t)).
    { unfold check_context_node, call. rewrite Hinv, bind_inr.
      destruct (usage_metadata env _ _) as [r tm]. simpl in Hfail. subst r.
      eexists. reflexivity. }
    destruct Hnode as (t & Hnode). split; [now rewrite Hnode|].
    intros steps. now rewrite (run_from_raise steps env check_context s e t Hnode).
  - intros p resp e Hinv -> -> Hfail.
    now destruct (check_context_report_raises env p resp e Hinv Hfail) as (_ & H1 & H2).
  - intros s docs chunks e Hdocs Hstream -> -> Hfail.
    destruct (generate_answer_node_report_raises env s docs chunks e
                Hdocs Hstream Hfail) as (tm & _ & _ & Hnode).
    split; [now rewrite Hnode|].
    intros steps. now rewrite (run_from_raise steps env generate_answer s e _ Hnode).
  - intros p text dense sparse docs chunks e Hreply Hpos Hd Hs Hne Hrr Hdocs
           Hstream -> -> Hfail.
    now apply (stream_report_raises env p text dense sparse docs chunks e).
Qed.

(** **** Scenarios *)

(** C1. In scenario B the model streams "Par" and "is": [stream] yields
    these two fragments and then the whole answer "Paris" again, taken from
    the "values" event of the generation step, so that the yielded text is
    the answer twice over. *)
Theorem stream_repeats_answer :
  stream Scenarios.env_paris Scenarios.question = (["Par"; "is"; "Paris"], None) /\
  (exists s evs,
     app_astream Scenarios.env_paris Scenarios.question = (inr s, evs) /\
     answer s = Some "Paris") /\
  concat_all (fst (stream Scenarios.env_paris Scenarios.question))
    = "ParisParis" /\
  concat_all (fst (stream Scenarios.env_paris Scenarios.question)) <> "Paris".
Proof.
  split; [vm_compute; reflexivity|].
  split.
  { eexists. eexists. split; [vm_compute; reflexivity | reflexivity]. }
  split; [vm_compute; reflexivity|].
  vm_compute. discriminate.
Qed.

(** The general shape of the generation path, at scenario B. *)
Lemma stream_generate_path_paris :
  concat_all (fst (stream Scenarios.env_paris Scenarios.question))
  = concat_all (fragments Scenarios.paris_chunks)
    ++ concat_all (fragments Scenarios.paris_chunks).
Proof.
  apply (stream_generate_path Scenarios.env_paris Scenarios.question "YES"
           [Scenarios.paris_hit] []
           [mkRankedDoc (to_candidate Scenarios.paris_hit) 1%Q]
           Scenarios.paris_chunks).
  - exists (mkAIMessage ["YES"] (mkUsage 120 1)), [].
    split; [reflexivity|]. split; reflexivity.
  - reflexivity.
  - reflexivity.
  - reflexivity.
  - left. discriminate.
  - reflexivity.
  - discriminate.
  - reflexivity.
  - reflexivity.
Defined.

(** C8, as stated, fails: with a tracing sink that raises, the usage report
    of the context check raises, and the run that answers with a working
    sink ends with the sink's exception before anything is yielded; with a
    sink that raises on the report of the generation only, the run ends
    with the exception after the fragments. *)
Lemma telemetry_failure_fails_run :
  fst (usage_metadata Scenarios.env_sink_down 120 1) = inl Scenarios.sink_error /\
  stream Scenarios.env_sink_down Scenarios.question
    = ([], Some Scenarios.sink_error) /\
  stream Scenarios.env_sink_late Scenarios.question
    = (["Par"; "is"], Some Scenarios.sink_error) /\
  stream Scenarios.env_paris Scenarios.question
    = (["Par"; "is"; "Paris"], None).
Proof. repeat split; vm_compute; reflexivity. Qed.

Lemma no_context_refuses_witness :
  stream Scenarios.env_no Scenarios.question = ([refusal], None).
Proof.
  destruct (no_context_refuses Scenarios.env_no Scenarios.question "NO")
    as (s & evs & _ & _ & _ & _ & H).
  - exists (mkAIMessage ["NO"] (mkUsage 120 1)), [].
    split; [reflexivity|]. split; reflexivity.
  - reflexivity.
  - exact H.
Defined.

(** C3, as stated, fails: the sharp s is not an [S] in either case, and
    no part of "YEß" is "YES" up to letter case, but the upper case of
    "YEß" is "YESS", so that this reply counts as positive; so does "yeſ",
    whose long s is neither [S] nor [s]. *)
Lemma reply_with_sharp_s_is_positive :
  verdict "YEß" = true /\
  ~ contains_yes_ci "YEß" /\
  ~ contains_yes_up_to_case "YEß" /\
  fst (check_context_node Scenarios.env_sharp_s
         (initial_state Scenarios.question))
    = inr (mkUpdate None (Some true) None None) /\
  verdict "yeſ" = true /\ ~ contains_yes_ci "yeſ".
Proof.
  split; [vm_compute; reflexivity|].
  split.
  { intros (pre & a & b & c & post & E & _ & _ & Hc).
    destruct pre as [|p0 [|p1 [|p2 [|p3 pre]]]]; cbn [append] in E;
      try discriminate E.
    injection E as _ _ <- _. destruct Hc as [Hc|Hc]; discriminate Hc. }
  split.
  { intros (pre & mid & post & E & H).
    destruct pre as [|p0 [|p1 [|p2 [|p3 pre]]]];
      destruct mid as [|m0 [|m1 [|m2 [|m3 mid]]]];
      cbn [append] in E; try discriminate E;
      try (injection E; intros; subst); vm_compute in H; discriminate H. }
  split; [vm_compute; reflexivity|].
  split; [vm_compute; reflexivity|].
  intros (pre & a & b & c & post & E & _ & _ & Hc).
  destruct pre as [|p0 [|p1 [|p2 [|p3 pre]]]]; cbn [append] in E;
    try discriminate E.
  injection E as _ _ <- _. destruct Hc as [Hc|Hc]; discriminate Hc.
Qed.

Lemma check_context_verdict_witness :
  exists t b,
    check_context_node Scenarios.env_sharp_s (initial_state Scenarios.question) =
      (inr (mkUpdate None (Some b) None None), t) /\
    (b = true <-> upper_contains_yes "YEß").
Proof.
  apply (proj2 (proj2 (proj2 (proj2 (proj2 (proj2 check_context_verdict)))))
           Scenarios.env_sharp_s (initial_state Scenarios.question) "YEß").
  exists (mkAIMessage ["YEß"] (mkUsage 120 1)), [].
  split; [reflexivity|]. split; reflexivity.
Defined.

Lemma empty_retrieval_refuses_witness :
  stream Scenarios.env_empty Scenarios.question = ([refusal], None).
Proof.
  destruct (proj2 empty_retrieval_refuses
              Scenarios.env_empty Scenarios.question "Yes.")
    as (s & evs & _ & _ & _ & _ & _ & H).
  - exists (mkAIMessage ["Yes."] (mkUsage 120 1)), [].
    split; [reflexivity|]. split; reflexivity.
  - reflexivity.
  - reflexivity.
  - reflexivity.
  - exact H.
Defined.


Lemma retrieve_rag_state_invariant_witness :
  exists u t b,
    retrieve_rag_node Scenarios.env_paris
      (mkState Scenarios.question None (Some true) None None) = (inr u, t) /\
    upd_has_documents u = Some b /\
    (b = true <-> exists docs, upd_documents u = Some docs /\ docs <> []).
Proof.
  eassert (E : retrieve_rag_node Scenarios.env_paris
                 (mkState Scenarios.question None (Some true) None None)
               = (inr _, _)).
  { vm_compute. reflexivity. }
  destruct (retrieve_rag_state_invariant _ _ _ _ E) as (_ & b & H1 & H2 & _).
  eexists. eexists. exists b. split; [exact E|]. split; [exact H1 | exact H2].
Defined.

Lemma usage_metadata_behaviour_witness :
  (fst (app_astream Scenarios.env_sink_down Scenarios.question)
     = inl Scenarios.sink_error /\
   stream Scenarios.env_sink_down Scenarios.question
     = ([], Some Scenarios.sink_error)) /\
  (fst (app_astream Scenarios.env_sink_late Scenarios.question)
     = inl Scenarios.sink_error /\
   stream Scenarios.env_sink_late Scenarios.question
     = (filter truthy (fragments Scenarios.paris_chunks),
        Some Scenarios.sink_error)).
Proof.
  split.
  - apply (proj1 (proj2 (proj2 (proj2
             (usage_metadata_behaviour Scenarios.env_sink_down 120 1))))
             Scenarios.question (mkAIMessage ["YES"] (mkUsage 120 1)));
      reflexivity.
  - apply (proj2 (proj2 (proj2 (proj2 (proj2
             (usage_metadata_behaviour Scenarios.env_sink_late 200 2)))))
             Scenarios.question "YES" [Scenarios.paris_hit] []
             [mkRankedDoc (to_candidate Scenarios.paris_hit) 1%Q]
             Scenarios.paris_chunks).
    + exists (mkAIMessage ["YES"] (mkUsage 120 1)), [].
      split; [reflexivity|]. split; reflexivity.
    + reflexivity.
    + reflexivity.
    + reflexivity.
    + left. discriminate.
    + reflexivity.
    + discriminate.
    + reflexivity.
    + reflexivity.
    + reflexivity.
    + reflexivity.
Defined.

Lemma merge_keeps_dense_hit_witness :
  exists h,
    last_hit "a" Scenarios.dense_hits = Some h /\
    In h Scenarios.dense_hits /\ hit_id h = "a" /\
    In h (sorted_hits Scenarios.sparse_hits Scenarios.dense_hits) /\
    (forall c, In c (merge_chunks Scenarios.sparse_hits Scenarios.dense_hits) ->
               _id c = "a" -> c = to_candidate h) /\
    count_occ PyStr.str_dec
      (map _id (merge_chunks Scenarios.sparse_hits Scenarios.dense_hits)) "a" = 1.
Proof.
  destruct (merge_keeps_dense_hit Scenarios.env_hybrid
              (mkState Scenarios.question None (Some true) None None)
              Scenarios.dense_hits Scenarios.sparse_hits Scenarios.paris_hit)
    as (_ & h & H1 & H2 & H3 & H4 & _ & _ & H7 & H8 & _).
  - reflexivity.
  - reflexivity.
  - simpl. left. reflexivity.
  - exists h. repeat split; assumption.
Defined.

End WorkflowProofs.

(* --------------------------------------------------------------------- *)
(** *** Ingestion *)

Module KnowledgeBaseProofs.
Import PyStr Eff KnowledgeBase KnowledgeBaseSpec PyStrFacts EffFacts.
Local Open Scope eff_scope.

(** The extension of [stem ++ "." ++ suf] is the lower case of [suf],
    which the stem does not touch when [suf] has no capital sigma. *)
Lemma ext_of_suffix stem suf :
  occurs "." suf = false -> occurs "Σ" suf = false ->
  ext_of (stem ++ "." ++ suf) = lower suf.
Proof.
  intros H Hsigma. unfold ext_of.
  change (stem ++ "." ++ suf) with (stem ++ Str "." suf).
  destruct (lower_app_dot stem suf Hsigma) as (front & ->).
  apply last_piece_split_suffix. now rewrite occurs_lower_dot.
Qed.

(** A suffix whose lower case is one of the three extensions has no
    capital sigma. *)
Lemma ext_of_suffix_known stem suf ext :
  occurs "." suf = false -> lower suf = ext ->
  occurs "ς" ext = false -> occurs "σ" ext = false ->
  ext_of (stem ++ "." ++ suf) = ext.
Proof.
  intros H <- H1 H2. apply ext_of_suffix; [exact H|].
  now apply lower_sigma_free.
Qed.

Lemma upload_body_outcome env filename content :
  (ingestion_ok env filename content /\
   fst (upload_body env filename content) = inr success_response) \/
  (~ ingestion_ok env filename content /\
   exists e, fst (upload_body env filename content) = inl e).
Proof.
  unfold upload_body, ingestion_ok.
  destruct (_extract_text env filename content) as [[e | text] t0].
  { right. split; [|now exists e].
    intros (text & t1 & texts & H & _). discriminate. }
  rewrite bind_inr, truthy_strip, negb_involutive.
  destruct (all_chars isspace text) eqn:Hblank.
  { right. split; [|eexists; reflexivity].
    intros (text' & t1 & texts & H & Hb & _). injection H as <- _. congruence. }
  unfold ret at 1. rewrite bind_inr. unfold call.
  destruct (split_text env 500 50 text) as [e | texts] eqn:Hsplit.
  { right. split; [|eexists; reflexivity].
    intros (text' & t1 & texts & H & _ & Hs & _). injection H as <- _. congruence. }
  rewrite bind_inr.
  destruct (upsert_records env dense_index_name namespace
              (make_records env filename 0 texts)) as [e | []] eqn:Hdense.
  { right. split; [|eexists; reflexivity].
    intros (text' & t1 & texts' & H & _ & Hs & Hd & _). injection H as <- _.
    rewrite Hsplit in Hs. injection Hs as <-. congruence. }
  rewrite bind_inr.
  destruct (upsert_records env sparse_index_name namespace
              (make_records env filename 0 texts)) as [e | []] eqn:Hsparse.
  { right. split; [|eexists; reflexivity].
    intros (text' & t1 & texts' & H & _ & Hs & _ & Hsp). injection H as <- _.
    rewrite Hsplit in Hs. injection Hs as <-. congruence. }
  left. split; [|reflexivity].
  exists text, t0, texts. now repeat split.
Qed.

(** C7. [upload_document] always returns a response: the success response
    exactly when the whole ingestion went through, and otherwise the fixed
    failure response, which does not depend on the exception; extracted text
    that [strip] leaves empty (the empty text, or white space only) and a
    failing extraction are two such cases, and the exception is only
    printed. *)
Theorem upload_document_never_raises env filename content :
  exists r t,
    upload_document env filename content = (inr r, t) /\
    (r = success_response \/ r = failure_response) /\
    (r = success_response <-> ingestion_ok env filename content) /\
    (forall e, fst (upload_body env filename content) = inl e ->
               r = failure_response /\ In (Printed e) t) /\
    (forall text t0,
       _extract_text env filename content = (inr text, t0) ->
       all_chars isspace text = true -> r = failure_response) /\
    (forall text t0,
       _extract_text env filename content = (inr text, t0) ->
       strip text = "" -> r = failure_response) /\
    (forall e t0,
       _extract_text env filename content = (inl e, t0) ->
       r = failure_response).
Proof.
  destruct (upload_body_outcome env filename content) as [[Hok Hb] | [Hko [e He]]].
  - unfold upload_document, catch.
    destruct (upload_body env filename content) as [[e | r] t]; simpl in Hb;
      [discriminate|]. injection Hb as ->.
    exists success_response, t. split; [reflexivity|].
    split; [now left|].
    split; [tauto|].
    split; [intros e He; discriminate|].
    destruct Hok as (text & t0 & texts & Hx & Hblank & _).
    split.
    { intros text' t1 Hx' Hb'. rewrite Hx in Hx'. injection Hx' as <- _. congruence. }
    split.
    { intros text' t1 Hx' Hb'. rewrite Hx in Hx'. injection Hx' as <- _.
      apply strip_empty_iff in Hb'. congruence. }
    intros e t1 Hx'. rewrite Hx in Hx'. discriminate.
  - unfold upload_document, catch.
    destruct (upload_body env filename content) as [[e' | r] t]; simpl in He;
      [|discriminate]. injection He as ->.
    exists failure_response, (t ++ [Printed e])%list. split; [reflexivity|].
    split; [now right|].
    split; [split; [discriminate | contradiction]|].
    split.
    { intros e0 H0. injection H0 as ->. split; [reflexivity|].
      apply in_or_app. right. now left. }
    repeat split; reflexivity.
Qed.

Lemma route_accepts_iff filename :
  endswith_any filename accepted_suffixes = true <->
  exists stem, filename = stem ++ ".pdf" \/ filename = stem ++ ".docx" \/
               filename = stem ++ ".txt".
Proof.
  unfold endswith_any, accepted_suffixes. cbn [existsb].
  rewrite !orb_true_iff, !endswith_iff. split.
  - intros [[stem H] | [[stem H] | [[stem H] | H]]]; try discriminate H;
      exists stem; tauto.
  - intros [stem [H | [H | H]]]; eauto.
Qed.

(** C10. [_extract_text] picks the reader by the lower-cased text after
    the last dot, so a suffix equal to "pdf", "docx" or "txt" up to letter
    case selects the matching reader; the route accepts exactly the names
    ending in the literal ".pdf", ".docx" or ".txt", and answers 400 before
    the service is called for any other name, "file.PDF" among them, which
    the service would have read as a PDF. *)
Theorem extension_case_inconsistent :
  (forall env stem suf content,
     occurs "." suf = false ->
     (lower suf = "pdf" ->
        _extract_text env (stem ++ "." ++ suf) content = _read_pdf env content) /\
     (lower suf = "docx" ->
        _extract_text env (stem ++ "." ++ suf) content = _read_docx env content) /\
     (lower suf = "txt" ->
        _extract_text env (stem ++ "." ++ suf) content = _read_txt env content)) /\
  (forall filename,
     endswith_any filename accepted_suffixes = true <->
     exists stem, filename = stem ++ ".pdf" \/ filename = stem ++ ".docx" \/
                  filename = stem ++ ".txt") /\
  (forall env filename content,
     endswith_any filename accepted_suffixes = false ->
     route_upload_document env filename content =
       (inr (HTTPException 400 unsupported_detail), [])) /\
  (forall env content,
     route_upload_document env "file.PDF" content =
       (inr (HTTPException 400 unsupported_detail), []) /\
     _extract_text env "file.PDF" content = _read_pdf env content).
Proof.
  split.
  { intros env stem suf content Hdot.
    unfold _extract_text.
    repeat split; intros E;
      rewrite (ext_of_suffix_known stem suf _ Hdot E eq_refl eq_refl);
      reflexivity. }
  split; [exact route_accepts_iff|].
  split.
  { intros env filename content H. unfold route_upload_document.
    now rewrite H. }
  intros env content. split; reflexivity.
Qed.

(** **** Scenarios *)

Lemma upload_document_never_raises_witness :
  fst (upload_document Scenarios.kb_env "notes.txt" unicode_blank)
  = inr failure_response.
Proof.
  destruct (upload_document_never_raises Scenarios.kb_env "notes.txt" unicode_blank)
    as (r & t & Hrun & _ & _ & _ & _ & Hblank & _).
  rewrite Hrun. simpl. f_equal.
  apply (Hblank unicode_blank [CallReadTxt unicode_blank]); reflexivity.
Defined.

Lemma extension_case_inconsistent_witness :
  _extract_text Scenarios.kb_env ("Report" ++ "." ++ "PdF") "%PDF-1.7"
  = _read_pdf Scenarios.kb_env "%PDF-1.7".
Proof.
  apply (proj1 (proj1 extension_case_inconsistent
                  Scenarios.kb_env "Report" "PdF" "%PDF-1.7" eq_refl)).
  reflexivity.
Defined.

End KnowledgeBaseProofs.

(* --------------------------------------------------------------------- *)
(** *** The workflow: runs, failures and the merge *)

Module WorkflowExtras.
Import PyStr PyDict Eff Workflow WorkflowSpec ExtraSpec.
Import PyStrFacts PyDictFacts EffFacts WorkflowProofs.
Local Open Scope eff_scope.

Lemma stages_app a b : stages (a ++ b) = (stages a ++ stages b)%list.
Proof.
  unfold stages. now rewrite calls_of_app, map_app, filter_app.
Qed.

Lemma quiet_app a b : quiet a -> quiet b -> quiet (a ++ b).
Proof.
  intros [Ha1 Ha2] [Hb1 Hb2]. split.
  - now rewrite yielded_app, Ha1, Hb1.
  - now rewrite nodes_of_app, Ha2, Hb2.
Qed.

Lemma quiet_call c : quiet [Call c].
Proof. now split. Qed.

Lemma quiet_cons_call c t : quiet t -> quiet (Call c :: t).
Proof. intros H. apply (quiet_app [Call c] t); [apply quiet_call | exact H]. Qed.

Lemma stages_cons_call c t : stages (Call c :: t) = (stages [Call c] ++ stages t)%list.
Proof. apply (stages_app [Call c] t). Qed.

Lemma quiet_nil : quiet [].
Proof. now split. Qed.

(** The telemetry step adds no stage and nothing to the stream. *)
Lemma usage_metadata_quiet env i o :
  quiet (snd (usage_metadata env i o)) /\ stages (snd (usage_metadata env i o)) = [].
Proof.
  destruct (usage_metadata_events env i o) as [-> | [md ->]]; now repeat split.
Qed.

(** The outcomes of the context check. *)
Lemma check_context_node_cases env s :
  exists r t,
    check_context_node env s = (r, t) /\ quiet t /\ stages t = [KInvoke] /\
    ((exists e, r = inl e) \/
     (exists b, r = inr (mkUpdate None (Some b) None None))).
Proof.
  unfold check_context_node, call.
  destruct (client_invoke env (check_context_messages (prompt s))) as [e | resp].
  { eexists. eexists. split; [reflexivity|].
    split; [apply quiet_call|]. split; [reflexivity|]. left. eexists. reflexivity. }
  rewrite bind_inr.
  destruct (usage_metadata_quiet env (input_tokens (response_usage_metadata resp))
              (output_tokens (response_usage_metadata resp))) as [Hq Hs].
  destruct (usage_metadata env _ _) as [[e | []] tm]; simpl in Hq, Hs.
  { eexists. eexists. split; [reflexivity|]. cbn -[stages quiet].
    split; [apply quiet_cons_call; exact Hq|].
    split; [rewrite stages_cons_call, Hs; reflexivity|]. left. eexists. reflexivity. }
  rewrite bind_inr.
  destruct (response_content resp) as [|text rest]; cbn -[stages quiet].
  - eexists. eexists. split; [reflexivity|].
    rewrite app_nil_r.
    split; [apply quiet_cons_call; exact Hq|].
    split; [rewrite stages_cons_call, Hs; reflexivity|]. left. eexists. reflexivity.
  - eexists. eexists. split; [reflexivity|].
    rewrite app_nil_r.
    split; [apply quiet_cons_call; exact Hq|].
    split; [rewrite stages_cons_call, Hs; reflexivity|]. right. eexists. reflexivity.
Qed.

(** The outcomes of the retrieval. *)
Lemma retrieve_rag_node_cases env s :
  exists r t,
    retrieve_rag_node env s = (r, t) /\ quiet t /\
    (((exists e, r = inl e) /\
      In (stages t) [[KSearchDense]; [KSearchDense; KSearchSparse];
                     [KSearchDense; KSearchSparse; KRerank]]) \/
     (r = inr (mkUpdate None None (Some false) None) /\
      stages t = [KSearchDense; KSearchSparse]) \/
     (exists docs,
        r = inr (mkUpdate None None (Some (nonempty docs)) (Some docs)) /\
        reranked env (prompt s) docs /\
        stages t = [KSearchDense; KSearchSparse; KRerank])).
Proof.
  unfold reranked, search_dense, search_sparse, retrieve_rag_node, call.
  destruct (index_search env dense_index_name namespace 40 (lower (prompt s)))
    as [e | dense].
  { eexists. eexists. split; [reflexivity|]. split; [apply quiet_call|].
    left. split; [eexists; reflexivity | now left]. }
  rewrite bind_inr.
  destruct (index_search env sparse_index_name namespace 40 (lower (prompt s)))
    as [e | sparse].
  { eexists. eexists. split; [reflexivity|]. split; [now split|].
    left. split; [eexists; reflexivity | right; now left]. }
  rewrite bind_inr.
  destruct ((length dense =? 0) && (length sparse =? 0)) eqn:Eempty.
  { eexists. eexists. split; [reflexivity|]. split; [now split|].
    right. left. now split. }
  assert (Hne : dense <> [] \/ sparse <> []).
  { destruct dense; [|left; discriminate].
    destruct sparse; [discriminate Eempty | right; discriminate]. }
  destruct (inference_rerank env (lower (prompt s)) (merge_chunks sparse dense) 10)
    as [e | docs] eqn:Hr.
  - eexists. eexists. split; [reflexivity|]. split; [now split|].
    left. split; [eexists; reflexivity | right; right; now left].
  - eexists. eexists. split; [reflexivity|]. split; [now split|].
    right. right. exists docs. split; [reflexivity|].
    split; [|reflexivity]. exists dense, sparse. auto.
Qed.

(** The outcomes of the generation, when the state has documents. *)
Lemma generate_answer_node_cases env s docs :
  documents s = Some docs ->
  exists r t chunks tm,
    generate_answer_node env s = (r, t) /\
    fst (client_astream env (rag_messages (context_of docs) (prompt s))) = chunks /\
    t = ([Call (CallAStream (rag_messages (context_of docs) (prompt s)))] ++
         map emit_fragment (fragments chunks) ++ tm)%list /\
    quiet tm /\ stages tm = [] /\
    ((exists e, r = inl e) \/
     (snd (client_astream env (rag_messages (context_of docs) (prompt s))) = None /\
      r = inr (mkUpdate (Some (concat_all (fragments chunks))) None None None))).
Proof.
  intros Hdocs.
  unfold generate_answer_node, state_documents. rewrite Hdocs.
  unfold ret at 1. rewrite bind_inr. fold (context_of docs).
  destruct (client_astream env (rag_messages (context_of docs) (prompt s)))
    as [chunks failure].
  unfold tell. rewrite bind_inr, consume_spec, bind_inr.
  destruct failure as [e|].
  { exists (inl e), ([Call (CallAStream (rag_messages (context_of docs) (prompt s)))] ++
         map emit_fragment (fragments chunks) ++ [])%list, chunks, [].
    split; [cbn; now rewrite !app_nil_r|].
    split; [reflexivity|]. split; [reflexivity|].
    split; [apply quiet_nil|]. split; [reflexivity|]. left. eexists. reflexivity. }
  unfold ret at 1. rewrite bind_inr.
  cbn [acc_input_tokens acc_output_tokens response_text].
  destruct (usage_metadata_quiet env (0 + total_input chunks) (0 + total_output chunks))
    as [Hq Hs].
  destruct (usage_metadata env (0 + total_input chunks) (0 + total_output chunks))
    as [[e | []] tm]; simpl in Hq, Hs.
  - eexists. eexists. exists chunks, tm.
    split; [cbn; reflexivity|].
    repeat (split; [first [reflexivity | assumption]|]). left. eexists. reflexivity.
  - eexists. eexists. exists chunks, tm.
    split; [cbn; now rewrite app_nil_r|].
    repeat (split; [first [reflexivity | assumption]|]). right. now split.
Qed.

Lemma stages_fragments frs : stages (map emit_fragment frs) = [].
Proof. induction frs as [|x l IH]; [reflexivity | exact IH]. Qed.

Ltac split_events :=
  rewrite ?nodes_of_app, ?stages_app, ?yielded_app.

(** Every run from the entry point has one of the shapes. *)
Lemma run_from_shape n env p :
  shape_of env p (run_from (S (S (S n))) env check_context (initial_state p)).
Proof.
  unfold shape_of.
  destruct (check_context_node_cases env (initial_state p))
    as (r1 & t1 & H1 & [Hy1 Hn1] & Hs1 & [[e ->] | [b ->]]).
  { rewrite (run_from_raise _ env check_context _ _ _ H1). cbn [fst snd].
    rewrite Hy1, Hn1, Hs1. constructor. }
  rewrite (run_from_step _ env check_context _ _ _ H1).
  destruct b; cbn -[run_from nodes_of stages yielded app].
  2:{ rewrite run_from_cannot_answer. cbn [fst snd]. split_events.
      rewrite Hy1, Hn1, Hs1. apply ShapeNoContext. }
  set (s1 := mkState p None (Some true) None None).
  destruct (retrieve_rag_node_cases env s1)
    as (r2 & t2 & H2 & [Hy2 Hn2] & Hcase).
  destruct Hcase as [[[e ->] Hst] | [[-> Hs2] | (docs & -> & Hrr & Hs2)]].
  { rewrite (run_from_raise _ env retrieve_rag _ _ _ H2). cbn [fst snd].
    split_events. rewrite Hy1, Hn1, Hs1, Hy2, Hn2.
    apply (ShapeRetrieveRaises env p e (stages t2) Hst). }
  { rewrite (run_from_step _ env retrieve_rag _ _ _ H2).
    cbn -[run_from nodes_of stages yielded app].
    rewrite run_from_cannot_answer. cbn [fst snd]. split_events.
    rewrite Hy1, Hn1, Hs1, Hy2, Hn2, Hs2. apply ShapeNoHits. }
  rewrite (run_from_step _ env retrieve_rag _ _ _ H2).
  cbn [prompt s1] in Hrr.
  destruct docs as [|doc docs]; cbn -[run_from nodes_of stages yielded app].
  { rewrite run_from_cannot_answer. cbn [fst snd]. split_events.
    rewrite Hy1, Hn1, Hs1, Hy2, Hn2, Hs2. apply ShapeNoDocuments. }
  set (s2 := mkState p None (Some true) (Some true) (Some (doc :: docs))).
  destruct (generate_answer_node_cases env s2 (doc :: docs) eq_refl)
    as (r3 & t3 & chunks & tm & H3 & Hchunks & -> & [Hy3 Hn3] & Hs3
        & [[e ->] | [Hend ->]]).
  { rewrite (run_from_raise _ env generate_answer _ _ _ H3). cbn [fst snd].
    split_events.
    rewrite Hy1, Hn1, Hs1, Hy2, Hn2, Hs2, Hy3, Hn3, Hs3.
    rewrite yielded_fragments, nodes_of_fragments, stages_fragments.
    cbn. rewrite app_nil_r. rewrite <- Hchunks.
    apply (ShapeGenerateRaises env p e (doc :: docs)); [discriminate | exact Hrr]. }
  rewrite (run_from_step _ env generate_answer _ _ _ H3).
  cbn -[run_from nodes_of stages yielded app]. split_events.
  rewrite Hy1, Hn1, Hs1, Hy2, Hn2, Hs2, Hy3, Hn3, Hs3.
  rewrite yielded_fragments, nodes_of_fragments, stages_fragments.
  cbn. rewrite !app_nil_r. rewrite <- Hchunks.
  apply (ShapeAnswered env p (doc :: docs)); [discriminate | exact Hrr | exact Hend].
Qed.

Lemma app_astream_run env p :
  app_astream env p =
    (fst (run_from recursion_limit env check_context (initial_state p)),
     ([Emit values (ChunkState (initial_state p))] ++
      snd (run_from recursion_limit env check_context (initial_state p)))%list).
Proof. unfold app_astream, tell. now rewrite bind_inr. Qed.

Lemma app_astream_shape env p : shape_of env p (app_astream env p).
Proof.
  rewrite app_astream_run. unfold shape_of. cbn [fst snd]. split_events.
  exact (run_from_shape 22 env p).
Qed.

(** A step from a node without outgoing edge is the last. *)
Lemma run_from_terminal n env nd s :
  nd = generate_answer \/ nd = cannot_answer ->
  run_from (S n) env nd s = run_from 1 env nd s.
Proof.
  intros Hnd. cbn [run_from].
  destruct (node_fn env nd s) as [[e | u] t]; [reflexivity|].
  rewrite !bind_inr. unfold tell. rewrite !bind_inr. unfold lift.
  assert (E : build_graph nd (apply_update s u) = inr None)
    by (destruct Hnd; subst; reflexivity).
  rewrite E. reflexivity.
Qed.

Lemma build_graph_retrieve_rag s n' :
  build_graph retrieve_rag s = inr (Some n') ->
  n' = generate_answer \/ n' = cannot_answer.
Proof.
  unfold build_graph, retrieve_rag_condition.
  destruct (has_documents s) as [[|]|]; cbn; intros H;
    try discriminate H; injection H as <-; auto.
Qed.

Lemma build_graph_check_context s n' :
  build_graph check_context s = inr (Some n') ->
  n' = retrieve_rag \/ n' = cannot_answer.
Proof.
  unfold build_graph, check_context_condition.
  destruct (has_context s) as [[|]|]; cbn; intros H;
    try discriminate H; injection H as <-; auto.
Qed.

Lemma run_from_retrieve_rag n env s :
  run_from (S (S n)) env retrieve_rag s = run_from 2 env retrieve_rag s.
Proof.
  destruct (node_fn env retrieve_rag s) as [[e | u] t] eqn:H.
  { now rewrite !(run_from_raise _ env retrieve_rag _ _ _ H). }
  rewrite !(run_from_step _ env retrieve_rag _ _ _ H). cbv zeta.
  destruct (build_graph retrieve_rag (apply_update s u)) as [e | [n' |]] eqn:E;
    try reflexivity.
  apply build_graph_retrieve_rag in E.
  now rewrite (run_from_terminal n env n' _ E).
Qed.

Lemma run_from_check_context n env s :
  run_from (S (S (S n))) env check_context s = run_from 3 env check_context s.
Proof.
  destruct (node_fn env check_context s) as [[e | u] t] eqn:H.
  { now rewrite !(run_from_raise _ env check_context _ _ _ H). }
  rewrite !(run_from_step _ env check_context _ _ _ H). cbv zeta.
  destruct (build_graph check_context (apply_update s u)) as [e | [n' |]] eqn:E;
    try reflexivity.
  apply build_graph_check_context in E. destruct E as [-> | ->].
  - now rewrite (run_from_retrieve_rag n env).
  - rewrite (run_from_terminal (S n) env cannot_answer); [|auto].
    rewrite (run_from_terminal 1 env cannot_answer); [|auto]. reflexivity.
Qed.

(** X1. A run from the entry point takes at most three steps: any step
    bound of three or more gives the same run, so the library's limit of 25
    is never what ends a run. *)
Theorem run_within_three_steps env p steps :
  3 <= steps ->
  run_from steps env check_context (initial_state p) =
  run_from 3 env check_context (initial_state p).
Proof.
  intros H. destruct steps as [|[|[|n]]]; try lia.
  apply run_from_check_context.
Qed.

(** X2. The nodes that complete in a run, in order, are a path of the
    graph from [check_context]: retrieval only after the context check,
    generation only after the retrieval, refusal after either, and never
    both generation and refusal. *)
Theorem run_paths env p :
  In (nodes_of (snd (app_astream env p)))
     [[]; [check_context]; [check_context; cannot_answer];
      [check_context; retrieve_rag];
      [check_context; retrieve_rag; cannot_answer];
      [check_context; retrieve_rag; generate_answer]].
Proof.
  destruct (app_astream_shape env p); simpl; auto 10.
Qed.

(** X3. Whatever the collaborators answer, the external calls of a run
    (telemetry aside) are an initial part of: model call, dense search,
    sparse search, rerank, model stream, each at most once. *)
Theorem run_stage_order env p :
  exists rest, (stages (snd (app_astream env p)) ++ rest)%list = all_stages.
Proof.
  destruct (app_astream_shape env p) as [ | | e st Hst | | | | ].
  - now exists [KSearchDense; KSearchSparse; KRerank; KAStream].
  - now exists [KSearchDense; KSearchSparse; KRerank; KAStream].
  - destruct Hst as [<- | [<- | [<- | []]]].
    + now exists [KSearchSparse; KRerank; KAStream].
    + now exists [KRerank; KAStream].
    + now exists [KAStream].
  - now exists [KRerank; KAStream].
  - now exists [KAStream].
  - now exists [].
  - now exists [].
Qed.

Lemma stream_app_astream env p :
  stream env p =
    (flat_map yielded (snd (app_astream env p)),
     match fst (app_astream env p) with inl e => Some e | inr _ => None end).
Proof. unfold stream. now destruct (app_astream env p). Qed.

(** X4. A run that ends normally keeps the prompt and has set the answer:
    either the refusal text, with [has_documents] not true and [stream]
    yielding exactly the refusal; or, with [has_context] and
    [has_documents] true, the documents being the non-empty list the
    reranker returned for the merged hits, the concatenation of the
    fragments of the chunks the model streamed for these documents, the
    stream having ended normally; [stream] then yields the fragments with
    text and, after them, that answer. *)
Theorem run_success_state env p s evs :
  app_astream env p = (inr s, evs) ->
  prompt s = p /\
  ((answer s = Some refusal /\ has_documents s <> Some true /\
    stream env p = ([refusal], None)) \/
   (has_context s = Some true /\ has_documents s = Some true /\
    exists docs chunks,
      documents s = Some docs /\ docs <> [] /\
      reranked env p docs /\
      client_astream env (rag_messages (context_of docs) p) = (chunks, None) /\
      answer s = Some (concat_all (fragments chunks)) /\
      stream env p =
        ((filter truthy (fragments chunks) ++
          (if truthy (concat_all (fragments chunks))
           then [concat_all (fragments chunks)] else []))%list,
         None))).
Proof.
  intros Hrun.
  pose proof (app_astream_shape env p) as H. unfold shape_of in H.
  rewrite stream_app_astream. rewrite Hrun in *. cbn [fst snd] in *.
  inversion H as [ | | | | | | docs Hne Hrr Hend final Hs Hnodes Hstages Hyield];
    subst; cbn.
  - split; [reflexivity|]. left. repeat split. discriminate.
  - split; [reflexivity|]. left. repeat split. discriminate.
  - split; [reflexivity|]. left. repeat split. discriminate.
  - split; [reflexivity|]. right.
    split; [reflexivity|]. split; [reflexivity|].
    exists docs, (streamed env p docs).
    split; [reflexivity|]. split; [exact Hne|]. split; [exact Hrr|].
    split.
    { unfold streamed.
      destruct (client_astream env (rag_messages (context_of docs) p)) as [c f].
      cbn in Hend |- *. now subst f. }
    split; reflexivity.
Qed.

(** X5. When a run raises and the model's stream was never started,
    [stream] yields nothing before the exception. *)
Theorem failure_before_generation_yields_nothing env p e :
  snd (stream env p) = Some e ->
  ~ In KAStream (stages (snd (app_astream env p))) ->
  fst (stream env p) = [].
Proof.
  rewrite stream_app_astream. cbn [fst snd].
  destruct (app_astream_shape env p); cbn; intros Hfail Hnot;
    try discriminate Hfail; try reflexivity.
  elim Hnot. auto 10.
Qed.

Lemma yielded_truthy evs : Forall (fun a => a <> EmptyStr) (flat_map yielded evs).
Proof.
  induction evs as [|ev evs IH]; simpl; [constructor|].
  apply Forall_app. split; [|exact IH].
  destruct ev as [c | mode chunk]; [constructor|].
  unfold yielded.
  destruct (existsb (mode_eqb mode) [custom; values]); [|constructor].
  destruct (chunk_get_answer chunk) as [a|]; [|constructor].
  destruct a; simpl; constructor; [discriminate | constructor].
Qed.

(** X6. [stream] never yields an empty string; a chunk of the model whose
    first block is the empty text changes neither the accumulated answer
    nor what is yielded. *)
Theorem stream_yields_nonempty :
  (forall env p, Forall (fun a => a <> EmptyStr) (fst (stream env p))) /\
  (forall acc rest,
     flat_map yielded
       (snd (consume acc (mkChunk [EmptyStr] None :: rest))) =
     flat_map yielded (snd (consume acc rest)) /\
     fst (consume acc (mkChunk [EmptyStr] None :: rest)) =
     fst (consume acc rest)).
Proof.
  split.
  - intros env p. rewrite stream_app_astream. apply yielded_truthy.
  - intros [txt i o] rest. rewrite !consume_spec. split; reflexivity.
Qed.

(** X7. When the model call of the context check raises, the run ends with
    that exception after this one call: nothing is yielded, no usage is
    reported, no index is queried. *)
Theorem invoke_failure_is_fatal env p e :
  client_invoke env (check_context_messages p) = inl e ->
  app_astream env p =
    (inl e, [Emit values (ChunkState (initial_state p));
             Call (CallInvoke (check_context_messages p))]) /\
  stream env p = ([], Some e).
Proof.
  intros H.
  assert (Hnode : node_fn env check_context (initial_state p) =
                  (inl e, [Call (CallInvoke (check_context_messages p))])).
  { cbn [node_fn]. unfold check_context_node, call. cbn [prompt initial_state].
    now rewrite H. }
  assert (Hrun : app_astream env p =
    (inl e, [Emit values (ChunkState (initial_state p));
             Call (CallInvoke (check_context_messages p))])).
  { rewrite app_astream_run. unfold recursion_limit.
    now rewrite (run_from_raise _ env check_context _ _ _ Hnode). }
  split; [exact Hrun|]. unfold stream. now rewrite Hrun.
Qed.

(** X8. A reply of the context check without any content block makes the
    node raise [IndexError], after the usage of the call has been reported;
    [stream] yields nothing and ends with that exception. *)
Theorem empty_reply_raises_index_error env p resp :
  client_invoke env (check_context_messages p) = inr resp ->
  response_content resp = [] ->
  telemetry_ok env (input_tokens (response_usage_metadata resp))
                   (output_tokens (response_usage_metadata resp)) ->
  check_context_node env (initial_state p) =
    (inl IndexError,
     Call (CallInvoke (check_context_messages p))
     :: snd (usage_metadata env (input_tokens (response_usage_metadata resp))
                            (output_tokens (response_usage_metadata resp)))) /\
  stream env p = ([], Some IndexError).
Proof.
  intros Hinv Hc Htel. unfold telemetry_ok in Htel.
  assert (Hnode : check_context_node env (initial_state p) =
    (inl IndexError,
     Call (CallInvoke (check_context_messages p))
     :: snd (usage_metadata env (input_tokens (response_usage_metadata resp))
                            (output_tokens (response_usage_metadata resp))))).
  { unfold check_context_node, call. cbn [prompt initial_state].
    rewrite Hinv, bind_inr.
    destruct (usage_metadata env _ _) as [r tm]. cbn [fst snd] in *. subst r.
    rewrite bind_inr, Hc. cbn. now rewrite app_nil_r. }
  split; [exact Hnode|].
  rewrite stream_app_astream, app_astream_run. unfold recursion_limit.
  rewrite (run_from_raise _ env check_context _ _ _ Hnode). cbn [fst snd].
  f_equal. rewrite yielded_app. cbn.
  destruct (usage_metadata_quiet env (input_tokens (response_usage_metadata resp))
              (output_tokens (response_usage_metadata resp))) as [[Hy _] _].
  exact Hy.
Qed.

(** The run after a positive verdict, in terms of the run from the
    retrieval. *)
Lemma stream_has_context env p text :
  context_reply env p text ->
  verdict text = true ->
  stream env p =
    (flat_map yielded
       (snd (run_from 24 env retrieve_rag (mkState p None (Some true) None None))),
     match fst (run_from 24 env retrieve_rag (mkState p None (Some true) None None))
     with inl e => Some e | inr _ => None end) /\
  exists tm, stages tm = [] /\
    stages (snd (app_astream env p)) =
      (KInvoke :: stages tm ++
       stages (snd (run_from 24 env retrieve_rag
                      (mkState p None (Some true) None None))))%list.
Proof.
  intros (resp & rest & Hinv & Hc & Htel) Hpos. unfold telemetry_ok in Htel.
  destruct (usage_metadata_quiet env (input_tokens (response_usage_metadata resp))
              (output_tokens (response_usage_metadata resp))) as [[Hy Hn] Hs].
  assert (Hnode : node_fn env check_context (initial_state p) =
    (inr (mkUpdate None (Some true) None None),
     [Call (CallInvoke (check_context_messages p))] ++
     snd (usage_metadata env (input_tokens (response_usage_metadata resp))
                         (output_tokens (response_usage_metadata resp))))%list).
  { cbn [node_fn]. unfold check_context_node, call. cbn [prompt initial_state].
    rewrite Hinv, bind_inr.
    destruct (usage_metadata env _ _) as [r tm]. cbn [fst snd] in *. subst r.
    rewrite bind_inr, Hc. cbn. now rewrite app_nil_r, Hpos. }
  rewrite stream_app_astream, app_astream_run. unfold recursion_limit.
  rewrite (run_from_step _ env check_context _ _ _ Hnode).
  cbn -[run_from yielded stages app]. split.
  - f_equal. rewrite !yielded_app, Hy. reflexivity.
  - eexists. split; [exact Hs|]. rewrite !stages_app, Hs. reflexivity.
Qed.

(** X9. After a positive verdict a failing search ends the run with its
    exception and nothing yielded; when the dense search fails the sparse
    index is not queried, and when the sparse search fails the reranker is
    not called. *)
Theorem search_failure_is_fatal env p text e :
  context_reply env p text ->
  verdict text = true ->
  (search_dense env p = inl e ->
     stream env p = ([], Some e) /\
     stages (snd (app_astream env p)) = [KInvoke; KSearchDense]) /\
  (forall dense,
     search_dense env p = inr dense ->
     search_sparse env p = inl e ->
     stream env p = ([], Some e) /\
     stages (snd (app_astream env p)) = [KInvoke; KSearchDense; KSearchSparse]).
Proof.
  intros Hreply Hpos.
  destruct (stream_has_context env p text Hreply Hpos) as (Hst & tm & Htm & Hsg).
  set (s1 := mkState p None (Some true) None None) in *.
  split.
  - intros Hd.
    assert (Hnode : node_fn env retrieve_rag s1 =
              (inl e, [Call (CallSearch dense_index_name namespace 40 (lower p))])).
    { cbn [node_fn]. unfold retrieve_rag_node, call, s1. cbn [prompt].
      unfold search_dense in Hd. now rewrite Hd. }
    rewrite (run_from_raise _ env retrieve_rag _ _ _ Hnode) in Hst, Hsg.
    split; [exact Hst|]. now rewrite Hsg, Htm.
  - intros dense Hd Hs.
    assert (Hnode : node_fn env retrieve_rag s1 = (inl e, search_events p)).
    { cbn [node_fn]. unfold retrieve_rag_node, call, s1. cbn [prompt].
      unfold search_dense in Hd. unfold search_sparse in Hs.
      now rewrite Hd, bind_inr, Hs. }
    rewrite (run_from_raise _ env retrieve_rag _ _ _ Hnode) in Hst, Hsg.
    split; [exact Hst|]. now rewrite Hsg, Htm.
Qed.

(** X10. When the reranker raises, the run ends with its exception: nothing
    is yielded, and the model's stream is not started. *)
Theorem rerank_failure_is_fatal env p text dense sparse e :
  context_reply env p text ->
  verdict text = true ->
  search_dense env p = inr dense ->
  search_sparse env p = inr sparse ->
  (dense <> [] \/ sparse <> []) ->
  inference_rerank env (lower p) (merge_chunks sparse dense) 10 = inl e ->
  stream env p = ([], Some e) /\
  stages (snd (app_astream env p)) =
    [KInvoke; KSearchDense; KSearchSparse; KRerank].
Proof.
  intros Hreply Hpos Hd Hs Hne Hrr.
  destruct (stream_has_context env p text Hreply Hpos) as (Hst & tm & Htm & Hsg).
  pose proof (retrieve_rag_node_reranked env
                (mkState p None (Some true) None None) dense sparse Hd Hs Hne)
    as Hnode.
  cbn [prompt] in Hnode. rewrite Hrr in Hnode.
  rewrite (run_from_raise _ env retrieve_rag _ _ _ Hnode) in Hst, Hsg.
  split; [exact Hst|]. now rewrite Hsg, Htm.
Qed.

(** X11. The retrieval stage uses the prompt only lower-cased: two states
    whose prompts have the same lower case get the same searches, the same
    rerank call and the same result, and every query the stage sends to an
    index or to the reranker is that lower-cased prompt. *)
Theorem retrieval_ignores_case env s s' :
  lower (prompt s) = lower (prompt s') ->
  retrieve_rag_node env s = retrieve_rag_node env s' /\
  forall c, In (Call c) (snd (retrieve_rag_node env s)) ->
    (exists index, c = CallSearch index namespace 40 (lower (prompt s'))) \/
    (exists cands, c = CallRerank (lower (prompt s')) cands 10).
Proof.
  intros H. split; [unfold retrieve_rag_node; now rewrite H|].
  rewrite <- H. unfold retrieve_rag_node, call.
  destruct (index_search env dense_index_name namespace 40 (lower (prompt s)))
    as [e | dense].
  { intros c [Hc | []]. injection Hc as <-. left. eexists. reflexivity. }
  rewrite bind_inr.
  destruct (index_search env sparse_index_name namespace 40 (lower (prompt s)))
    as [e | sparse].
  { intros c [Hc | [Hc | []]]; injection Hc as <-; left; eexists; reflexivity. }
  rewrite bind_inr.
  destruct ((length dense =? 0) && (length sparse =? 0)).
  { intros c [Hc | [Hc | []]]; injection Hc as <-; left; eexists; reflexivity. }
  destruct (inference_rerank env (lower (prompt s)) (merge_chunks sparse dense) 10)
    as [e | docs]; cbn;
    intros c [Hc | [Hc | [Hc | []]]]; injection Hc as <-;
    first [left; eexists; reflexivity | right; eexists; reflexivity].
Qed.

Lemma metadata_of_app a b :
  metadata_of (a ++ b) = (metadata_of a ++ metadata_of b)%list.
Proof. unfold metadata_of. now rewrite calls_of_app, flat_map_app. Qed.

Lemma metadata_of_fragments frs : metadata_of (map emit_fragment frs) = [].
Proof. induction frs as [|x l IH]; [reflexivity | exact IH]. Qed.

(** The generation node on a stream that breaks off. *)
Lemma generate_answer_node_breaks env s docs chunks e :
  documents s = Some docs ->
  client_astream env (rag_messages (context_of docs) (prompt s)) = (chunks, Some e) ->
  generate_answer_node env s =
    (inl e,
     ([Call (CallAStream (rag_messages (context_of docs) (prompt s)))] ++
      map emit_fragment (fragments chunks))%list).
Proof.
  intros Hdocs Hstream.
  unfold generate_answer_node, state_documents. rewrite Hdocs.
  unfold ret at 1. rewrite bind_inr. fold (context_of docs). rewrite Hstream.
  unfold tell. rewrite bind_inr, consume_spec, bind_inr.
  cbn. now rewrite app_nil_r.
Qed.

(** X12. When the model's stream breaks off with an exception, [stream]
    has yielded the fragments with text received so far, in order, and then
    ends with that exception; the generation reports no usage and the run
    has no answer. *)
Theorem stream_breaks_off env p text dense sparse docs chunks e :
  context_reply env p text ->
  verdict text = true ->
  search_dense env p = inr dense ->
  search_sparse env p = inr sparse ->
  (dense <> [] \/ sparse <> []) ->
  inference_rerank env (lower p) (merge_chunks sparse dense) 10 = inr docs ->
  docs <> [] ->
  client_astream env (rag_messages (context_of docs) p) = (chunks, Some e) ->
  stream env p = (filter truthy (fragments chunks), Some e) /\
  fst (app_astream env p) = inl e /\
  metadata_of
    (snd (generate_answer_node env
            (mkState p None (Some true) (Some true) (Some docs)))) = [].
Proof.
  intros Hreply Hpos Hd Hs Hne Hrr Hdocs Hstream.
  destruct (stream_has_context env p text Hreply Hpos) as (Hst & _).
  pose proof (retrieve_rag_node_reranked env
                (mkState p None (Some true) None None) dense sparse Hd Hs Hne)
    as Hnode.
  cbn [prompt] in Hnode. rewrite Hrr in Hnode.
  assert (Hb : nonempty docs = true) by now destruct docs.
  rewrite Hb in Hnode.
  pose proof (generate_answer_node_breaks env
                (mkState p None (Some true) (Some true) (Some docs)) docs chunks e
                eq_refl Hstream) as Hgen.
  cbn [prompt] in Hgen.
  assert (Hrun : run_from 24 env retrieve_rag (mkState p None (Some true) None None) =
    (inl e,
     ((search_events p ++
       [Call (CallRerank (lower p) (merge_chunks sparse dense) 10)]) ++
      [Emit updates (ChunkUpdate retrieve_rag (mkUpdate None None (Some true) (Some docs)));
       Emit values (ChunkState (mkState p None (Some true) (Some true) (Some docs)))]) ++
     ([Call (CallAStream (rag_messages (context_of docs) p))] ++
      map emit_fragment (fragments chunks)))%list).
  { rewrite (run_from_step _ env retrieve_rag _ _ _ Hnode).
    cbn -[run_from search_events app].
    now rewrite (run_from_raise _ env generate_answer _ _ _ Hgen). }
  split.
  { rewrite Hst, Hrun. cbn [fst snd]. f_equal.
    rewrite !yielded_app, yielded_fragments. reflexivity. }
  split.
  { rewrite stream_app_astream in Hst. rewrite Hrun in Hst. cbn [fst snd] in Hst.
    destruct (fst (app_astream env p)); [|discriminate].
    now injection Hst as _ ->. }
  rewrite Hgen. cbn [snd].
  now rewrite metadata_of_app, metadata_of_fragments.
Qed.

(** X13. In a traced run the generation reports usage once, after the last
    fragment was written to the stream, with the input and output counts
    summed over all chunks of the stream and their total. *)
Theorem generation_usage_report env s docs chunks :
  documents s = Some docs ->
  client_astream env (rag_messages (context_of docs) (prompt s)) = (chunks, None) ->
  get_current_run_tree env = true ->
  exists md,
    md_usage_metadata md =
      mkUsageMetadata (total_input chunks) (total_output chunks)
                      (total_input chunks + total_output chunks) /\
    snd (generate_answer_node env s) =
      ([Call (CallAStream (rag_messages (context_of docs) (prompt s)))] ++
       map emit_fragment (fragments chunks) ++
       [Call (CallAddMetadata md)])%list /\
    metadata_of (snd (generate_answer_node env s)) = [md].
Proof.
  intros Hdocs Hstream Htraced.
  exists (mkMetadata (model_id env) "llm" "google_genai" 0 (7 # 10)
            (mkUsageMetadata (total_input chunks) (total_output chunks)
                             (total_input chunks + total_output chunks))
            (model_id env) true).
  split; [reflexivity|].
  assert (E : snd (generate_answer_node env s) =
      ([Call (CallAStream (rag_messages (context_of docs) (prompt s)))] ++
       map emit_fragment (fragments chunks) ++
       [Call (CallAddMetadata
          (mkMetadata (model_id env) "llm" "google_genai" 0 (7 # 10)
            (mkUsageMetadata (total_input chunks) (total_output chunks)
                             (total_input chunks + total_output chunks))
            (model_id env) true))])%list).
  { unfold generate_answer_node, state_documents. rewrite Hdocs.
    unfold ret at 1. rewrite bind_inr. fold (context_of docs). rewrite Hstream.
    unfold tell. rewrite bind_inr, consume_spec, bind_inr.
    unfold ret at 1. rewrite bind_inr.
    unfold usage_metadata, call. rewrite Htraced.
    cbn [acc_input_tokens acc_output_tokens response_text Nat.add].
    destruct (run_add_metadata env _); cbn; now rewrite ?app_nil_r. }
  split; [exact E|].
  rewrite E. now rewrite !metadata_of_app, metadata_of_fragments.
Qed.

Lemma in_sorted_hits h1 h2 h :
  In h (sorted_hits h1 h2) <-> last_hit (hit_id h) (h1 ++ h2) = Some h.
Proof.
  rewrite <- in_deduped_hits.
  split; apply Permutation_in;
    [ | apply Permutation_sym ]; apply sorted_hits_perm.
Qed.

(** X14. Every candidate of the merge is the projection of a hit of one of
    the two lists; the merge is no longer than the two lists together, and
    it is empty only when both lists are. *)
Theorem merge_chunks_from_inputs h1 h2 :
  (forall c, In c (merge_chunks h1 h2) ->
             exists h, In h (h1 ++ h2) /\ c = to_candidate h) /\
  length (merge_chunks h1 h2) <= length h1 + length h2 /\
  (merge_chunks h1 h2 = [] <-> h1 = [] /\ h2 = []).
Proof.
  split; [|split].
  - intros c Hc. unfold merge_chunks in Hc.
    apply in_map_iff in Hc as (h & <- & Hh).
    apply in_sorted_hits in Hh.
    destruct (last_with_some PyStr.eqb PyStrFacts.eqb_eq _ _ _ _ Hh) as [Hin _].
    eauto.
  - rewrite <- length_app, <- (length_map hit_id (h1 ++ h2)).
    rewrite <- (length_map _id (merge_chunks h1 h2)), ids_merge_chunks.
    apply NoDup_incl_length; [apply nodup_ids_sorted_hits|].
    intros i Hi. now apply in_ids_sorted_hits.
  - split.
    + intros E.
      assert (Hnone : forall i, ~ In i (map hit_id (h1 ++ h2))).
      { intros i Hi. apply in_ids_sorted_hits in Hi.
        rewrite <- ids_merge_chunks, E in Hi. exact Hi. }
      destruct h1 as [|x h1]; [destruct h2 as [|x h2]; [auto|] |];
        exfalso; apply (Hnone (hit_id x)); simpl; auto.
    + intros [-> ->]. reflexivity.
Qed.

Lemma nodup_map_injective {A B} (f : A -> B) l x y :
  NoDup (map f l) -> In x l -> In y l -> f x = f y -> x = y.
Proof.
  induction l as [|a l IH]; simpl; [tauto|].
  intros Hnd Hx Hy E. inversion Hnd as [|? ? Hnin Hnd']; subst.
  destruct Hx as [-> | Hx], Hy as [-> | Hy]; try reflexivity.
  - elim Hnin. rewrite E. now apply in_map.
  - elim Hnin. rewrite <- E. now apply in_map.
  - now apply IH.
Qed.

(** X15. When no identifier occurs twice in the two lists, the merge is a
    rearrangement of the projections of all the hits: nothing is
    dropped. *)
Theorem merge_chunks_distinct_ids h1 h2 :
  NoDup (map hit_id (h1 ++ h2)) ->
  Permutation (merge_chunks h1 h2) (map to_candidate (h1 ++ h2)) /\
  length (merge_chunks h1 h2) = length h1 + length h2.
Proof.
  intros Hnd.
  assert (Hperm : Permutation (sorted_hits h1 h2) (h1 ++ h2)).
  { apply NoDup_Permutation.
    - apply (NoDup_map_inv hit_id), nodup_ids_sorted_hits.
    - apply (NoDup_map_inv hit_id), Hnd.
    - intros h. rewrite in_sorted_hits. split.
      + intros H. now destruct (last_with_some PyStr.eqb PyStrFacts.eqb_eq _ _ _ _ H).
      + intros Hin.
        destruct (last_with_in PyStr.eqb PyStrFacts.eqb_eq hit_id (h1 ++ h2) (hit_id h))
          as [x Hx]; [now apply in_map|].
        unfold last_hit. rewrite Hx. f_equal.
        destruct (last_with_some PyStr.eqb PyStrFacts.eqb_eq _ _ _ _ Hx) as [Hxin Hxid].
        exact (nodup_map_injective hit_id _ x h Hnd Hxin Hin Hxid). }
  split.
  - unfold merge_chunks. now apply Permutation_map.
  - unfold merge_chunks. rewrite length_map, (Permutation_length Hperm).
    apply length_app.
Qed.

(** X16. Swapping the two hit lists does not change which identifiers the
    merge returns (only which copy of a shared identifier is kept, and the
    order). *)
Theorem merge_chunks_ids_commute h1 h2 :
  Permutation (map _id (merge_chunks h1 h2)) (map _id (merge_chunks h2 h1)).
Proof.
  rewrite !ids_merge_chunks.
  apply NoDup_Permutation; try apply nodup_ids_sorted_hits.
  intros i. rewrite !in_ids_sorted_hits, !map_app, !in_app_iff. tauto.
Qed.

(** **** Instances *)

Lemma run_within_three_steps_witness :
  run_from recursion_limit Scenarios.env_paris check_context
           (initial_state Scenarios.question) =
  run_from 3 Scenarios.env_paris check_context (initial_state Scenarios.question).
Proof.
  apply run_within_three_steps. unfold recursion_limit. lia.
Defined.

Lemma run_success_state_witness :
  exists s evs,
    app_astream Scenarios.env_paris Scenarios.question = (inr s, evs) /\
    prompt s = Scenarios.question.
Proof.
  eassert (E : app_astream Scenarios.env_paris Scenarios.question = (inr _, _)).
  { vm_compute. reflexivity. }
  eexists. eexists. split; [exact E|].
  exact (proj1 (run_success_state _ _ _ _ E)).
Defined.

Lemma failure_before_generation_yields_nothing_witness :
  fst (stream env_dense_down Scenarios.question) = [].
Proof.
  apply (failure_before_generation_yields_nothing
           env_dense_down Scenarios.question outage).
  - vm_compute. reflexivity.
  - vm_compute. intros [H | [H | []]]; discriminate H.
Defined.

Lemma invoke_failure_is_fatal_witness :
  stream env_invoke_down Scenarios.question = ([], Some outage).
Proof.
  apply (invoke_failure_is_fatal env_invoke_down Scenarios.question outage).
  reflexivity.
Defined.

Lemma empty_reply_raises_index_error_witness :
  stream env_empty_reply Scenarios.question = ([], Some IndexError).
Proof.
  apply (empty_reply_raises_index_error env_empty_reply Scenarios.question
           (mkAIMessage [] (mkUsage 120 0))); reflexivity.
Defined.

Lemma search_failure_is_fatal_witness :
  stream env_dense_down Scenarios.question = ([], Some outage) /\
  stages (snd (app_astream env_dense_down Scenarios.question)) =
    [KInvoke; KSearchDense].
Proof.
  apply (search_failure_is_fatal env_dense_down Scenarios.question "YES" outage).
  - exists (mkAIMessage ["YES"] (mkUsage 120 1)), [].
    split; [reflexivity|]. split; reflexivity.
  - reflexivity.
  - reflexivity.
Defined.

Lemma rerank_failure_is_fatal_witness :
  stream env_rerank_down Scenarios.question = ([], Some outage) /\
  stages (snd (app_astream env_rerank_down Scenarios.question)) =
    [KInvoke; KSearchDense; KSearchSparse; KRerank].
Proof.
  apply (rerank_failure_is_fatal env_rerank_down Scenarios.question "YES"
           [Scenarios.paris_hit] [] outage).
  - exists (mkAIMessage ["YES"] (mkUsage 120 1)), [].
    split; [reflexivity|]. split; reflexivity.
  - reflexivity.
  - reflexivity.
  - reflexivity.
  - left. discriminate.
  - reflexivity.
Defined.

Lemma retrieval_ignores_case_witness :
  retrieve_rag_node Scenarios.env_paris (initial_state "ÉCOLE, où?") =
  retrieve_rag_node Scenarios.env_paris (initial_state "école, OÙ?").
Proof.
  apply retrieval_ignores_case. reflexivity.
Defined.

Lemma stream_breaks_off_witness :
  stream env_stream_breaks Scenarios.question = (["Par"], Some outage).
Proof.
  apply (stream_breaks_off env_stream_breaks Scenarios.question "YES"
           [Scenarios.paris_hit] []
           [mkRankedDoc (to_candidate Scenarios.paris_hit) 1%Q]
           [mkChunk ["Par"] None] outage).
  - exists (mkAIMessage ["YES"] (mkUsage 120 1)), [].
    split; [reflexivity|]. split; reflexivity.
  - reflexivity.
  - reflexivity.
  - reflexivity.
  - left. discriminate.
  - reflexivity.
  - discriminate.
  - reflexivity.
Defined.

Lemma generation_usage_report_witness :
  exists md,
    md_usage_metadata md = mkUsageMetadata 200 2 202 /\
    metadata_of
      (snd (generate_answer_node Scenarios.env_paris
              (mkState Scenarios.question None (Some true) (Some true)
                 (Some [mkRankedDoc (to_candidate Scenarios.paris_hit) 1%Q]))))
    = [md].
Proof.
  destruct (generation_usage_report Scenarios.env_paris
              (mkState Scenarios.question None (Some true) (Some true)
                 (Some [mkRankedDoc (to_candidate Scenarios.paris_hit) 1%Q]))
              [mkRankedDoc (to_candidate Scenarios.paris_hit) 1%Q]
              Scenarios.paris_chunks eq_refl eq_refl eq_refl)
    as (md & Hu & _ & Hm).
  exists md. split; [exact Hu | exact Hm].
Defined.

Lemma merge_chunks_from_inputs_witness :
  length (merge_chunks Scenarios.sparse_hits Scenarios.dense_hits)
  <= length Scenarios.sparse_hits + length Scenarios.dense_hits.
Proof.
  exact (proj1 (proj2 (merge_chunks_from_inputs
                         Scenarios.sparse_hits Scenarios.dense_hits))).
Defined.

Lemma merge_chunks_distinct_ids_witness :
  length (merge_chunks Scenarios.dense_hits []) = length Scenarios.dense_hits + 0.
Proof.
  apply (merge_chunks_distinct_ids Scenarios.dense_hits []).
  simpl. constructor.
  - simpl. intros [H | []]. discriminate H.
  - constructor; [simpl; tauto | constructor].
Defined.

End WorkflowExtras.

(* --------------------------------------------------------------------- *)
(** *** Ingestion: the service, the readers and the route *)

Module KnowledgeBaseExtras.
Import PyStr Eff KnowledgeBase KnowledgeBaseSpec IngestionSpec Readers.
Import PyStrFacts EffFacts KnowledgeBaseProofs.
Local Open Scope eff_scope.

(** X17. For a file name whose extension is none of "pdf", "docx", "txt",
    [_extract_text] raises [ValueError] without calling a reader, and
    [upload_document] answers with the failure response having touched
    neither the splitter nor an index. *)
Theorem unsupported_extension_touches_nothing env filename content :
  ext_of filename <> "pdf" ->
  ext_of filename <> "docx" ->
  ext_of filename <> "txt" ->
  _extract_text env filename content =
    (inl (ValueError "Unsupported file type"), []) /\
  upload_document env filename content =
    (inr failure_response, [Printed (ValueError "Unsupported file type")]).
Proof.
  intros Hpdf Hdocx Htxt.
  assert (E : _extract_text env filename content =
              (inl (ValueError "Unsupported file type"), [])).
  { unfold _extract_text.
    destruct (PyStrFacts.eqb_spec (ext_of filename) "pdf"); [contradiction|].
    destruct (PyStrFacts.eqb_spec (ext_of filename) "docx"); [contradiction|].
    destruct (PyStrFacts.eqb_spec (ext_of filename) "txt"); [contradiction|].
    reflexivity. }
  split; [exact E|].
  unfold upload_document, upload_body. now rewrite E.
Qed.

(** X18. A file name the route accepts ends in ".pdf", ".docx" or ".txt",
    and [_extract_text] then calls the reader of that format: through the
    route the service never raises "Unsupported file type". *)
Theorem accepted_name_selects_reader env filename content :
  endswith_any filename accepted_suffixes = true ->
  (exists stem, filename = stem ++ ".pdf" /\
     _extract_text env filename content = _read_pdf env content) \/
  (exists stem, filename = stem ++ ".docx" /\
     _extract_text env filename content = _read_docx env content) \/
  (exists stem, filename = stem ++ ".txt" /\
     _extract_text env filename content = _read_txt env content).
Proof.
  intros H. apply route_accepts_iff in H as [stem [-> | [-> | ->]]].
  - left. exists stem. split; [reflexivity|].
    unfold _extract_text.
    change (stem ++ ".pdf") with (stem ++ "." ++ "pdf").
    now rewrite (ext_of_suffix stem "pdf" eq_refl).
  - right. left. exists stem. split; [reflexivity|].
    unfold _extract_text.
    change (stem ++ ".docx") with (stem ++ "." ++ "docx").
    now rewrite (ext_of_suffix stem "docx" eq_refl).
  - right. right. exists stem. split; [reflexivity|].
    unfold _extract_text.
    change (stem ++ ".txt") with (stem ++ "." ++ "txt").
    now rewrite (ext_of_suffix stem "txt" eq_refl).
Qed.

Lemma upload_document_total env filename content :
  exists r t, upload_document env filename content = (inr r, t) /\
              (r = success_response \/ r = failure_response).
Proof.
  unfold upload_document, catch.
  destruct (upload_body_outcome env filename content) as [[_ Hb] | [_ [e He]]];
    destruct (upload_body env filename content) as [[e' | r] t];
    simpl in *; try discriminate.
  - injection Hb as ->. eexists. eexists. split; [reflexivity | now left].
  - eexists. eexists. split; [reflexivity | now right].
Qed.

(** X19. The upload route never raises: it answers 400 with the fixed
    detail, without calling the service, exactly for the names it does not
    accept, and otherwise passes on the service's response, which is the
    success or the failure response. *)
Theorem route_answers env filename content :
  exists res t,
    route_upload_document env filename content = (inr res, t) /\
    (res = HTTPException 400 unsupported_detail /\ t = [] /\
       endswith_any filename accepted_suffixes = false \/
     endswith_any filename accepted_suffixes = true /\
       (res = Responded success_response \/ res = Responded failure_response) /\
       t = snd (upload_document env filename content)).
Proof.
  unfold route_upload_document.
  destruct (endswith_any filename accepted_suffixes) eqn:E; cbn [negb].
  - destruct (upload_document_total env filename content) as (r & t & Hrun & Hr).
    rewrite Hrun, bind_inr. cbn. rewrite app_nil_r.
    eexists. eexists. split; [reflexivity|]. right.
    split; [reflexivity|]. split; [|reflexivity].
    destruct Hr as [-> | ->]; auto.
  - eexists. eexists. split; [reflexivity|]. left. auto.
Qed.

(** Blank text: the exception of the service, and nothing after the
    extraction. *)
Lemma upload_document_blank env filename content text t0 :
  _extract_text env filename content = (inr text, t0) ->
  all_chars isspace text = true ->
  upload_document env filename content =
    (inr failure_response,
     (t0 ++ [Printed (ValueError "No readable text found in document")])%list).
Proof.
  intros Hx Hblank. unfold upload_document, upload_body.
  rewrite Hx, bind_inr, truthy_strip, Hblank. cbn. now rewrite app_nil_r.
Qed.

(** X20. When the extracted text is empty or white space only, the upload
    fails with the failure response, and after the extraction nothing
    happens but the printing of the exception: no split, no upsert. *)
Theorem blank_text_writes_nothing env filename content text t0 :
  _extract_text env filename content = (inr text, t0) ->
  all_chars isspace text = true ->
  upload_document env filename content =
    (inr failure_response,
     (t0 ++ [Printed (ValueError "No readable text found in document")])%list) /\
  forall ev, In ev (snd (upload_document env filename content)) ->
             In ev t0 \/ ev = Printed (ValueError "No readable text found in document").
Proof.
  intros Hx Hblank.
  rewrite (upload_document_blank env filename content text t0 Hx Hblank).
  split; [reflexivity|]. cbn [snd]. intros ev Hin.
  apply in_app_iff in Hin as [H | [<- | []]]; auto.
Qed.

(** X21. When the dense index refuses the records, the upload answers with
    the failure response and the sparse index is not written. *)
Theorem dense_failure_skips_sparse env filename content text t0 texts e :
  _extract_text env filename content = (inr text, t0) ->
  all_chars isspace text = false ->
  split_text env 500 50 text = inr texts ->
  upsert_records env dense_index_name namespace (records_of env filename texts)
    = inl e ->
  upload_document env filename content =
    (inr failure_response,
     (t0 ++ [CallSplitText text;
             CallUpsert dense_index_name namespace (records_of env filename texts);
             Printed e])%list).
Proof.
  intros Hx Hblank Hsplit Hdense. unfold upload_document, upload_body, call.
  rewrite Hx, bind_inr, truthy_strip, Hblank. cbn [negb].
  unfold ret at 1. rewrite bind_inr, Hsplit, bind_inr.
  unfold records_of in Hdense. rewrite Hdense. cbn.
  now rewrite <- app_assoc.
Qed.

(** X22. When the sparse index refuses the records, the upload answers with
    the failure response although the dense index has already taken them:
    the two writes are not atomic. *)
Theorem sparse_failure_leaves_dense_written env filename content text t0 texts e :
  _extract_text env filename content = (inr text, t0) ->
  all_chars isspace text = false ->
  split_text env 500 50 text = inr texts ->
  upsert_records env dense_index_name namespace (records_of env filename texts)
    = inr tt ->
  upsert_records env sparse_index_name namespace (records_of env filename texts)
    = inl e ->
  upload_document env filename content =
    (inr failure_response,
     (t0 ++ [CallSplitText text;
             CallUpsert dense_index_name namespace (records_of env filename texts);
             CallUpsert sparse_index_name namespace (records_of env filename texts);
             Printed e])%list).
Proof.
  intros Hx Hblank Hsplit Hdense Hsparse.
  unfold upload_document, upload_body, call.
  rewrite Hx, bind_inr, truthy_strip, Hblank. cbn [negb].
  unfold ret at 1. rewrite bind_inr, Hsplit, bind_inr.
  unfold records_of in Hdense, Hsparse. rewrite Hdense, bind_inr, Hsparse. cbn.
  now rewrite <- app_assoc.
Qed.

Lemma make_records_texts env filename d texts :
  map rec_chunk_text (make_records env filename d texts) = texts.
Proof.
  revert d; induction texts as [|x l IH]; intros d; simpl;
    [reflexivity | now rewrite IH].
Qed.

Lemma make_records_ids env filename d texts :
  map rec_id (make_records env filename d texts) =
  map (uuid4 env) (seq d (length texts)).
Proof.
  revert d; induction texts as [|x l IH]; intros d; simpl;
    [reflexivity | now rewrite IH].
Qed.

Lemma make_records_filename env filename d texts :
  Forall (fun r => rec_filename r = filename) (make_records env filename d texts).
Proof.
  revert d; induction texts as [|x l IH]; intros d; simpl;
    constructor; [reflexivity | apply IH].
Qed.

Lemma nodup_map_of_injective {A B} (f : A -> B) l :
  (forall x y, f x = f y -> x = y) -> NoDup l -> NoDup (map f l).
Proof.
  intros Hinj. induction 1 as [|x l Hnin Hnd IH]; simpl; constructor; [|exact IH].
  intros Hin. apply in_map_iff in Hin as (y & E & Hy).
  apply Hinj in E. now subst.
Qed.

(** X23. A successful upload writes the same records to the dense and then
    to the sparse index: one record per chunk, in order, each with the
    chunk's text and the file name; the identifiers are distinct when the
    identifier source never repeats. *)
Theorem successful_upload_writes_both env filename content text t0 texts :
  _extract_text env filename content = (inr text, t0) ->
  all_chars isspace text = false ->
  split_text env 500 50 text = inr texts ->
  upsert_records env dense_index_name namespace (records_of env filename texts)
    = inr tt ->
  upsert_records env sparse_index_name namespace (records_of env filename texts)
    = inr tt ->
  upload_document env filename content =
    (inr success_response,
     (t0 ++ [CallSplitText text;
             CallUpsert dense_index_name namespace (records_of env filename texts);
             CallUpsert sparse_index_name namespace (records_of env filename texts)])%list) /\
  map rec_chunk_text (records_of env filename texts) = texts /\
  Forall (fun r => rec_filename r = filename) (records_of env filename texts) /\
  ((forall i j, uuid4 env i = uuid4 env j -> i = j) ->
   NoDup (map rec_id (records_of env filename texts))).
Proof.
  intros Hx Hblank Hsplit Hdense Hsparse. split; [|split; [|split]].
  - unfold upload_document, upload_body, call.
    rewrite Hx, bind_inr, truthy_strip, Hblank. cbn [negb].
    unfold ret at 1. rewrite bind_inr, Hsplit, bind_inr.
    unfold records_of in Hdense, Hsparse. rewrite Hdense, bind_inr, Hsparse. cbn.
    rewrite <- ?app_assoc. reflexivity.
  - apply make_records_texts.
  - apply make_records_filename.
  - intros Hinj. unfold records_of. rewrite make_records_ids.
    apply nodup_map_of_injective; [exact Hinj | apply seq_NoDup].
Qed.

(** The last piece of a split has no separator, and the string is that
    piece alone or ends with the separator and that piece. *)
Lemma last_piece_split sep s :
  occurs sep (last_piece (split sep s)) = false /\
  (s = last_piece (split sep s) \/
   exists stem, s = stem ++ Str sep (last_piece (split sep s))).
Proof.
  unfold last_piece.
  induction s as [|c s [IHo IHs]]; [split; [reflexivity | now left]|].
  cbn [split]. destruct (N.eqb_spec c sep) as [-> | Hne].
  - assert (E : last (EmptyStr :: split sep s) EmptyStr
                = last (split sep s) EmptyStr).
    { pose proof (split_not_nil sep s). simpl. now destruct (split sep s). }
    rewrite E. split; [exact IHo|]. right.
    destruct IHs as [Hs | [stem Hs]].
    + exists EmptyStr. simpl. now rewrite <- Hs.
    + exists (Str sep stem). simpl. now rewrite <- Hs.
  - destruct (split sep s) as [|piece pieces] eqn:Esplit.
    { now elim (split_not_nil sep s). }
    destruct pieces as [|piece' pieces].
    + simpl in *. apply N.eqb_neq in Hne. rewrite Hne, IHo.
      split; [reflexivity|]. left.
      destruct IHs as [-> | [stem Hs]]; [reflexivity|].
      exfalso. rewrite Hs in Esplit.
      destruct (split_app_sep sep stem piece) as (front & Hfront & E).
      rewrite E in Esplit.
      destruct front as [|f front]; [contradiction|].
      pose proof (split_not_nil sep piece) as Hn.
      destruct front; simpl in Esplit; injection Esplit as _ E2.
      * contradiction.
      * discriminate.
    + change (last (Str c piece :: piece' :: pieces) EmptyStr)
        with (last (piece :: piece' :: pieces) EmptyStr).
      split; [exact IHo|]. right.
      destruct IHs as [Hs | [stem Hs]].
      * exfalso. rewrite Hs in Esplit at 1. rewrite split_no_sep in Esplit by exact IHo.
        discriminate.
      * exists (Str c stem). cbn [append]. f_equal. exact Hs.
Qed.

(** X24. The extension the service dispatches on has no dot; the
    lower-cased file name is that extension alone or ends with a dot and
    the extension; and a name without any dot is its own extension, lower
    case. *)
Theorem ext_of_shape filename :
  occurs "." (ext_of filename) = false /\
  (lower filename = ext_of filename \/
   exists stem, lower filename = stem ++ "." ++ ext_of filename) /\
  (occurs "." filename = false -> ext_of filename = lower filename).
Proof.
  unfold ext_of.
  destruct (last_piece_split "."%chr (lower filename)) as [Ho Hs].
  split; [exact Ho|]. split; [exact Hs|].
  intros Hdot. rewrite split_no_sep; [reflexivity|].
  now rewrite occurs_lower_dot.
Qed.

(** Joining with newlines gives white space only from white space. *)
Lemma all_chars_isspace_join l :
  all_chars isspace (join nl l) = forallb (all_chars isspace) l.
Proof.
  induction l as [|x l IH]; [reflexivity|].
  destruct l as [|y l].
  - simpl. now rewrite andb_true_r.
  - change (join nl (x :: y :: l)) with (x ++ nl ++ join nl (y :: l)).
    rewrite !all_chars_app, IH. reflexivity.
Qed.

Lemma forallb_blank_kept paragraphs :
  forallb blank (filter (fun t => truthy (strip t)) paragraphs) =
  forallb blank paragraphs.
Proof.
  induction paragraphs as [|x l IH]; [reflexivity|].
  cbn [filter forallb]. rewrite truthy_strip. unfold blank at 2.
  destruct (all_chars isspace x) eqn:E; cbn [negb andb].
  - exact IH.
  - cbn [forallb]. unfold blank at 1. now rewrite E.
Qed.

(** X25. The text of a PDF is white space only exactly when every page has
    no text or white space only; an upload of such a PDF fails after the
    reader, with nothing split or written. *)
Theorem pdf_without_text_is_rejected :
  (forall pages,
     blank (pdf_text pages) = forallb (fun page => blank (or_empty page)) pages) /\
  (forall env filename content pages,
     ext_of filename = "pdf" ->
     read_pdf env content = inr (pdf_text pages) ->
     forallb (fun page => blank (or_empty page)) pages = true ->
     upload_document env filename content =
       (inr failure_response,
        [CallReadPdf content;
         Printed (ValueError "No readable text found in document")])).
Proof.
  assert (H : forall pages,
     blank (pdf_text pages) = forallb (fun page => blank (or_empty page)) pages).
  { intros pages. unfold blank, pdf_text.
    rewrite all_chars_isspace_join.
    induction pages as [|x l IH]; simpl; [reflexivity | now rewrite IH]. }
  split; [exact H|].
  intros env filename content pages Hext Hread Hblank.
  apply (upload_document_blank env filename content (pdf_text pages)
           [CallReadPdf content]).
  - unfold _extract_text. rewrite Hext. cbn. unfold _read_pdf, call. now rewrite Hread.
  - fold (blank (pdf_text pages)). now rewrite H.
Qed.

(** X26. The text of a DOCX file is white space only exactly when every
    paragraph is, in which case it is empty; an upload of such a document
    fails after the reader, with nothing split or written. *)
Theorem docx_of_blank_paragraphs_is_rejected :
  (forall paragraphs,
     blank (docx_text paragraphs) = forallb blank paragraphs) /\
  (forall paragraphs,
     forallb blank paragraphs = true -> docx_text paragraphs = EmptyStr) /\
  (forall env filename content paragraphs,
     ext_of filename = "docx" ->
     read_docx env content = inr (docx_text paragraphs) ->
     forallb blank paragraphs = true ->
     upload_document env filename content =
       (inr failure_response,
        [CallReadDocx content;
         Printed (ValueError "No readable text found in document")])).
Proof.
  assert (H : forall paragraphs,
            blank (docx_text paragraphs) = forallb blank paragraphs).
  { intros paragraphs. unfold docx_text.
    unfold blank at 1. rewrite all_chars_isspace_join.
    apply forallb_blank_kept. }
  split; [exact H|]. split.
  { induction paragraphs as [|x l IH]; [reflexivity|].
    cbn [forallb]. intros Hb. apply andb_true_iff in Hb as [Hx Hl].
    unfold docx_text in *. cbn [filter]. unfold blank in Hx.
    rewrite truthy_strip, Hx. cbn [negb]. now apply IH. }
  intros env filename content paragraphs Hext Hread Hblank.
  apply (upload_document_blank env filename content (docx_text paragraphs)
           [CallReadDocx content]).
  - unfold _extract_text. rewrite Hext. cbn. unfold _read_docx, call. now rewrite Hread.
  - fold (blank (docx_text paragraphs)). now rewrite H.
Qed.

(** **** Instances *)

Lemma unsupported_extension_touches_nothing_witness :
  upload_document Scenarios.kb_env "data.csv" "a,b" =
    (inr failure_response, [Printed (ValueError "Unsupported file type")]).
Proof.
  apply (unsupported_extension_touches_nothing Scenarios.kb_env "data.csv" "a,b");
    vm_compute; discriminate.
Defined.

Lemma accepted_name_selects_reader_witness :
  (exists stem, "notes.txt" = stem ++ ".pdf" /\
     _extract_text Scenarios.kb_env "notes.txt" "hello"
     = _read_pdf Scenarios.kb_env "hello") \/
  (exists stem, "notes.txt" = stem ++ ".docx" /\
     _extract_text Scenarios.kb_env "notes.txt" "hello"
     = _read_docx Scenarios.kb_env "hello") \/
  (exists stem, "notes.txt" = stem ++ ".txt" /\
     _extract_text Scenarios.kb_env "notes.txt" "hello"
     = _read_txt Scenarios.kb_env "hello").
Proof.
  apply accepted_name_selects_reader. reflexivity.
Defined.

Lemma blank_text_writes_nothing_witness :
  upload_document Scenarios.kb_env "notes.txt" KnowledgeBaseSpec.unicode_blank =
    (inr failure_response,
     [CallReadTxt KnowledgeBaseSpec.unicode_blank;
      Printed (ValueError "No readable text found in document")]).
Proof.
  apply (blank_text_writes_nothing Scenarios.kb_env "notes.txt"
           KnowledgeBaseSpec.unicode_blank KnowledgeBaseSpec.unicode_blank
           [CallReadTxt KnowledgeBaseSpec.unicode_blank]); reflexivity.
Defined.

Lemma dense_failure_skips_sparse_witness :
  upload_document kb_dense_down "notes.txt" "hello" =
    (inr failure_response,
     [CallReadTxt "hello"; CallSplitText "hello";
      CallUpsert dense_index_name namespace
        (records_of kb_dense_down "notes.txt" ["hello"]);
      Printed outage]).
Proof.
  apply (dense_failure_skips_sparse kb_dense_down "notes.txt" "hello" "hello"
           [CallReadTxt "hello"] ["hello"] outage); reflexivity.
Defined.

Lemma sparse_failure_leaves_dense_written_witness :
  upload_document kb_sparse_down "notes.txt" "hello" =
    (inr failure_response,
     [CallReadTxt "hello"; CallSplitText "hello";
      CallUpsert dense_index_name namespace
        (records_of kb_sparse_down "notes.txt" ["hello"]);
      CallUpsert sparse_index_name namespace
        (records_of kb_sparse_down "notes.txt" ["hello"]);
      Printed outage]).
Proof.
  apply (sparse_failure_leaves_dense_written kb_sparse_down "notes.txt" "hello"
           "hello" [CallReadTxt "hello"] ["hello"] outage); reflexivity.
Defined.

Lemma successful_upload_writes_both_witness :
  upload_document Scenarios.kb_env "notes.txt" "hello" =
    (inr success_response,
     [CallReadTxt "hello"; CallSplitText "hello";
      CallUpsert dense_index_name namespace
        (records_of Scenarios.kb_env "notes.txt" ["hello"]);
      CallUpsert sparse_index_name namespace
        (records_of Scenarios.kb_env "notes.txt" ["hello"])]).
Proof.
  apply (successful_upload_writes_both Scenarios.kb_env "notes.txt" "hello"
           "hello" [CallReadTxt "hello"] ["hello"]); reflexivity.
Defined.

Lemma ext_of_shape_witness : ext_of "README" = lower "README".
Proof.
  apply (proj2 (proj2 (ext_of_shape "README"))). reflexivity.
Defined.

Lemma pdf_without_text_is_rejected_witness :
  upload_document kb_unreadable "scan.PDF" "%PDF-1.7" =
    (inr failure_response,
     [CallReadPdf "%PDF-1.7";
      Printed (ValueError "No readable text found in document")]).
Proof.
  apply (proj2 pdf_without_text_is_rejected kb_unreadable "scan.PDF" "%PDF-1.7"
           scanned_pages); reflexivity.
Defined.

Lemma docx_of_blank_paragraphs_is_rejected_witness :
  upload_document kb_unreadable "empty.docx" "PK" =
    (inr failure_response,
     [CallReadDocx "PK";
      Printed (ValueError "No readable text found in document")]).
Proof.
  apply (proj2 (proj2 docx_of_blank_paragraphs_is_rejected)
           kb_unreadable "empty.docx" "PK" blank_paragraphs); reflexivity.
Defined.

End KnowledgeBaseExtras.

(* --------------------------------------------------------------------- *)
(** *** Start-up *)

Module AppExtras.
Import Eff App AppSpec EffFacts.
Local Open Scope eff_scope.

(** One index: asked for first, created only on the answer that it is
    missing, with the fixed cloud and region. *)
Lemma ensure_index_spec env name model :
  ensure_index env name model =
    match pinecone_has_index env name with
    | inl e => (inl e, [CallHasIndex name])
    | inr true => (inr tt, [CallHasIndex name])
    | inr false =>
        (pinecone_create_index_for_model env name "aws" "us-east-1" model,
         [CallHasIndex name; CallCreateIndex name "aws" "us-east-1" model])
    end.
Proof.
  unfold ensure_index, has_index, create_index_for_model.
  destruct (pinecone_has_index env name) as [e | [|]]; [reflexivity | reflexivity |].
  rewrite bind_inr. cbn [negb].
  now destruct (pinecone_create_index_for_model env name "aws" "us-east-1" model).
Qed.

Lemma ensure_index_outcome env name model :
  (fst (ensure_index env name model) = inr tt <-> index_ready env name model) /\
  (forall e, fst (ensure_index env name model) = inl e <->
             index_raises env name model e) /\
  (forall n cloud region m,
     In (CallCreateIndex n cloud region m) (snd (ensure_index env name model)) ->
     pinecone_has_index env name = inr false /\
     n = name /\ cloud = "aws" /\ region = "us-east-1" /\ m = model) /\
  (forall n, In (CallHasIndex n) (snd (ensure_index env name model)) -> n = name).
Proof.
  rewrite ensure_index_spec. unfold index_ready, index_raises.
  destruct (pinecone_has_index env name) as [e | [|]]; cbn [fst snd].
  - split; [split; [discriminate | intros [H | [H _]]; discriminate]|].
    split.
    { intros e'. split.
      - intros H. injection H as <-. now left.
      - intros [H | [H _]]; [now injection H as <- | discriminate]. }
    split.
    { intros n cloud region m [H | []]. discriminate. }
    intros n [H | []]. now injection H.
  - split; [split; [auto | reflexivity]|].
    split.
    { intros e'. split; [discriminate | intros [H | [H _]]; discriminate]. }
    split.
    { intros n cloud region m [H | []]. discriminate. }
    intros n [H | []]. now injection H.
  - split.
    { split.
      - intros H. right. split; [reflexivity | exact H].
      - intros [H | [_ H]]; [discriminate | exact H]. }
    split.
    { intros e'. split.
      - intros H. right. split; [reflexivity | exact H].
      - intros [H | [_ H]]; [discriminate | exact H]. }
    split.
    { intros n cloud region m [H | [H | []]]; [discriminate|].
      injection H as <- <- <- <-. auto 6. }
    intros n [H | [H | []]]; [now injection H | discriminate].
Qed.

(** X27. The index preparation of [lifespan]: it asks [has_index] for the
    dense index first; it calls [create_index_for_model] only for an index
    that [has_index] reported missing, with cloud "aws", region
    "us-east-1" and the embedding model of that index; when both indexes
    are reported present it makes the two [has_index] calls and nothing
    else; it completes exactly when each index existed or was created; and
    an exception of any of its calls is not handled: the start-up ends with
    it, and the sparse index is not even asked for when the step for the
    dense one raises. *)
Theorem lifespan_prepares_indexes env :
  (exists rest, snd (lifespan env) = CallHasIndex dense_index_name :: rest) /\
  (forall name cloud region model,
     In (CallCreateIndex name cloud region model) (snd (lifespan env)) ->
     pinecone_has_index env name = inr false /\
     cloud = "aws" /\ region = "us-east-1" /\
     ((name = dense_index_name /\ model = "llama-text-embed-v2") \/
      (name = sparse_index_name /\ model = "pinecone-sparse-english-v0"))) /\
  (pinecone_has_index env dense_index_name = inr true ->
   pinecone_has_index env sparse_index_name = inr true ->
   lifespan env =
     (inr tt, [CallHasIndex dense_index_name; CallHasIndex sparse_index_name])) /\
  (fst (lifespan env) = inr tt <->
   index_ready env dense_index_name "llama-text-embed-v2" /\
   index_ready env sparse_index_name "pinecone-sparse-english-v0") /\
  (forall e,
     fst (lifespan env) = inl e <->
     index_raises env dense_index_name "llama-text-embed-v2" e \/
     (index_ready env dense_index_name "llama-text-embed-v2" /\
      index_raises env sparse_index_name "pinecone-sparse-english-v0" e)) /\
  (forall e,
     index_raises env dense_index_name "llama-text-embed-v2" e ->
     ~ In (CallHasIndex sparse_index_name) (snd (lifespan env))).
Proof.
  destruct (ensure_index_outcome env dense_index_name "llama-text-embed-v2")
    as (Hdok & Hdko & Hdc & Hdh).
  destruct (ensure_index_outcome env sparse_index_name "pinecone-sparse-english-v0")
    as (Hsok & Hsko & Hsc & Hsh).
  assert (Hfirst : exists rest,
            snd (ensure_index env dense_index_name "llama-text-embed-v2")
            = CallHasIndex dense_index_name :: rest).
  { rewrite ensure_index_spec.
    destruct (pinecone_has_index env dense_index_name) as [e | [|]];
      eexists; reflexivity. }
  unfold lifespan.
  destruct (ensure_index env dense_index_name "llama-text-embed-v2")
    as [[e | []] td] eqn:Ed; cbn [fst snd] in *.
  - (* the step for the dense index raises *)
    cbn [bind fst snd].
    split; [exact Hfirst|].
    split.
    { intros name cloud region model Hin.
      destruct (Hdc _ _ _ _ Hin) as (H1 & -> & -> & -> & ->). auto 6. }
    split.
    { intros Hd _. assert (H : @inl exn unit e = inr tt) by (apply Hdok; now left).
      discriminate H. }
    split.
    { split; [discriminate|]. intros [H _]. apply Hdok in H. discriminate H. }
    split.
    { intros e'. rewrite <- Hdko. split; [auto|].
      intros [H | [H _]]; [exact H|]. apply Hdok in H. discriminate H. }
    intros e' _ Hin. apply Hdh in Hin. discriminate Hin.
  - (* the step for the dense index returns *)
    rewrite bind_inr.
    destruct (ensure_index env sparse_index_name "pinecone-sparse-english-v0")
      as [rs ts] eqn:Es; cbn [fst snd] in *.
    split.
    { destruct Hfirst as (rest & ->). eexists. reflexivity. }
    split.
    { intros name cloud region model Hin. apply in_app_iff in Hin as [Hin | Hin].
      - destruct (Hdc _ _ _ _ Hin) as (H1 & -> & -> & -> & ->). auto 6.
      - destruct (Hsc _ _ _ _ Hin) as (H1 & -> & -> & -> & ->). auto 6. }
    split.
    { intros Hd Hs. rewrite ensure_index_spec, Hd in Ed.
      rewrite ensure_index_spec, Hs in Es.
      injection Ed as <-. injection Es as <- <-. reflexivity. }
    split.
    { rewrite Hsok. split; [intros H; split; [apply Hdok; reflexivity | exact H] | tauto]. }
    split.
    { intros e'. rewrite Hsko. split.
      - intros H. right. split; [apply Hdok; reflexivity | exact H].
      - intros [H | [_ H]]; [|exact H]. apply Hdko in H. discriminate H. }
    intros e' H. apply Hdko in H. discriminate H.
Qed.

(** **** Instances *)

Lemma lifespan_prepares_indexes_witness :
  lifespan
    (mkEnv (fun _ => inr true) (fun _ _ _ _ => inl unreachable)) =
    (inr tt, [CallHasIndex dense_index_name; CallHasIndex sparse_index_name]).
Proof.
  apply (proj1 (proj2 (proj2 (lifespan_prepares_indexes
           (mkEnv (fun _ => inr true) (fun _ _ _ _ => inl unreachable))))));
    reflexivity.
Defined.

(** A first start-up creates both indexes; a vector database that stops
    answering ends the start-up. *)
Example lifespan_fresh :
  lifespan fresh =
    (inr tt,
     [CallHasIndex dense_index_name;
      CallCreateIndex dense_index_name "aws" "us-east-1" "llama-text-embed-v2";
      CallHasIndex sparse_index_name;
      CallCreateIndex sparse_index_name "aws" "us-east-1"
                      "pinecone-sparse-english-v0"]).
Proof. reflexivity. Qed.

Example lifespan_goes_down :
  lifespan goes_down =
    (inl unreachable,
     [CallHasIndex dense_index_name; CallHasIndex sparse_index_name]).
Proof. reflexivity. Qed.

End AppExtras.
